(** * archive-tools: a shallow embedding of the batch pipeline

    The development follows the TypeScript sources of the archive tools:
    [DirectoryMaker] (markdown records), [S3Uploader], [S3Downloader] and
    [ImagePreviewMaker].  JavaScript strings are sequences of UTF-16 code
    units; the file system, the logger and the S3 service are an explicit
    world that every asynchronous method threads through. *)

From Stdlib Require Import ZArith NArith List Bool Lia String Ascii.
From Stdlib Require Import Numbers.DecimalString.
From stdpp Require Import base option gmap.
Import ListNotations.

Open Scope Z_scope.

(* ===================================================================== *)
(** ** JavaScript strings *)
(* ===================================================================== *)

Module JS.

(** A string is the list of its UTF-16 code units. *)
Definition code_unit := N.
Definition jsstring := list code_unit.

(** A literal of the source, given by its ASCII text. *)
Definition lit (s : string) : jsstring :=
  List.map N_of_ascii (list_ascii_of_string s).

(** Template-literal rendering of a non-negative integer ([${n}]). *)
Definition of_nat (n : nat) : jsstring :=
  lit (NilEmpty.string_of_uint (Nat.to_uint n)).

Fixpoint eqb (a b : jsstring) : bool :=
  match a, b with
  | [], [] => true
  | x :: a', y :: b' => N.eqb x y && eqb a' b'
  | _, _ => false
  end.

(** Truthiness of a string value: only the empty string is falsy. *)
Definition truthy (s : jsstring) : bool :=
  match s with [] => false | _ :: _ => true end.

(** [a || b] on strings. *)
Definition or_else (a b : jsstring) : jsstring :=
  if truthy a then a else b.

(** The characters matched by [\s], which are also the ones [trim] strips:
    ECMAScript WhiteSpace and LineTerminator. *)
Definition is_whitespace (c : code_unit) : bool :=
  ((9 <=? c) && (c <=? 13) ||
   (c =? 32) || (c =? 160) || (c =? 5760) ||
   (8192 <=? c) && (c <=? 8202) ||
   (c =? 8232) || (c =? 8233) || (c =? 8239) || (c =? 8287) ||
   (c =? 12288) || (c =? 65279))%N.

Fixpoint trimStart (s : jsstring) : jsstring :=
  match s with
  | c :: t => if is_whitespace c then trimStart t else s
  | [] => []
  end.

Definition trimEnd (s : jsstring) : jsstring := rev (trimStart (rev s)).

Definition trim (s : jsstring) : jsstring := trimEnd (trimStart s).

(** [s.lastIndexOf(c)] for a one-character needle: the last index at which
    [c] occurs, [-1] when it does not. *)
Fixpoint lastIndexOf_from (c : code_unit) (s : jsstring) (i found : Z) : Z :=
  match s with
  | [] => found
  | x :: t => lastIndexOf_from c t (i + 1) (if N.eqb x c then i else found)
  end.

Definition lastIndexOf (s : jsstring) (c : code_unit) : Z :=
  lastIndexOf_from c s 0 (-1).

(** [s.substring(a, b)]: both indices are clamped to [0, length] and
    swapped when out of order. *)
Definition substring (s : jsstring) (a b : Z) : jsstring :=
  let len := Z.of_nat (length s) in
  let a' := Z.min (Z.max a 0) len in
  let b' := Z.min (Z.max b 0) len in
  let lo := Z.min a' b' in
  let hi := Z.max a' b' in
  firstn (Z.to_nat (hi - lo)) (skipn (Z.to_nat lo) s).

(** [s.toLowerCase()].  The program only compares lower-cased text with
    the ASCII constants '.pdf', '.jpg', '.jpeg', '.png', '.gif' and '.webp'.
    Outside A-Z the only characters whose lower case contains an ASCII
    letter are U+0130 (to 'i' followed by U+0307) and U+212A (to 'k'), and
    neither makes a text equal to, or end with, one of those constants; so
    the ASCII mapping decides the same comparisons. *)
Definition lower_unit (c : code_unit) : code_unit :=
  if ((65 <=? c) && (c <=? 90))%N then (c + 32)%N else c.

Definition toLowerCase (s : jsstring) : jsstring := List.map lower_unit s.

(** [s.endsWith(suffix)]. *)
Definition endsWith (s suffix : jsstring) : bool :=
  (length suffix <=? length s)%nat &&
  eqb (skipn (length s - length suffix) s) suffix.

(** [s.replace(/\s+/g, by)]: every maximal run of whitespace becomes one
    copy of [by].  [in_run] records that the previous character belonged to
    the run being replaced. *)
Fixpoint replace_ws_from (by_ : jsstring) (in_run : bool) (s : jsstring)
  : jsstring :=
  match s with
  | [] => []
  | c :: t =>
      if is_whitespace c
      then (if in_run then [] else by_) ++ replace_ws_from by_ true t
      else c :: replace_ws_from by_ false t
  end.

Definition replace_ws (by_ : jsstring) (s : jsstring) : jsstring :=
  replace_ws_from by_ false s.

(** The class [a-zA-Z0-9-]. *)
Definition is_slug_unit (c : code_unit) : bool :=
  ((97 <=? c) && (c <=? 122) || (65 <=? c) && (c <=? 90) ||
   (48 <=? c) && (c <=? 57) || (c =? 45))%N.

(** [s.replace(/[^a-zA-Z0-9-]/g, '')]. *)
Definition remove_non_slug (s : jsstring) : jsstring :=
  List.filter is_slug_unit s.

(** [s.startsWith(p)]. *)
Fixpoint startsWith (s p : jsstring) : bool :=
  match p, s with
  | [], _ => true
  | x :: p', y :: s' => N.eqb x y && startsWith s' p'
  | _ :: _, [] => false
  end.

(** [hay.includes(needle)]. *)
Fixpoint includes (hay needle : jsstring) : bool :=
  startsWith hay needle ||
  match hay with
  | [] => false
  | _ :: t => includes t needle
  end.

End JS.

Import JS.

Open Scope list_scope.

Arguments lit : simpl never.
Arguments of_nat : simpl never.

(* ===================================================================== *)
(** ** Node's [path] module (POSIX flavour) *)
(* ===================================================================== *)

Module Path.

Definition slash : code_unit := 47%N.
Definition dot : code_unit := 46%N.

Definition charCodeAt (s : jsstring) (i : Z) : code_unit :=
  nth (Z.to_nat i) s 0%N.

Definition slice (s : jsstring) (a b : Z) : jsstring :=
  firstn (Z.to_nat (b - a)) (skipn (Z.to_nat a) s).

(** [for (let i = n - 1; i >= 0; --i) body], where the body may [break]. *)
Fixpoint for_down {S : Type} (body : Z -> S -> S * bool) (n : nat) (st : S)
  : S :=
  match n with
  | O => st
  | S i =>
      let '(st', brk) := body (Z.of_nat i) st in
      if brk then st' else for_down body i st'
  end.

(** *** [path.basename(path)] *)

Record basename_st := {
  b_start : Z;
  b_end : Z;
  b_matchedSlash : bool;
}.

Definition basename_body (path : jsstring) (i : Z) (st : basename_st)
  : basename_st * bool :=
  if N.eqb (charCodeAt path i) slash then
    if negb (b_matchedSlash st)
    then ({| b_start := i + 1; b_end := b_end st;
             b_matchedSlash := b_matchedSlash st |}, true)
    else (st, false)
  else if b_end st =? -1 then
    ({| b_start := b_start st; b_end := i + 1; b_matchedSlash := false |},
     false)
  else (st, false).

Definition basename (path : jsstring) : jsstring :=
  let st := for_down (basename_body path) (length path)
              {| b_start := 0; b_end := -1; b_matchedSlash := true |} in
  if b_end st =? -1 then [] else slice path (b_start st) (b_end st).

(** [path.basename(path, suffix)]: the suffix is removed from the last
    component when that component ends with it and is longer than it; a path
    that is the suffix itself gives the empty string. *)
Definition basename_suffix (path suffix : jsstring) : jsstring :=
  if JS.eqb suffix path then []
  else
    let b := basename path in
    if truthy suffix && JS.endsWith b suffix &&
       negb (JS.eqb b suffix)
    then firstn (length b - length suffix) b
    else b.

(** *** [path.extname(path)] *)

Record extname_st := {
  e_startDot : Z;
  e_startPart : Z;
  e_end : Z;
  e_matchedSlash : bool;
  e_preDotState : Z;
}.

Definition extname_body (path : jsstring) (i : Z) (st : extname_st)
  : extname_st * bool :=
  let code := charCodeAt path i in
  if N.eqb code slash then
    if negb (e_matchedSlash st)
    then ({| e_startDot := e_startDot st; e_startPart := i + 1;
             e_end := e_end st; e_matchedSlash := e_matchedSlash st;
             e_preDotState := e_preDotState st |}, true)
    else (st, false)
  else
    let st1 :=
      if e_end st =? -1
      then {| e_startDot := e_startDot st; e_startPart := e_startPart st;
              e_end := i + 1; e_matchedSlash := false;
              e_preDotState := e_preDotState st |}
      else st in
    if N.eqb code dot then
      if e_startDot st1 =? -1
      then ({| e_startDot := i; e_startPart := e_startPart st1;
               e_end := e_end st1; e_matchedSlash := e_matchedSlash st1;
               e_preDotState := e_preDotState st1 |}, false)
      else if negb (e_preDotState st1 =? 1)
      then ({| e_startDot := e_startDot st1; e_startPart := e_startPart st1;
               e_end := e_end st1; e_matchedSlash := e_matchedSlash st1;
               e_preDotState := 1 |}, false)
      else (st1, false)
    else if negb (e_startDot st1 =? -1)
    then ({| e_startDot := e_startDot st1; e_startPart := e_startPart st1;
             e_end := e_end st1; e_matchedSlash := e_matchedSlash st1;
             e_preDotState := -1 |}, false)
    else (st1, false).

Definition extname (path : jsstring) : jsstring :=
  let st := for_down (extname_body path) (length path)
              {| e_startDot := -1; e_startPart := 0; e_end := -1;
                 e_matchedSlash := true; e_preDotState := 0 |} in
  if (e_startDot st =? -1) || (e_end st =? -1) || (e_preDotState st =? 0) ||
     ((e_preDotState st =? 1) && (e_startDot st =? e_end st - 1) &&
      (e_startDot st =? e_startPart st + 1))
  then []
  else slice path (e_startDot st) (e_end st).

(** *** [path.dirname(path)] *)

Definition dirname_body (path : jsstring) (i : Z) (st : Z * bool)
  : (Z * bool) * bool :=
  let '(end_, matchedSlash) := st in
  if i <? 1 then (st, true)
  else if N.eqb (charCodeAt path i) slash then
    if negb matchedSlash then ((i, matchedSlash), true) else (st, false)
  else ((end_, false), false).

Definition dirname (path : jsstring) : jsstring :=
  match path with
  | [] => lit "."
  | c :: _ =>
      let hasRoot := N.eqb c slash in
      let '(end_, _) := for_down (dirname_body path) (length path) (-1, true) in
      if end_ =? -1 then (if hasRoot then lit "/" else lit ".")
      else if hasRoot && (end_ =? 1) then lit "//"
      else slice path 0 end_
  end.

(** *** [path.normalize], [path.join], [path.resolve], [path.relative]

    These work on the '/'-separated segments of a path: empty and '.'
    segments disappear, a '..' segment removes the segment before it, and is
    itself kept only in a relative path with nothing left to remove. *)

Fixpoint split (s : jsstring) : list jsstring :=
  match s with
  | [] => [[]]
  | c :: t =>
      if N.eqb c slash then [] :: split t
      else match split t with
           | h :: r => (c :: h) :: r
           | [] => [[c]]
           end
  end.

Fixpoint unsplit (segs : list jsstring) : jsstring :=
  match segs with
  | [] => []
  | [seg] => seg
  | seg :: rest => seg ++ slash :: unsplit rest
  end.

Fixpoint normalizeSegments (allowAboveRoot : bool) (segs res : list jsstring)
  : list jsstring :=
  match segs with
  | [] => rev res
  | seg :: rest =>
      if JS.eqb seg [] || JS.eqb seg (lit ".") then
        normalizeSegments allowAboveRoot rest res
      else if JS.eqb seg (lit "..") then
        match res with
        | top :: res' =>
            if JS.eqb top (lit "..")
            then normalizeSegments allowAboveRoot rest
                   (if allowAboveRoot then seg :: res else res)
            else normalizeSegments allowAboveRoot rest res'
        | [] =>
            normalizeSegments allowAboveRoot rest
              (if allowAboveRoot then [seg] else [])
        end
      else normalizeSegments allowAboveRoot rest (seg :: res)
  end.

Definition normalizeString (path : jsstring) (allowAboveRoot : bool)
  : jsstring :=
  unsplit (normalizeSegments allowAboveRoot (split path) []).

Definition isAbsolute (path : jsstring) : bool :=
  match path with c :: _ => N.eqb c slash | [] => false end.

Definition normalize (path : jsstring) : jsstring :=
  match path with
  | [] => lit "."
  | _ :: _ =>
      let trailingSeparator := N.eqb (List.last path 0%N) slash in
      let p := normalizeString path (negb (isAbsolute path)) in
      match p with
      | [] =>
          if isAbsolute path then lit "/"
          else if trailingSeparator then lit "./" else lit "."
      | _ :: _ =>
          let p' := if trailingSeparator then p ++ [slash] else p in
          if isAbsolute path then slash :: p' else p'
      end
  end.

Definition join (args : list jsstring) : jsstring :=
  match List.filter truthy args with
  | [] => lit "."
  | parts => normalize (unsplit parts)
  end.

(** [path.resolve(p)] against the working directory [cwd] (an absolute
    path): the segments of the absolute, normalized result. *)
Definition resolveSegments (cwd p : jsstring) : list jsstring :=
  let full := if isAbsolute p then p else cwd ++ slash :: p in
  normalizeSegments false (split full) [].

Fixpoint dropCommon (a b : list jsstring) : list jsstring * list jsstring :=
  match a, b with
  | x :: a', y :: b' => if JS.eqb x y then dropCommon a' b' else (a, b)
  | _, _ => (a, b)
  end.

Definition relative (cwd from to : jsstring) : jsstring :=
  if JS.eqb from to then []
  else
    let '(up, down) :=
      dropCommon (resolveSegments cwd from) (resolveSegments cwd to) in
    unsplit (List.map (fun _ => lit "..") up ++ down).

End Path.

(* ===================================================================== *)
(** ** The world: file system, logger, S3 service *)
(* ===================================================================== *)

(** Values a rejected promise or a [throw] carries. *)
Inductive Error :=
| SystemError (code : jsstring) (path : jsstring)
| ServiceError (name : jsstring)
| PlainError (message : jsstring).

(** How a computation ends: it returns, it throws, or the fuel given to a
    loop without a bound of its own ran out before it ended. *)
Inductive result (A : Type) :=
| Ok (a : A)
| Err (e : Error)
| OutOfFuel.
Arguments Ok {A} a.
Arguments Err {A} e.
Arguments OutOfFuel {A}.

(** How a promise of the environment settles. *)
Inductive outcome (A : Type) :=
| Fulfilled (a : A)
| Rejected (e : Error).
Arguments Fulfilled {A} a.
Arguments Rejected {A} e.

Definition Buffer := list N.

Inductive FileData :=
| Text (s : jsstring)
| Bytes (b : Buffer).

(** What [readdir] and [stat] find at a path. *)
#[warnings="-register-all"]
Inductive node :=
| File
| Directory (entries : list (jsstring * node))
| Unreadable (e : Error)   (* a directory whose listing fails *)
| Special                  (* neither a regular file nor a directory *)
| Missing (e : Error).     (* [stat] fails *)

Inductive Stats := StFile | StDirectory | StOther.

Definition isDirectory (s : Stats) : bool :=
  match s with StDirectory => true | _ => false end.
Definition isFile (s : Stats) : bool :=
  match s with StFile => true | _ => false end.

Inductive Level := Debug | Info | Warn | Error_.

(** One call of the pino logger: level, string fields of the merging
    object, its [error] field, message. *)
Record LogEntry := {
  level : Level;
  bindings : list (string * jsstring);
  err : option Error;
  msg : jsstring;
}.

Record PutObjectCommand := {
  put_Bucket : jsstring;
  put_Key : jsstring;
  put_Body : Buffer;
  put_ContentType : jsstring;
}.

Record ListObjectsV2Command := {
  list_Bucket : jsstring;
  list_Prefix : jsstring;
  list_ContinuationToken : option jsstring;
  list_MaxKeys : Z;
}.

Record GetObjectCommand := {
  get_Bucket : jsstring;
  get_Key : jsstring;
}.

Inductive Command :=
| PutObject (c : PutObjectCommand)
| ListObjectsV2 (c : ListObjectsV2Command)
| GetObject (c : GetObjectCommand).

Record ListObjectsV2Output := {
  Contents : option (list (option jsstring));   (* the [Key] of each entry *)
  NextContinuationToken : option jsstring;
}.

Inductive Body :=
| Readable (chunks : list Buffer)
| NotReadable.

Record S3Object := {
  obj_Body : Buffer;
  obj_ContentType : jsstring;
}.

Inductive FsOp :=
| OpMkdir (p : jsstring)
| OpWriteFile (p : jsstring)
| OpRename (from to : jsstring).

(** The part of the environment the program only observes. *)
Record Env := {
  (* [process.cwd()] *)
  cwd : jsstring;
  (* what [readdir] and [stat] find at a path *)
  fs_tree : jsstring -> node;
  (* how [readFile] of a path settles *)
  fs_readFile : jsstring -> outcome Buffer;
  (* the error, if any, with which a changing operation fails *)
  fs_fault : FsOp -> option Error;
  (* the image of page 1 of the PDF at a path, or the converter's error *)
  pdf2pic : jsstring -> outcome Buffer;
  (* the error, if any, with which the service refuses a Put *)
  s3_put_fault : PutObjectCommand -> option Error;
  (* the answers of the service to listing and fetching *)
  s3_list : ListObjectsV2Command -> outcome ListObjectsV2Output;
  s3_get : GetObjectCommand -> outcome Body;
}.

(** The part the program changes: the directories and files it made, the
    objects of the buckets, the commands sent to S3 and the calls of the
    logger, the last two in the order in which they happened. *)
Record World := {
  w_dirs : gset jsstring;
  w_files : gmap jsstring FileData;
  w_bucket : gmap (jsstring * jsstring) S3Object;
  w_sent : list Command;
  w_log : list LogEntry;
}.

Definition set_dirs (f : gset jsstring -> gset jsstring) (w : World) :=
  {| w_dirs := f (w_dirs w); w_files := w_files w; w_bucket := w_bucket w;
     w_sent := w_sent w; w_log := w_log w |}.
Definition set_files (f : gmap jsstring FileData -> gmap jsstring FileData)
  (w : World) :=
  {| w_dirs := w_dirs w; w_files := f (w_files w); w_bucket := w_bucket w;
     w_sent := w_sent w; w_log := w_log w |}.
Definition set_bucket
  (f : gmap (jsstring * jsstring) S3Object -> gmap (jsstring * jsstring) S3Object)
  (w : World) :=
  {| w_dirs := w_dirs w; w_files := w_files w; w_bucket := f (w_bucket w);
     w_sent := w_sent w; w_log := w_log w |}.
Definition set_sent (f : list Command -> list Command) (w : World) :=
  {| w_dirs := w_dirs w; w_files := w_files w; w_bucket := w_bucket w;
     w_sent := f (w_sent w); w_log := w_log w |}.
Definition set_log (f : list LogEntry -> list LogEntry) (w : World) :=
  {| w_dirs := w_dirs w; w_files := w_files w; w_bucket := w_bucket w;
     w_sent := w_sent w; w_log := f (w_log w) |}.

Definition empty_world : World :=
  {| w_dirs := ∅; w_files := ∅; w_bucket := ∅; w_sent := []; w_log := [] |}.

(** *** Asynchronous computations

    An [async] method is a function of the world that either returns or
    throws; what it did before throwing stays done. *)
Definition M (A : Type) : Type := World -> result A * World.

Definition ret {A} (a : A) : M A := fun w => (Ok a, w).

Definition throw {A} (e : Error) : M A := fun w => (Err e, w).

Definition out_of_fuel {A} : M A := fun w => (OutOfFuel, w).

Definition bind {A B} (m : M A) (k : A -> M B) : M B :=
  fun w =>
    match m w with
    | (Ok a, w') => k a w'
    | (Err e, w') => (Err e, w')
    | (OutOfFuel, w') => (OutOfFuel, w')
    end.

(** [try { m } catch (error) { h error }]. *)
Definition try_catch {A} (m : M A) (h : Error -> M A) : M A :=
  fun w =>
    match m w with
    | (Ok a, w') => (Ok a, w')
    | (Err e, w') => h e w'
    | (OutOfFuel, w') => (OutOfFuel, w')
    end.

Declare Scope async_scope.
Delimit Scope async_scope with async.
Notation "x <- m ;; k" := (bind m (fun x => k))
  (at level 100, m at next level, right associativity) : async_scope.
Notation "m ;; k" := (bind m (fun _ => k))
  (at level 100, right associativity) : async_scope.
Open Scope async_scope.

(** [for (const x of l) { await f(x) }]: the first throw ends the loop. *)
Fixpoint for_of {A} (l : list A) (f : A -> M unit) : M unit :=
  match l with
  | [] => ret tt
  | x :: rest => f x ;; for_of rest f
  end.

(** [await Promise.all(ps)].  Every promise of the array was created, hence
    started, before the [await]; the items then run interleaved, in an
    order the program does not fix, and nothing stops one of them when
    another rejects: the combined promise fulfils when all did and rejects
    as soon as one does, the others still being in flight.

    [M] has no interleaving.  [promise_all] is the combinator in which the
    items take their turns one after the other, in array order, each to its
    end, and in which the rejection reported is that of the first rejected
    element.  Of what it computes, the following does not depend on that
    order, and the theorems on [createFilesFromDirectory] and [downloadAll]
    state no more of a batch:
    - whether the batch fulfils, and the error of its rejection when just
      one item fails;
    - which log entries and requests a batch that fulfils has made, and
      the content of a file that just one of its items writes;
    - for a batch that rejects, that every request sent is the request of
      one of its items.
    The order of the entries and requests of a batch, the content of a file
    that two items of a batch write, and how far the other items of a
    rejecting batch got, are left open. *)
Fixpoint promise_all {A} (ps : list (M A)) : M (list A) :=
  match ps with
  | [] => ret []
  | p :: rest =>
      fun w =>
        match p w with
        | (Ok a, w1) =>
            match promise_all rest w1 with
            | (Ok l, w2) => (Ok (a :: l), w2)
            | (Err e, w2) => (Err e, w2)
            | (OutOfFuel, w2) => (OutOfFuel, w2)
            end
        | (Err e, w1) =>
            match promise_all rest w1 with
            | (OutOfFuel, w2) => (OutOfFuel, w2)
            | (_, w2) => (Err e, w2)
            end
        | (OutOfFuel, w1) => (OutOfFuel, w1)
        end
  end.

(** [await p] for a promise of the environment. *)
Definition await {A} (p : outcome A) : M A :=
  match p with
  | Fulfilled a => ret a
  | Rejected e => throw e
  end.

(** *** The logger *)

Definition logger (lvl : Level) (fields : list (string * jsstring))
  (e : option Error) (m : jsstring) : M unit :=
  fun w =>
    (Ok tt,
     set_log (fun l => l ++ [{| level := lvl; bindings := fields;
                                 err := e; msg := m |}]) w).

Definition logger_debug (m : jsstring) : M unit := logger Debug [] None m.
Definition logger_info (m : jsstring) : M unit := logger Info [] None m.
Definition logger_warn (m : jsstring) : M unit := logger Warn [] None m.
Definition logger_error (fields : list (string * jsstring)) (e : Error)
  (m : jsstring) : M unit := logger Error_ fields (Some e) m.

(** *** File-system and S3 primitives *)

Section Primitives.

Variable env : Env.

Definition readdir (p : jsstring) : M (list jsstring) :=
  match fs_tree env p with
  | Directory entries => ret (List.map fst entries)
  | Unreadable e | Missing e => throw e
  | File | Special => throw (SystemError (lit "ENOTDIR") p)
  end.

Definition readFile (p : jsstring) : M Buffer :=
  await (fs_readFile env p).

(** [fs.exists]. *)
Definition exists_ (p : jsstring) : M bool :=
  fun w =>
    (Ok (bool_decide (p ∈ w_dirs w) || bool_decide (is_Some (w_files w !! p))),
     w).

(** [mkdir(p, { recursive: true })]. *)
Definition mkdir (p : jsstring) : M unit :=
  fun w =>
    match fs_fault env (OpMkdir p) with
    | Some e => (Err e, w)
    | None => (Ok tt, set_dirs (fun d => {[ p ]} ∪ d) w)
    end.

Definition writeFile (p : jsstring) (d : FileData) : M unit :=
  fun w =>
    match fs_fault env (OpWriteFile p) with
    | Some e => (Err e, w)
    | None => (Ok tt, set_files (fun m => <[ p := d ]> m) w)
    end.

Definition rename (from to : jsstring) : M unit :=
  fun w =>
    match fs_fault env (OpRename from to) with
    | Some e => (Err e, w)
    | None =>
        match w_files w !! from with
        | Some d =>
            (Ok tt, set_files (fun m => <[ to := d ]> (delete from m)) w)
        | None => (Err (SystemError (lit "ENOENT") from), w)
        end
    end.

(** [s3Client.send(new PutObjectCommand(...))]. *)
Definition send_put (c : PutObjectCommand) : M unit :=
  fun w =>
    let w1 := set_sent (fun l => l ++ [PutObject c]) w in
    match s3_put_fault env c with
    | Some e => (Err e, w1)
    | None =>
        (Ok tt,
         set_bucket
           (fun b => <[ (put_Bucket c, put_Key c) :=
                          {| obj_Body := put_Body c;
                             obj_ContentType := put_ContentType c |} ]> b)
           w1)
    end.

Definition send_list (c : ListObjectsV2Command) : M ListObjectsV2Output :=
  fun w =>
    await (s3_list env c) (set_sent (fun l => l ++ [ListObjectsV2 c]) w).

Definition send_get (c : GetObjectCommand) : M Body :=
  fun w =>
    await (s3_get env c) (set_sent (fun l => l ++ [GetObject c]) w).

End Primitives.

(* ===================================================================== *)
(** ** The [outdent] template tag *)
(* ===================================================================== *)

(** The behaviour of the [outdent] package with its default options, on
    the literal parts of a template: the indentation of the first line is
    removed from every line, and so are the newline that opens the template
    and the one that closes it.  Interpolated values are left as they
    are. *)
Module Outdent.

Definition is_newline (c : code_unit) : bool := ((c =? 10) || (c =? 13))%N.
Definition is_blank (c : code_unit) : bool := ((c =? 32) || (c =? 9))%N.
(** Characters the regular-expression dot does not match. *)
Definition is_terminator (c : code_unit) : bool :=
  (is_newline c || (c =? 8232) || (c =? 8233))%N.

Fixpoint count_blank (s : jsstring) : nat :=
  match s with
  | c :: t => if is_blank c then S (count_blank t) else O
  | [] => O
  end.

(** Indentation level: the blanks after the first newline of the first
    string that starts a line with visible text (or ends the string). *)
Fixpoint detectIndentation (s : jsstring) : option nat :=
  match s with
  | [] => None
  | c :: t =>
      if is_newline c then
        let n := count_blank t in
        match skipn n t with
        | [] => Some n
        | d :: _ => if is_newline d then detectIndentation t else Some n
        end
      else detectIndentation t
  end.

(** [v.replace(/(\r\n|\r|\n).{0,level}/g, "$1")]: after every newline, up
    to [level] characters of the line are dropped; [k] is how many may
    still be dropped at this point. *)
Fixpoint removeIndent (lvl k : nat) (s : jsstring) : jsstring :=
  match s with
  | [] => []
  | c :: t =>
      if is_newline c then c :: removeIndent lvl lvl t
      else if is_terminator c then c :: removeIndent lvl 0 t
      else match k with
           | O => c :: removeIndent lvl 0 t
           | S k' => removeIndent lvl k' t
           end
  end.

(** [v.replace(/^[ \t]*(?:\r\n|\r|\n)/, "")]. *)
Definition trimLeadingNewline (s : jsstring) : jsstring :=
  match skipn (count_blank s) s with
  | 13%N :: 10%N :: t => t
  | c :: t => if is_newline c then t else s
  | [] => s
  end.

(** [v.replace(/(?:\r\n|\r|\n)[ \t]*$/, "")]. *)
Definition trimTrailingNewline (s : jsstring) : jsstring :=
  let r := rev s in
  match skipn (count_blank r) r with
  | 10%N :: 13%N :: t => rev t
  | c :: t => if is_newline c then rev t else s
  | [] => s
  end.

Fixpoint mapi {A B} (f : nat -> A -> B) (i : nat) (l : list A) : list B :=
  match l with
  | [] => []
  | x :: t => f i x :: mapi f (S i) t
  end.

Definition outdentArray (strings : list jsstring) : list jsstring :=
  let lvl :=
    match strings with
    | s0 :: _ => match detectIndentation s0 with Some n => n | None => O end
    | [] => O
    end in
  let l := length strings in
  mapi (fun i v =>
          let v1 := removeIndent lvl 0 v in
          let v2 := if (i =? 0)%nat then trimLeadingNewline v1 else v1 in
          if (i =? l - 1)%nat then trimTrailingNewline v2 else v2)
       0%nat strings.

Fixpoint concatStringsAndValues (strings values : list jsstring) : jsstring :=
  match strings with
  | [] => []
  | s :: strings' =>
      match values with
      | v :: values' => s ++ v ++ concatStringsAndValues strings' values'
      | [] => s ++ concatStringsAndValues strings' []
      end
  end.

(** [outdent`...`] applied to the literal parts and the interpolated
    values of a template. *)
Definition outdent (strings values : list jsstring) : jsstring :=
  concatStringsAndValues (outdentArray strings) values.

End Outdent.

(* ===================================================================== *)
(** ** DirectoryMaker: metadata derivation (pure part) *)
(* ===================================================================== *)

Record FileMetadata := {
  sanitizedFileName : jsstring;
  sanitizedTitle : jsstring;
  awsImage : jsstring;
  download : jsstring;
}.

(** The private fields set by the constructor. *)
Record DirectoryMaker := {
  dm_prefix : jsstring;
  dm_awsLocation : jsstring;
  dm_outputBasePath : jsstring;
}.

Definition extractMetadata (this : DirectoryMaker) (filename : jsstring)
  : FileMetadata :=
  let fileNameWithoutExt :=
    trim (substring filename 0 (lastIndexOf filename Path.dot)) in
  let sanitizedFileName :=
    remove_non_slug (replace_ws (lit "-") fileNameWithoutExt) in
  let sanitizedTitle := fileNameWithoutExt in
  let awsImage :=
    dm_awsLocation this ++ (lit "/") ++ dm_prefix this ++ (lit "/images/") ++
    replace_ws (lit "+") sanitizedTitle ++ (lit ".jpeg") in
  let download :=
    dm_awsLocation this ++ (lit "/") ++ dm_prefix this ++ (lit "/documents/") ++
    replace_ws (lit "+") filename in
  {| sanitizedFileName := sanitizedFileName;
     sanitizedTitle := sanitizedTitle;
     awsImage := awsImage;
     download := download |}.

Definition nl : jsstring := [10%N].

(** The template is given by its literal parts, cut at the interpolations,
    and by the interpolated values. *)
Definition generateMarkdownContent (metadata : FileMetadata) : jsstring :=
  Outdent.outdent
    [ nl ++ lit "    ---" ++ nl ++ lit "        title: ";
      nl ++ lit "        slug: ";
      nl ++ lit "        description:" ++ nl ++ lit "        code: ";
      nl ++ lit "        image: ";
      nl ++ lit "        download: ";
      nl ++ lit "    ---" ++ nl ++ lit "    " ]
    [ sanitizedTitle metadata;
      sanitizedFileName metadata;
      sanitizedFileName metadata;
      awsImage metadata;
      download metadata ].

Section DirectoryMakerMethods.

Variable env : Env.
Variable this : DirectoryMaker.

Definition dm_ensureDirectoryExists (dirPath : jsstring) : M unit :=
  try_catch
    (mkdir env dirPath ;;
     logger_debug (lit "Ensured directory exists: " ++ dirPath))
    (fun error =>
       logger_error [("dirPath"%string, dirPath)] error
         (lit "Failed to create directory") ;;
       throw error).

Definition processFile (filename outputDir : jsstring) : M unit :=
  try_catch
    (if negb (endsWith (toLowerCase filename) (lit ".pdf")) then
       logger_debug (lit "Skipping non-PDF file: " ++ filename)
     else
       let metadata := extractMetadata this filename in
       let contents := generateMarkdownContent metadata in
       let outputPath :=
         Path.join [outputDir; sanitizedFileName metadata ++ lit ".md"] in
       writeFile env outputPath (Text contents) ;;
       logger_info (lit "Created file: " ++ outputPath))
    (fun error =>
       logger_error [("filename"%string, filename)] error
         (lit "Failed to process file: " ++ filename) ;;
       throw error).

Definition createFilesFromDirectory (stagingFolder : jsstring) : M unit :=
  try_catch
    (let outputDir :=
       Path.join [cwd env; dm_outputBasePath this; dm_prefix this] in
     dm_ensureDirectoryExists outputDir ;;
     files <- readdir env stagingFolder ;;
     let fileProcessingPromises :=
       List.map (fun filename => processFile filename outputDir) files in
     promise_all fileProcessingPromises ;;
     logger_info (lit "Successfully processed " ++ of_nat (length files) ++
                  lit " files from " ++ stagingFolder))
    (fun error =>
       logger_error [] error
         (lit "Failed to process directory: " ++ stagingFolder) ;;
       throw error).

End DirectoryMakerMethods.

(* ===================================================================== *)
(** ** S3Uploader *)
(* ===================================================================== *)

Record UploadOptions := {
  up_bucket : jsstring;
  up_region : jsstring;
  up_localPath : jsstring;
  up_defaultCategory : option jsstring;
  up_dryRun : option bool;
}.

(** Truthiness of an optional boolean ([undefined] is falsy). *)
Definition truthy_flag (b : option bool) : bool :=
  match b with Some true => true | _ => false end.

(** [x || d] for an optional string. *)
Definition string_or (x : option jsstring) (d : jsstring) : jsstring :=
  match x with
  | Some s => or_else s d
  | None => d
  end.

Fixpoint lookup_key (k : jsstring) (table : list (jsstring * jsstring))
  : option jsstring :=
  match table with
  | [] => None
  | (k', v) :: rest => if JS.eqb k k' then Some v else lookup_key k rest
  end.

Definition mimeTypes : list (jsstring * jsstring) :=
  [ (lit ".pdf", lit "application/pdf");
    (lit ".jpg", lit "image/jpeg");
    (lit ".jpeg", lit "image/jpeg");
    (lit ".png", lit "image/png");
    (lit ".gif", lit "image/gif");
    (lit ".webp", lit "image/webp") ].

Definition getMimeType (filePath : jsstring) : jsstring :=
  let ext := toLowerCase (Path.extname filePath) in
  string_or (lookup_key ext mimeTypes) (lit "application/octet-stream").

Definition getS3Key (fileName category : jsstring) : jsstring :=
  let ext := toLowerCase (Path.extname fileName) in
  let isPdf := JS.eqb ext (lit ".pdf") in
  let subfolder := if isPdf then lit "documents" else lit "images" in
  category ++ lit "/" ++ subfolder ++ lit "/" ++ fileName.

Record WalkItem := {
  fullPath : jsstring;
  relativePath : jsstring;
}.

Definition validExtensions : list jsstring :=
  [ lit ".pdf"; lit ".jpg"; lit ".jpeg"; lit ".png"; lit ".gif"; lit ".webp" ].

(** [set.has(x)]. *)
Definition has (set : list jsstring) (x : jsstring) : bool :=
  existsb (JS.eqb x) set.

Definition stat_node (n : node) : M Stats :=
  match n with
  | File => ret StFile
  | Directory _ | Unreadable _ => ret StDirectory
  | Special => ret StOther
  | Missing e => throw e
  end.

Section S3UploaderMethods.

Variable env : Env.
Variable this : UploadOptions.

Definition uploadFile (localFilePath relativeFilePath : jsstring) : M unit :=
  try_catch
    (let fileName := Path.basename localFilePath in
     let category := string_or (up_defaultCategory this) (lit "misc") in
     let s3Key := getS3Key fileName category in
     if truthy_flag (up_dryRun this) then
       logger_info (lit "[DRY RUN] Would upload: " ++ localFilePath ++
                    lit " -> s3://" ++ up_bucket this ++ lit "/" ++ s3Key)
     else
       fileContent <- readFile env localFilePath ;;
       let contentType := getMimeType localFilePath in
       let command := {| put_Bucket := up_bucket this;
                         put_Key := s3Key;
                         put_Body := fileContent;
                         put_ContentType := contentType |} in
       send_put env command ;;
       logger_info (lit "Uploaded: " ++ localFilePath ++ lit " -> s3://" ++
                    up_bucket this ++ lit "/" ++ s3Key))
    (fun error =>
       logger_error [("localFilePath"%string, localFilePath)] error
         (lit "Failed to upload " ++ localFilePath) ;;
       throw error).

(** The body of [for (const entry of entries)] in [walkDirectory]; [walk]
    stands for the recursive call on a subdirectory, whose listing and
    entries are the node it is given. *)
Fixpoint walk_entries (walk : node -> jsstring -> M (list WalkItem))
  (dirPath basePath : jsstring) (validExtensions : list jsstring)
  (entries : list (jsstring * node)) (files : list WalkItem)
  : M (list WalkItem) :=
  match entries with
  | [] => ret files
  | (entry, child) :: rest =>
      let fullPath := Path.join [dirPath; entry] in
      stats <- stat_node child ;;
      if isDirectory stats then
        subFiles <- walk child fullPath ;;
        walk_entries walk dirPath basePath validExtensions rest
          (files ++ subFiles)
      else if isFile stats then
        let ext := toLowerCase (Path.extname entry) in
        if has validExtensions ext then
          let relativePath := Path.relative (cwd env) basePath dirPath in
          walk_entries walk dirPath basePath validExtensions rest
            (files ++
             [{| fullPath := fullPath;
                 relativePath := Path.join [relativePath; entry] |}])
        else walk_entries walk dirPath basePath validExtensions rest files
      else walk_entries walk dirPath basePath validExtensions rest files
  end.

(** The walk below [dirPath], whose listing and entries are the node [n]. *)
Fixpoint walkDirectory (n : node) (dirPath basePath : jsstring)
  (validExtensions : list jsstring) {struct n} : M (list WalkItem) :=
  try_catch
    (match n with
     | Directory entries =>
         walk_entries
           (fun child fullPath =>
              walkDirectory child fullPath basePath validExtensions)
           dirPath basePath validExtensions entries []
     | Unreadable e | Missing e => throw e
     | File | Special => throw (SystemError (lit "ENOTDIR") dirPath)
     end)
    (fun error =>
       logger_error [("dirPath"%string, dirPath)] error
         (lit "Error walking directory " ++ dirPath) ;;
       throw error).

Definition uploadAll : M unit :=
  try_catch
    (logger_info (lit "Starting upload from " ++ up_localPath this ++
                  lit " to s3://" ++ up_bucket this) ;;
     (if truthy_flag (up_dryRun this)
      then logger_info (lit "DRY RUN MODE - No files will actually be uploaded")
      else ret tt) ;;
     files <- walkDirectory (fs_tree env (up_localPath this))
                (up_localPath this) (up_localPath this) validExtensions ;;
     if (length files =? 0)%nat then
       logger_info (lit "No valid files found to upload")
     else
       logger_info (lit "Found " ++ of_nat (length files) ++
                    lit " files to upload") ;;
       for_of files
         (fun file => uploadFile (fullPath file) (relativePath file)) ;;
       logger_info (lit "Upload completed successfully. Processed " ++
                    of_nat (length files) ++ lit " files."))
    (fun error =>
       logger_error [] error (lit "Error during upload process") ;;
       throw error).

End S3UploaderMethods.

(* ===================================================================== *)
(** ** S3Downloader *)
(* ===================================================================== *)

(** The constructor's argument: optional properties are [None] when
    absent. *)
Record S3DownloaderConfig := {
  dc_region : option jsstring;
  dc_bucket : jsstring;
  dc_prefix : option jsstring;
  dc_localPath : jsstring;
  dc_maxKeys : option Z;
}.

(** [this.config]. *)
Record S3Downloader := {
  region : jsstring;
  bucket : jsstring;
  prefix : jsstring;
  localPath : jsstring;
  maxKeys : Z;
}.

(** The constructor fills the defaults with [||] and then copies every
    property of its argument over them with [Object.assign]: a property that
    is given wins, falsy or not; a default stays only for an absent one.
    It then builds the S3 client for the region of the configuration, and
    the client refuses an empty region: the constructor throws. *)
Definition S3Downloader_new (config : S3DownloaderConfig)
  : result S3Downloader :=
  let this_config :=
    {| region := match dc_region config with
                 | Some r => r
                 | None => lit "us-east-1"
                 end;
       bucket := dc_bucket config;
       prefix := match dc_prefix config with Some p => p | None => [] end;
       localPath := dc_localPath config;
       maxKeys := match dc_maxKeys config with
                  | Some n => n
                  | None => 1000
                  end |} in
  if truthy (region this_config) then Ok this_config
  else Err (PlainError (lit "Region is missing")).

(** Truthiness of [string | undefined]. *)
Definition truthy_opt (s : option jsstring) : bool :=
  match s with Some s' => truthy s' | None => false end.

(** [response.Contents.forEach(({ Key }) => { if (Key) objects.push(Key) })] *)
Fixpoint pushKeys (objects : list jsstring) (contents : list (option jsstring))
  : list jsstring :=
  match contents with
  | [] => objects
  | Some Key :: rest =>
      if truthy Key then pushKeys (objects ++ [Key]) rest
      else pushKeys objects rest
  | None :: rest => pushKeys objects rest
  end.

(** [error.code]. *)
Definition error_code (e : Error) : option jsstring :=
  match e with
  | SystemError code _ => Some code
  | _ => None
  end.

Section S3DownloaderMethods.

Variable env : Env.
Variable this : S3Downloader.

(** The [do ... while (continuationToken)] loop; [fuel] bounds the number
    of round trips. *)
Fixpoint listObjects_loop (fuel : nat) (continuationToken : option jsstring)
  (objects : list jsstring) : M (list jsstring) :=
  match fuel with
  | O => out_of_fuel
  | S fuel' =>
      let command := {| list_Bucket := bucket this;
                        list_Prefix := prefix this;
                        list_ContinuationToken := continuationToken;
                        list_MaxKeys := maxKeys this |} in
      response <- send_list env command ;;
      let objects' :=
        match Contents response with
        | Some contents => pushKeys objects contents
        | None => objects
        end in
      let continuationToken' := NextContinuationToken response in
      if truthy_opt continuationToken'
      then listObjects_loop fuel' continuationToken' objects'
      else ret objects'
  end.

Definition listObjects (fuel : nat) : M (list jsstring) :=
  try_catch
    (objects <- listObjects_loop fuel None [] ;;
     logger_info (lit "Found " ++ of_nat (length objects) ++
                  lit " objects in s3://" ++ bucket this ++ lit "/" ++
                  prefix this) ;;
     ret objects)
    (fun error =>
       logger_error [] error (lit "Error listing S3 objects") ;;
       throw error).

Definition isDirectoryKey (key : jsstring) : bool := endsWith key (lit "/").

Definition dl_ensureDirectoryExists (directoryPath : jsstring) : M unit :=
  try_catch
    (mkdir env directoryPath)
    (fun error =>
       match error_code error with
       | Some code =>
           if JS.eqb code (lit "EEXIST") then ret tt else throw error
       | None => throw error
       end).

Definition downloadFile (key : jsstring) : M unit :=
  try_catch
    (if isDirectoryKey key then
       logger_debug (lit "Skipping directory: " ++ key)
     else
       let filePath := Path.join [localPath this; key] in
       dl_ensureDirectoryExists (Path.dirname filePath) ;;
       logger_info (lit "Downloading " ++ key ++ lit " to " ++ filePath) ;;
       let command := {| get_Bucket := bucket this; get_Key := key |} in
       response <- send_get env command ;;
       match response with
       | Readable chunks =>
           writeFile env filePath (Bytes (List.concat chunks)) ;;
           logger_info (lit "Successfully downloaded " ++ key)
       | NotReadable => throw (PlainError (lit "Unexpected response body type"))
       end)
    (fun error =>
       logger_error [("key"%string, key)] error (lit "Error downloading file") ;;
       throw error).

Definition batchSize : nat := 5.

(** [for (let i = 0; i < objects.length; i += batchSize)]: [steps] bounds
    the iterations; the loop needs at most [objects.length] of them. *)
Fixpoint download_batches (steps i : nat) (objects : list jsstring) : M unit :=
  match steps with
  | O => ret tt
  | S steps' =>
      if (i <? length objects)%nat then
        let batch := firstn batchSize (skipn i objects) in
        promise_all (List.map (fun key => downloadFile key) batch) ;;
        download_batches steps' (i + batchSize) objects
      else ret tt
  end.

Definition downloadAll (fuel : nat) : M unit :=
  try_catch
    (objects <- listObjects fuel ;;
     if (length objects =? 0)%nat then
       logger_warn (lit "No files found to download")
     else
       logger_info (lit "Starting download of " ++ of_nat (length objects) ++
                    lit " files...") ;;
       download_batches (length objects) 0 objects ;;
       logger_info (lit "Download completed successfully"))
    (fun error =>
       logger_error [] error (lit "Error during download process") ;;
       throw error).

End S3DownloaderMethods.

(* ===================================================================== *)
(** ** ImagePreviewMaker *)
(* ===================================================================== *)

Record ConversionOptions := {
  density : Z;
  format : jsstring;
  width : Z;
  height : option Z;
  preserveAspectRatio : bool;
  page : option Z;
}.

Record ImagePreviewMaker := {
  source : jsstring;
  output : jsstring;
  defaultOptions : ConversionOptions;
}.

Section ImagePreviewMakerMethods.

Variable env : Env.
Variable this : ImagePreviewMaker.

Definition ensureOutputDirectoryExists : M unit :=
  directoryExists <- exists_ (output this) ;;
  if negb directoryExists then
    logger_debug (lit "Creating output directory: " ++ output this) ;;
    mkdir env (output this)
  else ret tt.

(** The name under which the converter of pdf2pic stores page 1:
    [path.join(savePath, saveFilename)] followed by [".1."] and the format.
    The page number and the format are appended to the joined path, which
    [path.join] has normalized: with the file name [.] or [..] the joined
    path is [savePath] itself or its parent, and the stored file is not in
    [savePath]. *)
Definition storedFile (saveFilename savePath : jsstring) : jsstring :=
  Path.join [savePath; saveFilename] ++ lit ".1." ++
  format (defaultOptions this).

(** The path the converter reports: it puts ["./"] back in front of the
    name when [savePath] starts with it. *)
Definition storedPath (saveFilename savePath : jsstring) : jsstring :=
  (if startsWith savePath (lit "./") then lit "./" else []) ++
  storedFile saveFilename savePath.

(** [fromPath(filePath, { ...options, saveFilename, savePath })(1)]: the
    converter renders page 1, stores it and returns the path it reports.
    The file is recorded under [storedFile], which is the same file as
    [storedPath] and is written as [path.join] writes its results. *)
Definition storeAsImage (filePath saveFilename savePath : jsstring)
  : M jsstring :=
  fun w =>
    match pdf2pic env filePath with
    | Fulfilled image =>
        (Ok (storedPath saveFilename savePath),
         set_files
           (fun m => <[ storedFile saveFilename savePath := Bytes image ]> m)
           w)
    | Rejected e => (Err e, w)
    end.

Definition convertPdfToImage (filePath outputFilePath baseName : jsstring)
  : M unit :=
  result_path <- storeAsImage filePath baseName (output this) ;;
  logger_info (lit "Converted " ++ Path.basename filePath ++ lit " to " ++
               format (defaultOptions this) ++ lit " successfully") ;;
  logger_debug (lit "Image saved at: " ++ result_path) ;;
  let tempFilePath :=
    Path.join [output this;
               baseName ++ lit ".1." ++ format (defaultOptions this)] in
  rename env tempFilePath outputFilePath.

Definition isPdfName (file : jsstring) : bool :=
  JS.eqb (toLowerCase (Path.extname file)) (lit ".pdf").

Definition convertOne (file : jsstring) : M unit :=
  try_catch
    (let filePath := Path.join [source this; file] in
     let baseName := Path.basename_suffix file (lit ".pdf") in
     let outputFilePath :=
       Path.join [output this;
                  baseName ++ lit "." ++ format (defaultOptions this)] in
     logger_info (lit "Converting " ++ file ++ lit " to " ++
                  format (defaultOptions this)) ;;
     convertPdfToImage filePath outputFilePath baseName)
    (fun error =>
       logger_error [("file"%string, file)] error
         (lit "Error converting " ++ file)).

Definition createPreviews : M unit :=
  try_catch
    (ensureOutputDirectoryExists ;;
     files <- readdir env (source this) ;;
     let pdfFiles := List.filter isPdfName files in
     if (length pdfFiles =? 0)%nat then
       logger_info (lit "No PDF files found in source directory")
     else
       logger_info (lit "Found " ++ of_nat (length pdfFiles) ++
                    lit " PDF files to convert") ;;
       for_of pdfFiles convertOne ;;
       logger_info (lit "PDF conversion process completed"))
    (fun error =>
       logger_error [] error (lit "Error in createPreviews") ;;
       throw error).

End ImagePreviewMakerMethods.

(* ===================================================================== *)
(** ** The specification's wording of the identifier derivation *)
(* ===================================================================== *)

(** The text before the last occurrence of [c], when there is one. *)
Fixpoint beforeLast (c : code_unit) (s : jsstring) : option jsstring :=
  match s with
  | [] => None
  | x :: t =>
      match beforeLast c t with
      | Some r => Some (x :: r)
      | None => if N.eqb x c then Some [] else None
      end
  end.

(** "Strip the extension (text after the final '.')": the extension goes
    with its dot; a name without a dot has none. *)
Definition spec_stripExtension (filename : jsstring) : jsstring :=
  match beforeLast Path.dot filename with
  | Some r => r
  | None => filename
  end.

Definition space : code_unit := 32%N.
Definition plus : code_unit := 43%N.
Definition hyphen : code_unit := 45%N.

(** "Trimming": [t] is what is left of [s] when the whitespace at its two
    ends is taken away: [s] is [t] between two stretches of whitespace, and
    [t] neither begins nor ends with whitespace. *)
Definition spec_trimmed (s t : jsstring) : Prop :=
  exists l r,
    s = l ++ t ++ r /\
    Forall (fun c => is_whitespace c = true) l /\
    Forall (fun c => is_whitespace c = true) r /\
    (forall c u, t = c :: u -> is_whitespace c = false) /\
    (forall u c, t = u ++ [c] -> is_whitespace c = false).

(** "Replacing each run of whitespace with a single hyphen": [r] is [s]
    with every maximal run of whitespace replaced by one '-', all other
    characters kept. *)
Inductive spec_hyphenated : jsstring -> jsstring -> Prop :=
| spec_hyphenated_nil : spec_hyphenated [] []
| spec_hyphenated_unit c s r :
    is_whitespace c = false ->
    spec_hyphenated s r ->
    spec_hyphenated (c :: s) (c :: r)
| spec_hyphenated_run run s r :
    run <> [] ->
    Forall (fun c => is_whitespace c = true) run ->
    match s with c :: _ => is_whitespace c = false | [] => True end ->
    spec_hyphenated s r ->
    spec_hyphenated (run ++ s) (hyphen :: r).

(** The characters of "[A-Za-z0-9-]", one by one. *)
Definition spec_slug_alphabet : jsstring :=
  lit "ABCDEFGHIJKLMNOPQRSTUVWXYZabcdefghijklmnopqrstuvwxyz0123456789-".

(** "Deleting every character outside" [keep]: [r] is [s] without the
    characters that are not in [keep], the others in their order. *)
Inductive spec_deleted_outside (keep : jsstring)
  : jsstring -> jsstring -> Prop :=
| spec_deleted_nil : spec_deleted_outside keep [] []
| spec_deleted_keep c s r :
    In c keep ->
    spec_deleted_outside keep s r ->
    spec_deleted_outside keep (c :: s) (c :: r)
| spec_deleted_drop c s r :
    ~ In c keep ->
    spec_deleted_outside keep s r ->
    spec_deleted_outside keep (c :: s) r.

(** "Stripping the text after the final '.', trimming, replacing each run
    of whitespace with a single hyphen, then deleting every character
    outside [A-Za-z0-9-]": [slug] is obtained from [filename] in these four
    steps.  The final '.' is the one with no '.' after it; it goes with
    the text after it. *)
Definition spec_slug (filename slug : jsstring) : Prop :=
  exists stem ext title hyphenated,
    filename = stem ++ Path.dot :: ext /\ ~ In Path.dot ext /\
    spec_trimmed stem title /\
    spec_hyphenated title hyphenated /\
    spec_deleted_outside spec_slug_alphabet hyphenated slug.

(** "Spaces substituted by '+'", character by character. *)
Definition spec_spacesAsPlus (s : jsstring) : jsstring :=
  List.map (fun c => if N.eqb c space then plus else c) s.

Definition spec_awsImage (this : DirectoryMaker) (filename : jsstring)
  : jsstring :=
  dm_awsLocation this ++ lit "/" ++ dm_prefix this ++ lit "/images/" ++
  spec_spacesAsPlus (trim (spec_stripExtension filename)) ++ lit ".jpeg".

Definition spec_download (this : DirectoryMaker) (filename : jsstring)
  : jsstring :=
  dm_awsLocation this ++ lit "/" ++ dm_prefix this ++ lit "/documents/" ++
  spec_spacesAsPlus filename.

(** [PlusEncoded s r]: [r] is [s] with every maximal run of whitespace
    replaced by one '+' and every other character kept. *)
Inductive PlusEncoded : jsstring -> jsstring -> Prop :=
| PlusEncoded_nil : PlusEncoded [] []
| PlusEncoded_unit c s r :
    is_whitespace c = false ->
    PlusEncoded s r ->
    PlusEncoded (c :: s) (c :: r)
| PlusEncoded_run run s r :
    run <> [] ->
    Forall (fun c => is_whitespace c = true) run ->
    match s with c :: _ => is_whitespace c = false | [] => True end ->
    PlusEncoded s r ->
    PlusEncoded (run ++ s) (plus :: r).

(** Every whitespace character is a space and stands alone. *)
Fixpoint single_spaced_from (prev_ws : bool) (s : jsstring) : bool :=
  match s with
  | [] => true
  | c :: t =>
      if is_whitespace c
      then N.eqb c space && negb prev_ws && single_spaced_from true t
      else single_spaced_from false t
  end.

Definition single_spaced (s : jsstring) : bool := single_spaced_from false s.

(* ===================================================================== *)
(** ** Concrete inputs *)
(* ===================================================================== *)

Definition mini : DirectoryMaker :=
  {| dm_prefix := lit "mini";
     dm_awsLocation := lit "https://bucket.s3.amazonaws.com";
     dm_outputBasePath := lit "content/archive" |}.

Definition no_entry (p : jsstring) : Error := SystemError (lit "ENOENT") p.

(** An environment in which nothing fails: the working directory is
    [/repo], the file system is [tree], every file reads as [content] says,
    and the S3 service accepts every object. *)
Definition calm_env (tree : jsstring -> node)
  (content : jsstring -> outcome Buffer) : Env :=
  {| cwd := lit "/repo";
     fs_tree := tree;
     fs_readFile := content;
     fs_fault := fun _ => None;
     pdf2pic := fun p => Fulfilled p;
     s3_put_fault := fun _ => None;
     s3_list := fun _ => Rejected (ServiceError (lit "NoSuchBucket"));
     s3_get := fun _ => Rejected (ServiceError (lit "NoSuchKey")) |}.

(** A staging folder [./pdfs] with the given entries. *)
Definition staging (entries : list (jsstring * node)) (p : jsstring) : node :=
  if JS.eqb p (lit "./pdfs") then Directory entries else Missing (no_entry p).

Definition readable (p : jsstring) : outcome Buffer := Fulfilled p.

(** A source tree with a file of the same name in two subdirectories. *)
Definition two_folders : jsstring -> node :=
  staging
    [ (lit "a", Directory [(lit "x.pdf", File); (lit "c.PNG", File)]);
      (lit "b", Directory [(lit "x.pdf", File)]);
      (lit "notes.txt", File) ].

Definition two_folders_files : list WalkItem :=
  [ {| fullPath := lit "pdfs/a/x.pdf"; relativePath := lit "a/x.pdf" |};
    {| fullPath := lit "pdfs/a/c.PNG"; relativePath := lit "a/c.PNG" |};
    {| fullPath := lit "pdfs/b/x.pdf"; relativePath := lit "b/x.pdf" |} ].

Definition uploader : UploadOptions :=
  {| up_bucket := lit "cmdiy-archive";
     up_region := lit "us-east-1";
     up_localPath := lit "./pdfs";
     up_defaultCategory := Some (lit "misc");
     up_dryRun := Some false |}.


(** Three PDF files; whatever concerns [b.pdf] fails: its conversion, the
    writing of its record, the fetching of the object [b.pdf]. *)
Definition three_pdfs : list (jsstring * node) :=
  [ (lit "a.pdf", File); (lit "b.pdf", File); (lit "c.pdf", File) ].

Definition b_fails_env : Env :=
  {| cwd := lit "/repo";
     fs_tree := fun p => if JS.eqb p (lit "./pdfs") then Directory three_pdfs
                         else Missing (no_entry p);
     fs_readFile := fun p => Fulfilled p;
     fs_fault := fun op =>
       match op with
       | OpWriteFile p =>
           if JS.eqb p (lit "/repo/content/archive/mini/b.md")
           then Some (SystemError (lit "EACCES") p) else None
       | _ => None
       end;
     pdf2pic := fun p =>
       if JS.eqb p (lit "pdfs/b.pdf")
       then Rejected (PlainError (lit "conversion failed"))
       else Fulfilled p;
     s3_put_fault := fun _ => None;
     s3_list := fun _ =>
       Fulfilled
         {| Contents :=
              Some (List.map (fun i => Some (lit "k" ++ of_nat i)) (seq 0 12));
            NextContinuationToken := None |};
     s3_get := fun c =>
       if JS.eqb (get_Key c) (lit "k6")
       then Rejected (ServiceError (lit "NoSuchKey"))
       else Fulfilled (Readable [get_Key c]) |}.

Definition previewer : ImagePreviewMaker :=
  {| source := lit "./pdfs";
     output := lit "./out";
     defaultOptions :=
       {| density := 100; format := lit "jpeg"; width := 1024;
          height := None; preserveAspectRatio := true; page := None |} |}.

(** Every file reads as its own path, except [pdfs/b/x.pdf], which cannot
    be read. *)
Definition one_unreadable (p : jsstring) : outcome Buffer :=
  if JS.eqb p (lit "pdfs/b/x.pdf")
  then Rejected (SystemError (lit "EACCES") p)
  else Fulfilled p.

(* ===================================================================== *)
(** ** Facts about strings *)
(* ===================================================================== *)

Lemma in_skipn_in {A} (n : nat) (l : list A) (x : A) :
  In x (skipn n l) -> In x l.
Proof.
  revert l; induction n as [|n IH]; intros [|y l]; simpl; try tauto.
  intros H. right. apply IH. exact H.
Qed.

Lemma in_firstn_in {A} (n : nat) (l : list A) (x : A) :
  In x (firstn n l) -> In x l.
Proof.
  revert l; induction n as [|n IH]; intros [|y l]; simpl; try tauto.
  intros [H|H]; auto.
Qed.

Lemma eqb_eq (a b : jsstring) : JS.eqb a b = true <-> a = b.
Proof.
  revert b; induction a as [|x a IH]; intros [|y b]; simpl;
    try (split; [discriminate | congruence]); try tauto.
  rewrite andb_true_iff, N.eqb_eq, IH. split.
  - intros [-> ->]; reflexivity.
  - intros [= -> ->]; auto.
Qed.

Lemma eqb_refl (a : jsstring) : JS.eqb a a = true.
Proof. apply eqb_eq; reflexivity. Qed.

Lemma eqb_neq (a b : jsstring) : JS.eqb a b = false <-> a <> b.
Proof.
  rewrite <- eqb_eq. destruct (JS.eqb a b); split; congruence.
Qed.

Lemma beforeLast_Some c s r :
  beforeLast c s = Some r -> exists rest, s = r ++ c :: rest.
Proof.
  revert r; induction s as [|x t IH]; simpl; intros r; [discriminate|].
  destruct (beforeLast c t) as [r'|] eqn:E.
  - intros [= <-]. destruct (IH r' eq_refl) as [rest ->].
    exists rest; reflexivity.
  - destruct (N.eqb x c) eqn:Ex; [|discriminate].
    intros [= <-]. apply N.eqb_eq in Ex; subst x. exists t; reflexivity.
Qed.

Lemma beforeLast_None c s : beforeLast c s = None -> ~ In c s.
Proof.
  induction s as [|x t IH]; simpl; [tauto|].
  destruct (beforeLast c t); [discriminate|].
  destruct (N.eqb x c) eqn:Ex; [discriminate|].
  apply N.eqb_neq in Ex. intros _ [H|H]; [congruence | now apply IH].
Qed.

Lemma lastIndexOf_from_spec c s i found :
  lastIndexOf_from c s i found =
  match beforeLast c s with
  | Some r => i + Z.of_nat (length r)
  | None => found
  end.
Proof.
  revert i found; induction s as [|x t IH]; intros i found; simpl;
    [reflexivity|].
  rewrite IH. destruct (beforeLast c t) as [r|]; simpl length.
  - lia.
  - destruct (N.eqb x c); simpl; lia.
Qed.

Lemma substring_prefix (s : jsstring) (k : nat) :
  (k <= length s)%nat -> substring s 0 (Z.of_nat k) = firstn k s.
Proof.
  intros Hk. unfold substring.
  rewrite Z.max_id, Z.min_l by lia.
  rewrite (Z.max_l (Z.of_nat k)) by lia.
  rewrite (Z.min_l (Z.of_nat k)) by lia.
  rewrite Z.min_l, Z.max_r by lia.
  rewrite Z.sub_0_r, Nat2Z.id. reflexivity.
Qed.

(** On a name with a dot, the code's [substring(0, lastIndexOf('.'))] is
    the specification's extension stripping. *)
Lemma substring_lastIndexOf (filename : jsstring) :
  In Path.dot filename ->
  substring filename 0 (lastIndexOf filename Path.dot) =
  spec_stripExtension filename.
Proof.
  intros Hin. unfold lastIndexOf, spec_stripExtension.
  rewrite lastIndexOf_from_spec.
  destruct (beforeLast Path.dot filename) as [r|] eqn:E.
  - destruct (beforeLast_Some _ _ _ E) as [rest ->].
    rewrite Z.add_0_l, substring_prefix
      by (rewrite length_app; lia).
    rewrite firstn_app, Nat.sub_diag, firstn_all, app_nil_r. reflexivity.
  - exfalso. exact (beforeLast_None _ _ E Hin).
Qed.

Lemma remove_non_slug_class (s : jsstring) :
  Forall (fun c => is_slug_unit c = true) (remove_non_slug s).
Proof.
  apply List.Forall_forall. intros c Hc.
  apply List.filter_In in Hc. tauto.
Qed.

(** *** Whitespace runs *)

Lemma trimStart_split (s : jsstring) :
  exists run,
    s = run ++ trimStart s /\
    Forall (fun c => is_whitespace c = true) run /\
    match trimStart s with
    | c :: _ => is_whitespace c = false
    | [] => True
    end.
Proof.
  induction s as [|c t (run & Hs & Hrun & Hhd)]; simpl.
  - exists []; auto.
  - destruct (is_whitespace c) eqn:Ec.
    + exists (c :: run). repeat split; auto.
      simpl; congruence.
    + exists []. repeat split; auto.
Qed.

Lemma trimStart_length (s : jsstring) :
  (length (trimStart s) <= length s)%nat.
Proof.
  induction s as [|c t IH]; simpl; [lia|].
  destruct (is_whitespace c); simpl; lia.
Qed.

Lemma replace_ws_in_run (by_ s : jsstring) :
  replace_ws_from by_ true s = replace_ws_from by_ false (trimStart s).
Proof.
  induction s as [|c t IH]; simpl; [reflexivity|].
  destruct (is_whitespace c) eqn:Ec; simpl.
  - exact IH.
  - rewrite Ec. reflexivity.
Qed.

Lemma replace_ws_PlusEncoded (s : jsstring) :
  PlusEncoded s (replace_ws (lit "+") s).
Proof.
  unfold replace_ws.
  remember (length s) as n eqn:Hn.
  assert (Hle : (length s <= n)%nat) by lia. clear Hn.
  revert s Hle; induction n as [|n IH]; intros [|c t] Hle; simpl in *;
    try constructor; try lia.
  destruct (is_whitespace c) eqn:Ec.
  - rewrite replace_ws_in_run.
    destruct (trimStart_split t) as (run & Ht & Hrun & Hhd).
    change (lit "+" ++ ?x) with (plus :: x).
    rewrite Ht at 1.
    change (c :: run ++ trimStart t) with ((c :: run) ++ trimStart t).
    apply PlusEncoded_run; auto; try discriminate.
    apply IH. pose proof (trimStart_length t). lia.
  - apply PlusEncoded_unit; auto. apply IH. lia.
Qed.

Lemma replace_ws_single_spaced (b : bool) (s : jsstring) :
  single_spaced_from b s = true ->
  replace_ws_from (lit "+") b s = spec_spacesAsPlus s.
Proof.
  revert b; induction s as [|c t IH]; intros b; simpl; [reflexivity|].
  destruct (is_whitespace c) eqn:Ec.
  - rewrite !andb_true_iff. intros [[Hc Hb] Ht].
    apply negb_true_iff in Hb; subst b.
    rewrite Hc, (IH _ Ht). reflexivity.
  - intros Ht. rewrite (IH _ Ht).
    destruct (N.eqb c space) eqn:Hc; [|reflexivity].
    apply N.eqb_eq in Hc; subst c. discriminate.
Qed.

(* ===================================================================== *)
(** ** Identifier derivation *)
(* ===================================================================== *)

Lemma lower_unit_dot (c : code_unit) : lower_unit c = Path.dot -> c = Path.dot.
Proof.
  unfold lower_unit, Path.dot.
  destruct ((65 <=? c) && (c <=? 90))%N eqn:E; [|auto].
  apply andb_true_iff in E. destruct E as [E1 E2].
  apply N.leb_le in E1. lia.
Qed.

(** Every file name that [processFile] does not skip has a dot. *)
Lemma pdf_name_has_dot (filename : jsstring) :
  endsWith (toLowerCase filename) (lit ".pdf") = true ->
  In Path.dot filename.
Proof.
  unfold endsWith, toLowerCase. rewrite andb_true_iff, eqb_eq.
  intros [_ H].
  set (k := (length (List.map lower_unit filename) - length (lit ".pdf"))%nat)
    in H.
  rewrite List.skipn_map in H.
  apply (in_skipn_in k).
  destruct (skipn k filename) as [|c rest]; [discriminate|].
  injection H as Hc _. left. apply lower_unit_dot. exact Hc.
Qed.

(** *** The four steps of the slug *)

Lemma beforeLast_absent c s : ~ In c s -> beforeLast c s = None.
Proof.
  intros Hn. destruct (beforeLast c s) as [r|] eqn:E; [|reflexivity].
  apply beforeLast_Some in E. destruct E as [rest ->].
  exfalso. apply Hn. apply in_or_app. right. left. reflexivity.
Qed.

Lemma beforeLast_app c s ext :
  ~ In c ext -> beforeLast c (s ++ c :: ext) = Some s.
Proof.
  intros Hn. induction s as [|x s IH]; simpl.
  - rewrite (beforeLast_absent c ext Hn), N.eqb_refl. reflexivity.
  - rewrite IH. reflexivity.
Qed.

(** What [beforeLast] cuts off has no [c]. *)
Lemma beforeLast_last c s r :
  beforeLast c s = Some r -> exists rest, s = r ++ c :: rest /\ ~ In c rest.
Proof.
  revert r; induction s as [|x t IH]; simpl; intros r; [discriminate|].
  destruct (beforeLast c t) as [r'|] eqn:E.
  - intros [= <-]. destruct (IH r' eq_refl) as (rest & -> & Hrest).
    exists rest. split; [reflexivity | exact Hrest].
  - destruct (N.eqb x c) eqn:Ex; [|discriminate].
    intros [= <-]. apply N.eqb_eq in Ex; subst x. exists t.
    split; [reflexivity | exact (beforeLast_None _ _ E)].
Qed.

Lemma trimStart_ws_app (l s : jsstring) :
  Forall (fun c => is_whitespace c = true) l ->
  trimStart (l ++ s) = trimStart s.
Proof.
  induction 1 as [|c l Hc _ IH]; simpl; [reflexivity|].
  rewrite Hc. exact IH.
Qed.

Lemma trimStart_ws (l : jsstring) :
  Forall (fun c => is_whitespace c = true) l -> trimStart l = [].
Proof.
  intros H. rewrite <- (app_nil_r l), (trimStart_ws_app _ _ H). reflexivity.
Qed.

Lemma trimStart_head (s : jsstring) :
  match s with c :: _ => is_whitespace c = false | [] => True end ->
  trimStart s = s.
Proof.
  destruct s as [|c u]; simpl; [reflexivity|]. intros ->. reflexivity.
Qed.

(** [trim] trims as the specification says. *)
Lemma trim_spec_trimmed (s : jsstring) : spec_trimmed s (trim s).
Proof.
  destruct (trimStart_split s) as (l & Hs & Hl & Hhd).
  destruct (trimStart_split (rev (trimStart s))) as (r & Hr & Hrws & Hlast).
  exists l, (rev r). unfold trim, trimEnd.
  set (t := trimStart (rev (trimStart s))) in *.
  assert (Ht1 : trimStart s = rev t ++ rev r).
  { rewrite <- rev_app_distr, <- Hr, rev_involutive. reflexivity. }
  split; [rewrite <- Ht1; exact Hs|].
  split; [exact Hl|]. split; [apply List.Forall_rev; exact Hrws|].
  split.
  - intros c u Hc. rewrite Ht1, Hc in Hhd. exact Hhd.
  - intros u c Hc.
    assert (Ht : t = c :: rev u).
    { rewrite <- (rev_involutive t), Hc, rev_app_distr. reflexivity. }
    rewrite Ht in Hlast. exact Hlast.
Qed.

(** There is one way to trim. *)
Lemma spec_trimmed_trim (s t : jsstring) : spec_trimmed s t -> t = trim s.
Proof.
  intros (l & r & -> & Hl & Hr & Hhd & Hlast).
  unfold trim, trimEnd. rewrite (trimStart_ws_app _ _ Hl).
  destruct t as [|c u].
  - simpl. rewrite (trimStart_ws r Hr). reflexivity.
  - assert (H1 : trimStart ((c :: u) ++ r) = (c :: u) ++ r).
    { simpl. rewrite (Hhd c u eq_refl). reflexivity. }
    rewrite H1, rev_app_distr.
    rewrite trimStart_ws_app by (apply List.Forall_rev; exact Hr).
    rewrite trimStart_head; [rewrite rev_involutive; reflexivity|].
    destruct (rev (c :: u)) as [|c' u'] eqn:Hrev; [exact I|].
    apply (Hlast (rev u') c').
    rewrite <- (rev_involutive (c :: u)), Hrev. reflexivity.
Qed.

(** [replace(/\s+/g, '-')] replaces the runs as the specification says. *)
Lemma replace_ws_spec_hyphenated (s : jsstring) :
  spec_hyphenated s (replace_ws (lit "-") s).
Proof.
  unfold replace_ws.
  remember (length s) as n eqn:Hn.
  assert (Hle : (length s <= n)%nat) by lia. clear Hn.
  revert s Hle; induction n as [|n IH]; intros [|c t] Hle; simpl in *;
    try constructor; try lia.
  destruct (is_whitespace c) eqn:Ec.
  - rewrite replace_ws_in_run.
    destruct (trimStart_split t) as (run & Ht & Hrun & Hhd).
    change (lit "-" ++ ?x) with (hyphen :: x).
    rewrite Ht at 1.
    change (c :: run ++ trimStart t) with ((c :: run) ++ trimStart t).
    apply spec_hyphenated_run; auto; try discriminate.
    apply IH. pose proof (trimStart_length t). lia.
  - apply spec_hyphenated_unit; auto. apply IH. lia.
Qed.

(** There is one way to replace them. *)
Lemma spec_hyphenated_replace_ws (s r : jsstring) :
  spec_hyphenated s r -> r = replace_ws (lit "-") s.
Proof.
  unfold replace_ws.
  induction 1 as [|c s r Hc _ IH | run s r Hne Hrun Hhd _ IH].
  - reflexivity.
  - simpl. rewrite Hc, IH. reflexivity.
  - destruct run as [|c run]; [congruence|].
    apply List.Forall_cons_iff in Hrun. destruct Hrun as [Hc Hrun'].
    simpl. rewrite Hc, replace_ws_in_run, (trimStart_ws_app _ _ Hrun'),
      (trimStart_head _ Hhd), <- IH.
    reflexivity.
Qed.

Lemma is_slug_unit_bound (c : code_unit) :
  is_slug_unit c = true -> (c < 123)%N.
Proof.
  unfold is_slug_unit.
  rewrite ?orb_true_iff, ?andb_true_iff, ?N.leb_le, ?N.eqb_eq. lia.
Qed.

(** The class [a-zA-Z0-9-] of the pattern has the characters of
    "[A-Za-z0-9-]" and no other. *)
Lemma slug_alphabet_class (c : code_unit) :
  is_slug_unit c = true <-> In c spec_slug_alphabet.
Proof.
  split.
  - intros Hc.
    assert (Hall : forallb
                     (fun n => implb (is_slug_unit n)
                                 (existsb (N.eqb n) spec_slug_alphabet))
                     (List.map N.of_nat (seq 0 123)) = true)
      by (vm_compute; reflexivity).
    rewrite forallb_forall in Hall.
    assert (Hin : In c (List.map N.of_nat (seq 0 123))).
    { rewrite <- (N2Nat.id c). apply List.in_map, in_seq.
      pose proof (is_slug_unit_bound c Hc). lia. }
    specialize (Hall c Hin). rewrite Hc in Hall. cbn [implb] in Hall.
    apply existsb_exists in Hall. destruct Hall as (x & Hx & Heq).
    apply N.eqb_eq in Heq. subst x. exact Hx.
  - intros Hin.
    assert (Hall : forallb is_slug_unit spec_slug_alphabet = true)
      by (vm_compute; reflexivity).
    rewrite forallb_forall in Hall. exact (Hall c Hin).
Qed.

(** [replace(/[^a-zA-Z0-9-]/g, '')] deletes as the specification says. *)
Lemma remove_non_slug_spec_deleted (s : jsstring) :
  spec_deleted_outside spec_slug_alphabet s (remove_non_slug s).
Proof.
  unfold remove_non_slug. induction s as [|c s IH]; simpl; [constructor|].
  destruct (is_slug_unit c) eqn:Ec.
  - apply spec_deleted_keep; [apply slug_alphabet_class, Ec | exact IH].
  - apply spec_deleted_drop; [|exact IH].
    intros Hin. apply slug_alphabet_class in Hin. congruence.
Qed.

(** There is one way to delete. *)
Lemma spec_deleted_remove_non_slug (s r : jsstring) :
  spec_deleted_outside spec_slug_alphabet s r -> r = remove_non_slug s.
Proof.
  unfold remove_non_slug.
  induction 1 as [|c s r Hc _ IH | c s r Hc _ IH]; simpl.
  - reflexivity.
  - apply slug_alphabet_class in Hc. rewrite Hc, IH. reflexivity.
  - destruct (is_slug_unit c) eqn:Ec; [|exact IH].
    exfalso. apply Hc, slug_alphabet_class, Ec.
Qed.

(** C3.  For every file name with a dot (every name [processFile] accepts
    ends in '.pdf'), the slug of [extractMetadata] is what the four steps
    of the specification give, and nothing else is: strip the text after
    the final '.', trim, replace each run of whitespace with one hyphen,
    delete every character outside [A-Za-z0-9-].  The slug only has
    characters of that class; "ADK 1152 v2.pdf" gives "ADK-1152-v2", and a
    name with whitespace at both ends of its stem, a run of three spaces, a
    tab and brackets gives "Mini-Cooper-1967-v2". *)
Theorem sanitizedFileName_spec (this : DirectoryMaker) (filename : jsstring) :
  In Path.dot filename ->
  (forall slug,
     spec_slug filename slug <->
     slug = sanitizedFileName (extractMetadata this filename)) /\
  Forall (fun c => In c spec_slug_alphabet)
    (sanitizedFileName (extractMetadata this filename)) /\
  sanitizedFileName (extractMetadata this (lit "ADK 1152 v2.pdf")) =
    lit "ADK-1152-v2" /\
  sanitizedFileName
    (extractMetadata this
       (lit "  Mini   Cooper" ++ [9%N] ++ lit "(1967) .v2 .pdf")) =
    lit "Mini-Cooper-1967-v2".
Proof.
  intros Hdot.
  assert (Hslug : sanitizedFileName (extractMetadata this filename) =
                  remove_non_slug
                    (replace_ws (lit "-")
                       (trim (spec_stripExtension filename)))).
  { unfold extractMetadata; cbn [sanitizedFileName].
    rewrite (substring_lastIndexOf _ Hdot). reflexivity. }
  split; [|split; [|split]].
  - intros slug. rewrite Hslug. unfold spec_stripExtension. split.
    + intros (stem & ext & title & hyphenated & -> & Hext & Htrim & Hhyp &
              Hdel).
      rewrite (beforeLast_app _ _ _ Hext).
      rewrite <- (spec_trimmed_trim _ _ Htrim).
      rewrite <- (spec_hyphenated_replace_ws _ _ Hhyp).
      exact (spec_deleted_remove_non_slug _ _ Hdel).
    + intros ->.
      destruct (beforeLast Path.dot filename) as [stem|] eqn:E;
        [|exfalso; exact (beforeLast_None _ _ E Hdot)].
      destruct (beforeLast_last _ _ _ E) as (ext & Hfile & Hext).
      exists stem, ext, (trim stem), (replace_ws (lit "-") (trim stem)).
      split; [exact Hfile|]. split; [exact Hext|].
      split; [apply trim_spec_trimmed|].
      split; [apply replace_ws_spec_hyphenated|].
      apply remove_non_slug_spec_deleted.
  - rewrite Hslug. apply List.Forall_forall. intros c Hc.
    apply slug_alphabet_class.
    pose proof (remove_non_slug_class
                  (replace_ws (lit "-") (trim (spec_stripExtension filename))))
      as Hclass.
    rewrite List.Forall_forall in Hclass. exact (Hclass c Hc).
  - vm_compute. reflexivity.
  - vm_compute. reflexivity.
Qed.

Lemma sanitizedFileName_spec_witness :
  In Path.dot (lit "  Mini   Cooper" ++ [9%N] ++ lit "(1967) .v2 .pdf") /\
  spec_slug (lit "  Mini   Cooper" ++ [9%N] ++ lit "(1967) .v2 .pdf")
    (lit "Mini-Cooper-1967-v2") /\
  spec_slug (lit "ADK 1152 v2.pdf") (lit "ADK-1152-v2").
Proof.
  assert (H : In Path.dot
                (lit "  Mini   Cooper" ++ [9%N] ++ lit "(1967) .v2 .pdf")).
  { vm_compute. do 23 right. left. reflexivity. }
  assert (H' : In Path.dot (lit "ADK 1152 v2.pdf")).
  { vm_compute. do 11 right. left. reflexivity. }
  split; [exact H|]. split.
  - apply (proj1 (sanitizedFileName_spec mini _ H)).
    vm_compute. reflexivity.
  - apply (proj1 (sanitizedFileName_spec mini _ H')).
    vm_compute. reflexivity.
Defined.

(** C4, as claimed, fails: a run of two spaces becomes one '+', and a tab
    is substituted although it is not a space. *)
Lemma remote_urls_counterexample :
  download (extractMetadata mini (lit "A  B.pdf")) <>
    spec_download mini (lit "A  B.pdf") /\
  awsImage (extractMetadata mini (lit "A" ++ [9%N] ++ lit "B.pdf")) <>
    spec_awsImage mini (lit "A" ++ [9%N] ++ lit "B.pdf").
Proof.
  split; intros H; apply eqb_eq in H; vm_compute in H; discriminate.
Qed.

(** C4, amended.  The image URL is
    [{baseUrl}/{prefix}/images/{title'}.jpeg] and the download URL is
    [{baseUrl}/{prefix}/documents/{filename'}], where [title'] and
    [filename'] are the title and the original file name with every maximal
    run of whitespace replaced by one '+' and every other character passed
    through unescaped; title "ADK 1152" gives [.../images/ADK+1152.jpeg]. *)
Theorem remote_urls_plus_encoded (this : DirectoryMaker) (filename : jsstring) :
  let m := extractMetadata this filename in
  (exists title' filename',
     PlusEncoded (sanitizedTitle m) title' /\
     PlusEncoded filename filename' /\
     awsImage m =
       dm_awsLocation this ++ lit "/" ++ dm_prefix this ++ lit "/images/" ++
       title' ++ lit ".jpeg" /\
     download m =
       dm_awsLocation this ++ lit "/" ++ dm_prefix this ++
       lit "/documents/" ++ filename') /\
  sanitizedTitle (extractMetadata mini (lit "ADK 1152.pdf")) = lit "ADK 1152" /\
  awsImage (extractMetadata mini (lit "ADK 1152.pdf")) =
    lit "https://bucket.s3.amazonaws.com/mini/images/ADK+1152.jpeg".
Proof.
  simpl. split; [|split; vm_compute; reflexivity].
  eexists _, _. split; [apply replace_ws_PlusEncoded|].
  split; [apply replace_ws_PlusEncoded|]. split; reflexivity.
Qed.

(** Where every whitespace character of the file name is a single space,
    the download URL is the character-by-character substitution. *)
Lemma download_single_spaced (this : DirectoryMaker) (filename : jsstring) :
  single_spaced filename = true ->
  download (extractMetadata this filename) = spec_download this filename.
Proof.
  intros H. unfold extractMetadata, spec_download, replace_ws; simpl.
  rewrite (replace_ws_single_spaced _ _ H). reflexivity.
Qed.

(* ===================================================================== *)
(** ** Markdown record emission *)
(* ===================================================================== *)

(** The record layout: front-matter keys in their fixed order. *)
Definition markdownRecord (m : FileMetadata) : jsstring :=
  lit "---" ++ nl ++
  lit "    title: " ++ sanitizedTitle m ++ nl ++
  lit "    slug: " ++ sanitizedFileName m ++ nl ++
  lit "    description:" ++ nl ++
  lit "    code: " ++ sanitizedFileName m ++ nl ++
  lit "    image: " ++ awsImage m ++ nl ++
  lit "    download: " ++ download m ++ nl ++
  lit "---".

Lemma generateMarkdownContent_layout (m : FileMetadata) :
  generateMarkdownContent m = markdownRecord m.
Proof.
  unfold generateMarkdownContent, Outdent.outdent, markdownRecord.
  match goal with
  | |- Outdent.concatStringsAndValues ?a _ = _ =>
      let a' := eval vm_compute in a in change a with a'
  end.
  cbn [Outdent.concatStringsAndValues].
  change nl with [10%N].
  repeat (rewrite <- ?app_assoc; cbn [lit List.map list_ascii_of_string
                                        N_of_ascii N_of_digits app]).
  reflexivity.
Qed.

Definition entry (lvl : Level) (fields : list (string * jsstring))
  (e : option Error) (m : jsstring) : LogEntry :=
  {| level := lvl; bindings := fields; err := e; msg := m |}.

Definition add_log (entries : list LogEntry) (w : World) : World :=
  set_log (fun l => l ++ entries) w.

Section DirectoryMakerFacts.

Variable env : Env.
Variable this : DirectoryMaker.

(** Where [processFile] writes the record of [filename]. *)
Definition outputPathOf (outputDir filename : jsstring) : jsstring :=
  Path.join
    [outputDir; sanitizedFileName (extractMetadata this filename) ++ lit ".md"].

Definition accepted (filename : jsstring) : bool :=
  endsWith (toLowerCase filename) (lit ".pdf").

Lemma processFile_skipped filename outputDir w :
  accepted filename = false ->
  processFile env this filename outputDir w =
  (Ok tt,
   add_log [entry Debug [] None (lit "Skipping non-PDF file: " ++ filename)] w).
Proof.
  unfold accepted, processFile, try_catch. intros ->. reflexivity.
Qed.

Lemma processFile_written filename outputDir w :
  accepted filename = true ->
  fs_fault env (OpWriteFile (outputPathOf outputDir filename)) = None ->
  processFile env this filename outputDir w =
  (Ok tt,
   add_log
     [entry Info [] None
        (lit "Created file: " ++ outputPathOf outputDir filename)]
     (set_files
        (fun m =>
           <[ outputPathOf outputDir filename :=
                Text (markdownRecord (extractMetadata this filename)) ]> m)
        w)).
Proof.
  unfold accepted, processFile, try_catch, bind, writeFile, outputPathOf.
  intros -> Hf. simpl negb. cbv iota. rewrite Hf.
  rewrite generateMarkdownContent_layout. reflexivity.
Qed.

Lemma processFile_failed filename outputDir w e :
  accepted filename = true ->
  fs_fault env (OpWriteFile (outputPathOf outputDir filename)) = Some e ->
  processFile env this filename outputDir w =
  (Err e,
   add_log
     [entry Error_ [("filename"%string, filename)] (Some e)
        (lit "Failed to process file: " ++ filename)] w).
Proof.
  unfold accepted, processFile, try_catch, bind, writeFile, outputPathOf.
  intros -> Hf. simpl negb. cbv iota. rewrite Hf. reflexivity.
Qed.

(** [processFile] never runs out of fuel, and throws only what
    [writeFile] throws. *)
Lemma processFile_cases filename outputDir w :
  (exists w', processFile env this filename outputDir w = (Ok tt, w')) \/
  (exists e w',
     processFile env this filename outputDir w = (Err e, w') /\
     accepted filename = true /\
     fs_fault env (OpWriteFile (outputPathOf outputDir filename)) = Some e).
Proof.
  destruct (accepted filename) eqn:Ha.
  - destruct (fs_fault env (OpWriteFile (outputPathOf outputDir filename)))
      as [e|] eqn:Hf.
    + right. exists e. eexists.
      split; [apply processFile_failed; assumption | auto].
    + left. eexists. apply processFile_written; auto.
  - left. eexists. apply processFile_skipped; auto.
Qed.

End DirectoryMakerFacts.

Section MarkdownBatch.

Variable env : Env.
Variable this : DirectoryMaker.
Variable outputDir : jsstring.

(** The error with which the record of [filename] fails to be written. *)
Definition fault_of (filename : jsstring) : option Error :=
  if accepted filename
  then fs_fault env (OpWriteFile (outputPathOf this outputDir filename))
  else None.

Fixpoint first_fault (files : list jsstring) : option Error :=
  match files with
  | [] => None
  | f :: rest =>
      match fault_of f with
      | Some e => Some e
      | None => first_fault rest
      end
  end.

(** The records a batch leaves behind. *)
Fixpoint written (files : list jsstring) (m : gmap jsstring FileData)
  : gmap jsstring FileData :=
  match files with
  | [] => m
  | f :: rest =>
      written rest
        (if accepted f
         then match fault_of f with
              | Some _ => m
              | None =>
                  <[ outputPathOf this outputDir f :=
                       Text (markdownRecord (extractMetadata this f)) ]> m
              end
         else m)
  end.

Definition processAll (files : list jsstring) : M (list unit) :=
  promise_all (List.map (fun filename => processFile env this filename outputDir)
                 files).

Lemma processAll_run (files : list jsstring) (w : World) :
  exists w',
    processAll files w =
      (match first_fault files with
       | Some e => Err e
       | None => Ok (List.map (fun _ => tt) files)
       end, w') /\
    w_files w' = written files (w_files w) /\
    w_dirs w' = w_dirs w /\
    w_sent w' = w_sent w /\
    w_bucket w' = w_bucket w.
Proof.
  unfold processAll.
  revert w; induction files as [|f rest IH]; intros w; simpl.
  - exists w. auto.
  - unfold fault_of. destruct (accepted f) eqn:Ha.
    + destruct (fs_fault env (OpWriteFile (outputPathOf this outputDir f)))
        as [e|] eqn:Hf.
      * rewrite (processFile_failed _ _ _ _ _ e Ha Hf).
        match goal with |- context [promise_all _ ?w0] =>
          destruct (IH w0) as (w' & Hrun & H1 & H2 & H3 & H4) end.
        rewrite Hrun. exists w'.
        split; [destruct (first_fault rest); reflexivity|]. auto.
      * rewrite (processFile_written _ _ _ _ _ Ha Hf).
        match goal with |- context [promise_all _ ?w0] =>
          destruct (IH w0) as (w' & Hrun & H1 & H2 & H3 & H4) end.
        rewrite Hrun. exists w'.
        split; [destruct (first_fault rest); reflexivity|]. auto.
    + rewrite (processFile_skipped _ _ _ _ _ Ha).
      match goal with |- context [promise_all _ ?w0] =>
        destruct (IH w0) as (w' & Hrun & H1 & H2 & H3 & H4) end.
      rewrite Hrun. exists w'.
      split; [destruct (first_fault rest); reflexivity|]. auto.
Qed.

Lemma written_keeps (files : list jsstring) (m : gmap jsstring FileData)
  (p : jsstring) :
  is_Some (m !! p) -> is_Some (written files m !! p).
Proof.
  revert m; induction files as [|f rest IH]; intros m Hm; simpl; auto.
  apply IH. destruct (accepted f); auto. destruct (fault_of f); auto.
  destruct (decide (outputPathOf this outputDir f = p)) as [->|Hne].
  - rewrite lookup_insert_eq. eauto.
  - rewrite lookup_insert_ne; auto.
Qed.

Lemma written_has (files : list jsstring) (m : gmap jsstring FileData)
  (f : jsstring) :
  first_fault files = None ->
  In f files -> accepted f = true ->
  is_Some (written files m !! outputPathOf this outputDir f).
Proof.
  revert m; induction files as [|g rest IH]; intros m Hnone Hin Ha;
    simpl in *; [tauto|].
  destruct (fault_of g) eqn:Hg; [discriminate|].
  destruct Hin as [->|Hin].
  - rewrite Ha. apply written_keeps. rewrite lookup_insert_eq. eauto.
  - apply IH; auto.
Qed.


End MarkdownBatch.

Section MarkdownRun.

Variable env : Env.
Variable this : DirectoryMaker.

Definition outputDirOf : jsstring :=
  Path.join [cwd env; dm_outputBasePath this; dm_prefix this].

(** A run of [createFilesFromDirectory] over a listed staging folder whose
    output directory can be created. *)
Definition processedLine (stagingFolder : jsstring) (n : nat) : LogEntry :=
  entry Info [] None
    (lit "Successfully processed " ++ of_nat n ++ lit " files from " ++
     stagingFolder).

Definition notProcessedLine (stagingFolder : jsstring) (e : Error)
  : LogEntry :=
  entry Error_ [] (Some e)
    (lit "Failed to process directory: " ++ stagingFolder).

Lemma createFilesFromDirectory_run stagingFolder entries w :
  fs_fault env (OpMkdir outputDirOf) = None ->
  fs_tree env stagingFolder = Directory entries ->
  let files := List.map fst entries in
  exists w',
    createFilesFromDirectory env this stagingFolder w =
      (match first_fault env this outputDirOf files with
       | Some e => Err e
       | None => Ok tt
       end, w') /\
    w_files w' = written env this outputDirOf files (w_files w) /\
    w_dirs w' = {[ outputDirOf ]} ∪ w_dirs w /\
    exists l,
      w_log w' =
        l ++ [match first_fault env this outputDirOf files with
              | Some e => notProcessedLine stagingFolder e
              | None => processedLine stagingFolder (length files)
              end].
Proof.
  intros Hmk Htree files.
  unfold createFilesFromDirectory, try_catch, bind, dm_ensureDirectoryExists,
    try_catch, bind, mkdir, readdir.
  fold outputDirOf. rewrite Hmk, Htree. cbn [logger_debug logger ret].
  fold files.
  match goal with |- context [promise_all _ ?w0] =>
    destruct (processAll_run env this outputDirOf files w0)
      as (w' & Hrun & H1 & H2 & _) end.
  unfold processAll in Hrun. rewrite Hrun.
  destruct (first_fault env this outputDirOf files) as [e|];
    eexists; (split; [reflexivity|]); simpl; rewrite H1, H2;
    (split; [reflexivity|]); (split; [reflexivity|]);
    eexists; reflexivity.
Qed.

End MarkdownRun.

Lemma first_fault_none env this outputDir (files : list jsstring) :
  (forall f, In f files -> fault_of env this outputDir f = None) ->
  first_fault env this outputDir files = None.
Proof.
  induction files as [|g rest IH]; simpl; intros H; [reflexivity|].
  rewrite (H g) by (left; reflexivity). apply IH. intros f Hf.
  apply H. right; exact Hf.
Qed.

(** C1, as claimed, fails: the slug of "!!!.pdf" is empty, yet
    [processFile] returns normally and has written the file [.md]. *)
Lemma empty_slug_counterexample :
  sanitizedFileName (extractMetadata mini (lit "!!!.pdf")) = [] /\
  fst (processFile (calm_env (staging []) readable) mini (lit "!!!.pdf")
         (lit "/repo/content/archive/mini") empty_world) = Ok tt /\
  w_files
    (snd (processFile (calm_env (staging []) readable) mini (lit "!!!.pdf")
            (lit "/repo/content/archive/mini") empty_world))
    !! lit "/repo/content/archive/mini/.md" =
  Some (Text (markdownRecord (extractMetadata mini (lit "!!!.pdf")))).
Proof.
  split; [vm_compute; reflexivity|].
  rewrite processFile_written by (vm_compute; reflexivity).
  split; [reflexivity|]. simpl.
  replace (outputPathOf mini (lit "/repo/content/archive/mini")
             (lit "!!!.pdf"))
    with (lit "/repo/content/archive/mini/.md") by (vm_compute; reflexivity).
  apply lookup_insert_eq.
Qed.

(** C1, amended.  For an accepted file name whose sanitized form is empty,
    the derivation does not fail: [processFile] writes the record to the
    file [.md] of the output directory, and throws only what that write
    throws. *)
Theorem empty_slug_written (env : Env) (this : DirectoryMaker)
  (filename outputDir : jsstring) (w : World) :
  accepted filename = true ->
  sanitizedFileName (extractMetadata this filename) = [] ->
  match fs_fault env (OpWriteFile (Path.join [outputDir; lit ".md"])) with
  | None =>
      exists w',
        processFile env this filename outputDir w = (Ok tt, w') /\
        w_files w' =
          <[ Path.join [outputDir; lit ".md"] :=
               Text (markdownRecord (extractMetadata this filename)) ]>
            (w_files w)
  | Some e =>
      exists w',
        processFile env this filename outputDir w = (Err e, w') /\
        w_files w' = w_files w
  end.
Proof.
  intros Ha Hslug.
  assert (Hp : outputPathOf this outputDir filename =
               Path.join [outputDir; lit ".md"]).
  { unfold outputPathOf. rewrite Hslug. reflexivity. }
  rewrite <- Hp.
  destruct (fs_fault env (OpWriteFile (outputPathOf this outputDir filename)))
    as [e|] eqn:Hf.
  - eexists. split; [apply processFile_failed; assumption | reflexivity].
  - eexists. split; [apply processFile_written; assumption | reflexivity].
Qed.

Lemma empty_slug_written_witness :
  exists w',
    processFile (calm_env (staging []) readable) mini (lit "!!!.pdf")
      (lit "/repo/content/archive/mini") empty_world = (Ok tt, w') /\
    w_files w' =
      <[ Path.join [lit "/repo/content/archive/mini"; lit ".md"] :=
           Text (markdownRecord (extractMetadata mini (lit "!!!.pdf"))) ]>
        (w_files empty_world).
Proof.
  apply (empty_slug_written (calm_env (staging []) readable) mini
           (lit "!!!.pdf") (lit "/repo/content/archive/mini") empty_world);
    vm_compute; reflexivity.
Defined.

(** C8.  For each accepted input file, [processFile] writes the file
    [{slug}.md] of the output directory; its content is the front matter
    with the keys title, slug, description, code, image, download in that
    order.  [createFilesFromDirectory] creates the output directory and
    leaves a record for every accepted file of the staging folder.  For
    ADK1152.pdf, prefix mini and base https://bucket.s3.amazonaws.com the
    record ADK1152.md contains the slug and download lines. *)
Theorem markdown_record_emission (env : Env) (this : DirectoryMaker)
  (stagingFolder : jsstring) (entries : list (jsstring * node)) (w : World) :
  fs_fault env (OpMkdir (outputDirOf env this)) = None ->
  fs_tree env stagingFolder = Directory entries ->
  (forall f, In f (List.map fst entries) ->
             fault_of env this (outputDirOf env this) f = None) ->
  (exists w',
     createFilesFromDirectory env this stagingFolder w = (Ok tt, w') /\
     outputDirOf env this ∈ w_dirs w' /\
     forall filename,
       In filename (List.map fst entries) -> accepted filename = true ->
       is_Some
         (w_files w' !!
            Path.join [outputDirOf env this;
                       sanitizedFileName (extractMetadata this filename) ++
                       lit ".md"])) /\
  (forall filename w0,
     In filename (List.map fst entries) -> accepted filename = true ->
     exists w1,
       processFile env this filename (outputDirOf env this) w0 = (Ok tt, w1) /\
       w_files w1 =
         <[ Path.join [outputDirOf env this;
                       sanitizedFileName (extractMetadata this filename) ++
                       lit ".md"] :=
              Text (markdownRecord (extractMetadata this filename)) ]>
           (w_files w0)) /\
  (let out :=
     createFilesFromDirectory
       (calm_env (staging [(lit "ADK1152.pdf", File)]) readable) mini
       (lit "./pdfs") empty_world in
   fst out = Ok tt /\
   exists record,
     w_files (snd out) !! lit "/repo/content/archive/mini/ADK1152.md" =
       Some (Text record) /\
     includes record (lit "slug: ADK1152") = true /\
     includes record
       (lit "download: https://bucket.s3.amazonaws.com/mini/documents/ADK1152.pdf")
       = true).
Proof.
  intros Hmk Htree Hok.
  pose proof (first_fault_none _ _ _ _ Hok) as Hnone.
  split; [|split].
  - destruct (createFilesFromDirectory_run env this stagingFolder entries w
                Hmk Htree) as (w' & Hrun & Hfiles & Hdirs & _).
    rewrite Hnone in Hrun. exists w'. split; [exact Hrun|]. split.
    + rewrite Hdirs. apply elem_of_union_l, elem_of_singleton. reflexivity.
    + intros filename Hin Ha. rewrite Hfiles.
      apply (written_has env this (outputDirOf env this)); assumption.
  - intros filename w0 Hin Ha.
    pose proof (Hok filename Hin) as Hf. unfold fault_of in Hf.
    rewrite Ha in Hf. eexists.
    split; [apply processFile_written; assumption | reflexivity].
  - cbv zeta. split; [vm_compute; reflexivity|].
    eexists. split; [vm_compute; reflexivity|].
    split; vm_compute; reflexivity.
Qed.

Lemma markdown_record_emission_witness :
  exists w',
    createFilesFromDirectory
      (calm_env (staging [(lit "ADK1152.pdf", File)]) readable) mini
      (lit "./pdfs") empty_world = (Ok tt, w') /\
    outputDirOf (calm_env (staging [(lit "ADK1152.pdf", File)]) readable) mini
      ∈ w_dirs w'.
Proof.
  destruct (markdown_record_emission
              (calm_env (staging [(lit "ADK1152.pdf", File)]) readable) mini
              (lit "./pdfs") [(lit "ADK1152.pdf", File)] empty_world)
    as [(w' & Hrun & Hdir & _) _].
  - vm_compute; reflexivity.
  - vm_compute; reflexivity.
  - intros f [<-|[]]. vm_compute; reflexivity.
  - exists w'. split; assumption.
Defined.

(* ===================================================================== *)
(** ** Upload *)
(* ===================================================================== *)

(** Brings two descriptions of a world to the same shape. *)
Ltac same_world :=
  unfold logger_debug, logger_info, logger_warn, logger_error, logger, throw,
    ret, add_log, set_log, set_sent, set_bucket, set_files, set_dirs;
  simpl; rewrite <- ?app_assoc; simpl; rewrite ?app_nil_r; reflexivity.

Lemma add_log_nil (w : World) : add_log [] w = w.
Proof.
  destruct w; unfold add_log, set_log; simpl. rewrite app_nil_r. reflexivity.
Qed.

Lemma add_log_add_log (a b : list LogEntry) (w : World) :
  add_log b (add_log a w) = add_log (a ++ b) w.
Proof.
  unfold add_log, set_log; simpl. rewrite app_assoc. reflexivity.
Qed.

(** Induction on a file-system tree, with the hypothesis for every entry of
    a directory. *)
Section node_induction.

Variable P : node -> Prop.
Hypothesis HFile : P File.
Hypothesis HDirectory :
  forall entries, Forall (fun ne => P (snd ne)) entries -> P (Directory entries).
Hypothesis HUnreadable : forall e, P (Unreadable e).
Hypothesis HSpecial : P Special.
Hypothesis HMissing : forall e, P (Missing e).

Fixpoint node_induction (n : node) : P n :=
  match n with
  | File => HFile
  | Directory entries =>
      HDirectory entries
        ((fix all (l : list (jsstring * node))
            : Forall (fun ne => P (snd ne)) l :=
            match l with
            | [] => List.Forall_nil _
            | ne :: l' =>
                List.Forall_cons _ ne l' (node_induction (snd ne)) (all l')
            end) entries)
  | Unreadable e => HUnreadable e
  | Special => HSpecial
  | Missing e => HMissing e
  end.

End node_induction.

(** A computation that only reads the environment: its result does not
    depend on the world, it only adds log entries, and none when it
    returns. *)
Definition observes {A} (m : M A) : Prop :=
  exists r logs,
    (forall w, m w = (r, add_log logs w)) /\
    r <> OutOfFuel /\
    (forall a, r = Ok a -> logs = []).

Lemma walk_entries_observes env walk dirPath basePath exts entries :
  Forall (fun ne => forall fullPath, observes (walk (snd ne) fullPath))
    entries ->
  forall files,
    observes (walk_entries env walk dirPath basePath exts entries files).
Proof.
  induction 1 as [|[entry child] rest Hchild _ IH]; intros files; simpl.
  - exists (Ok files), []. split; [|split]; try congruence.
    intros w. rewrite add_log_nil. reflexivity.
  - unfold bind.
    destruct child; simpl;
      try (apply IH);
      try (destruct (has exts (toLowerCase (Path.extname entry))); apply IH).
    + destruct (Hchild (Path.join [dirPath; entry]))
        as (r & logs & Hrun & Hfuel & Hok). simpl in Hrun.
      destruct r as [sub| e |]; [| |congruence].
      * rewrite (Hok sub eq_refl) in Hrun.
        destruct (IH (files ++ sub)) as (r' & logs' & Hrun' & Hfuel' & Hok').
        exists r', logs'. split; [|split]; auto.
        intros w. rewrite Hrun, add_log_nil. apply Hrun'.
      * exists (Err e), logs. split; [|split]; try congruence.
        intros w. rewrite Hrun. reflexivity.
    + destruct (Hchild (Path.join [dirPath; entry]))
        as (r & logs & Hrun & Hfuel & Hok). simpl in Hrun.
      destruct r as [sub| e0 |]; [| |congruence].
      * rewrite (Hok sub eq_refl) in Hrun.
        destruct (IH (files ++ sub)) as (r' & logs' & Hrun' & Hfuel' & Hok').
        exists r', logs'. split; [|split]; auto.
        intros w. rewrite Hrun, add_log_nil. apply Hrun'.
      * exists (Err e0), logs. split; [|split]; try congruence.
        intros w. rewrite Hrun. reflexivity.
    + exists (Err e), []. split; [|split]; try congruence.
      intros w. rewrite add_log_nil. reflexivity.
Qed.

Lemma walkDirectory_observes env n :
  forall dirPath basePath exts,
    observes (walkDirectory env n dirPath basePath exts).
Proof.
  induction n as [|entries IH|e| |e] using node_induction;
    intros dirPath basePath exts.
  1,3,4,5:
    eexists (Err _), [_]; (split; [|split]; try congruence);
    intros w; reflexivity.
  destruct (walk_entries_observes env
              (fun child fullPath =>
                 walkDirectory env child fullPath basePath exts)
              dirPath basePath exts entries)
    with (files := @nil WalkItem) as (r & logs & Hrun & Hfuel & Hok).
  { eapply List.Forall_impl; [|exact IH]. intros ne H fullPath. apply H. }
  destruct r as [files| e |]; [| |congruence].
  - exists (Ok files), []. split; [|split]; try congruence.
    intros w. simpl. unfold try_catch. rewrite Hrun.
    rewrite (Hok files eq_refl). reflexivity.
  - eexists (Err e), (logs ++ [_]). split; [|split]; try congruence.
    intros w. simpl. unfold try_catch. rewrite Hrun.
    unfold bind, logger_error, logger, throw.
    rewrite <- add_log_add_log. reflexivity.
Qed.

Section UploaderFacts.

Variable env : Env.
Variable this : UploadOptions.

Definition categoryOf : jsstring :=
  string_or (up_defaultCategory this) (lit "misc").

(** The key [uploadFile] derives for a local path. *)
Definition s3KeyOf (localFilePath : jsstring) : jsstring :=
  getS3Key (Path.basename localFilePath) categoryOf.

Definition putOf (localFilePath : jsstring) (body : Buffer)
  : PutObjectCommand :=
  {| put_Bucket := up_bucket this;
     put_Key := s3KeyOf localFilePath;
     put_Body := body;
     put_ContentType := getMimeType localFilePath |}.

Definition dryLine (p : jsstring) : LogEntry :=
  entry Info [] None
    (lit "[DRY RUN] Would upload: " ++ p ++ lit " -> s3://" ++
     up_bucket this ++ lit "/" ++ s3KeyOf p).

Definition uploadedLine (p : jsstring) : LogEntry :=
  entry Info [] None
    (lit "Uploaded: " ++ p ++ lit " -> s3://" ++ up_bucket this ++ lit "/" ++
     s3KeyOf p).

Definition failedLine (p : jsstring) (e : Error) : LogEntry :=
  entry Error_ [("localFilePath"%string, p)] (Some e)
    (lit "Failed to upload " ++ p).

(** What the bucket holds after a Put was accepted. *)
Definition store (b : gmap (jsstring * jsstring) S3Object)
  (c : PutObjectCommand) : gmap (jsstring * jsstring) S3Object :=
  <[ (put_Bucket c, put_Key c) :=
       {| obj_Body := put_Body c; obj_ContentType := put_ContentType c |} ]> b.

Lemma uploadFile_dry p rel w :
  truthy_flag (up_dryRun this) = true ->
  uploadFile env this p rel w = (Ok tt, add_log [dryLine p] w).
Proof.
  unfold uploadFile, try_catch. intros ->. reflexivity.
Qed.

Lemma uploadFile_unreadable p rel w e :
  truthy_flag (up_dryRun this) = false ->
  fs_readFile env p = Rejected e ->
  uploadFile env this p rel w = (Err e, add_log [failedLine p e] w).
Proof.
  unfold uploadFile, try_catch, bind, readFile. intros -> ->. reflexivity.
Qed.

Lemma uploadFile_rejected p rel w body e :
  truthy_flag (up_dryRun this) = false ->
  fs_readFile env p = Fulfilled body ->
  s3_put_fault env (putOf p body) = Some e ->
  uploadFile env this p rel w =
  (Err e,
   add_log [failedLine p e]
     (set_sent (fun l => l ++ [PutObject (putOf p body)]) w)).
Proof.
  unfold uploadFile, try_catch, bind, readFile, send_put.
  intros -> -> Hput. simpl. fold categoryOf. fold (s3KeyOf p).
  fold (putOf p body). rewrite Hput. reflexivity.
Qed.

Lemma uploadFile_stored p rel w body :
  truthy_flag (up_dryRun this) = false ->
  fs_readFile env p = Fulfilled body ->
  s3_put_fault env (putOf p body) = None ->
  uploadFile env this p rel w =
  (Ok tt,
   add_log [uploadedLine p]
     (set_bucket (fun b => store b (putOf p body))
        (set_sent (fun l => l ++ [PutObject (putOf p body)]) w))).
Proof.
  unfold uploadFile, try_catch, bind, readFile, send_put.
  intros -> -> Hput. simpl. fold categoryOf. fold (s3KeyOf p).
  fold (putOf p body). rewrite Hput. reflexivity.
Qed.

(** The relative path computed by the walker plays no part. *)
Lemma uploadFile_ignores_relativePath p rel rel' w :
  uploadFile env this p rel w = uploadFile env this p rel' w.
Proof. reflexivity. Qed.

(** *** The sequential loop of [uploadAll] *)

Definition uploadEach (files : list WalkItem) : M unit :=
  for_of files (fun file => uploadFile env this (fullPath file)
                              (relativePath file)).

Lemma uploadEach_dry files w :
  truthy_flag (up_dryRun this) = true ->
  uploadEach files w =
  (Ok tt, add_log (List.map (fun f => dryLine (fullPath f)) files) w).
Proof.
  intros Hdry. unfold uploadEach.
  revert w; induction files as [|f rest IH]; intros w; simpl.
  - rewrite add_log_nil. reflexivity.
  - unfold bind. rewrite (uploadFile_dry _ _ _ Hdry), IH, add_log_add_log.
    reflexivity.
Qed.

(** A real run, item by item: the error that ends it, the Put commands
    sent, the Put commands accepted, the log. *)
Record Progress := {
  pr_error : option Error;
  pr_sent : list PutObjectCommand;
  pr_stored : list PutObjectCommand;
  pr_log : list LogEntry;
}.

Fixpoint progress (files : list WalkItem) : Progress :=
  match files with
  | [] => {| pr_error := None; pr_sent := []; pr_stored := []; pr_log := [] |}
  | f :: rest =>
      let p := fullPath f in
      match fs_readFile env p with
      | Rejected e =>
          {| pr_error := Some e; pr_sent := []; pr_stored := [];
             pr_log := [failedLine p e] |}
      | Fulfilled body =>
          match s3_put_fault env (putOf p body) with
          | Some e =>
              {| pr_error := Some e; pr_sent := [putOf p body];
                 pr_stored := []; pr_log := [failedLine p e] |}
          | None =>
              let r := progress rest in
              {| pr_error := pr_error r;
                 pr_sent := putOf p body :: pr_sent r;
                 pr_stored := putOf p body :: pr_stored r;
                 pr_log := uploadedLine p :: pr_log r |}
          end
      end
  end.

Definition after_progress (r : Progress) (w : World) : World :=
  add_log (pr_log r)
    (set_bucket (fun b => fold_left store (pr_stored r) b)
       (set_sent (fun l => l ++ List.map PutObject (pr_sent r)) w)).

Lemma uploadEach_real files w :
  truthy_flag (up_dryRun this) = false ->
  uploadEach files w =
  (match pr_error (progress files) with
   | Some e => Err e
   | None => Ok tt
   end, after_progress (progress files) w).
Proof.
  intros Hreal. unfold uploadEach.
  revert w; induction files as [|f rest IH]; intros w; simpl.
  - unfold ret, after_progress; simpl. rewrite add_log_nil.
    destruct w; unfold set_bucket, set_sent; simpl.
    rewrite app_nil_r. reflexivity.
  - unfold bind.
    destruct (fs_readFile env (fullPath f)) as [body|e] eqn:Hread.
    + destruct (s3_put_fault env (putOf (fullPath f) body)) as [e|] eqn:Hput.
      * rewrite (uploadFile_rejected _ _ _ _ _ Hreal Hread Hput).
        unfold after_progress; simpl.
        destruct w; reflexivity.
      * rewrite (uploadFile_stored _ _ _ _ Hreal Hread Hput), IH.
        f_equal. unfold after_progress, add_log, set_log, set_bucket, set_sent;
          simpl. rewrite <- !app_assoc. reflexivity.
    + rewrite (uploadFile_unreadable _ _ _ _ Hreal Hread).
      unfold after_progress; simpl.
      destruct w; unfold add_log, set_log, set_bucket, set_sent; simpl.
      rewrite app_nil_r. reflexivity.
Qed.

End UploaderFacts.

Definition with_dryRun (b : bool) (this : UploadOptions) : UploadOptions :=
  {| up_bucket := up_bucket this;
     up_region := up_region this;
     up_localPath := up_localPath this;
     up_defaultCategory := up_defaultCategory this;
     up_dryRun := Some b |}.

(** The items the walker enumerates below the local path. *)
Definition enumerated (env : Env) (this : UploadOptions)
  : result (list WalkItem) :=
  fst (walkDirectory env (fs_tree env (up_localPath this))
         (up_localPath this) (up_localPath this) validExtensions empty_world).

Lemma walk_enumerated env this files w :
  enumerated env this = Ok files ->
  walkDirectory env (fs_tree env (up_localPath this))
    (up_localPath this) (up_localPath this) validExtensions w =
  (Ok files, w).
Proof.
  unfold enumerated.
  destruct (walkDirectory_observes env (fs_tree env (up_localPath this))
              (up_localPath this) (up_localPath this) validExtensions)
    as (r & logs & Hrun & _ & Hok).
  rewrite !Hrun. simpl. intros ->.
  rewrite (Hok files eq_refl), add_log_nil. reflexivity.
Qed.

Section UploadAllFacts.

Variable env : Env.
Variable this : UploadOptions.

Definition startLine : LogEntry :=
  entry Info [] None
    (lit "Starting upload from " ++ up_localPath this ++ lit " to s3://" ++
     up_bucket this).
Definition bannerLine : LogEntry :=
  entry Info [] None (lit "DRY RUN MODE - No files will actually be uploaded").
Definition noneLine : LogEntry :=
  entry Info [] None (lit "No valid files found to upload").
Definition foundLine (n : nat) : LogEntry :=
  entry Info [] None (lit "Found " ++ of_nat n ++ lit " files to upload").
Definition completedLine (n : nat) : LogEntry :=
  entry Info [] None
    (lit "Upload completed successfully. Processed " ++ of_nat n ++
     lit " files.").
Definition abortLine (e : Error) : LogEntry :=
  entry Error_ [] (Some e) (lit "Error during upload process").

Lemma uploadAll_dry files w :
  truthy_flag (up_dryRun this) = true ->
  enumerated env this = Ok files ->
  uploadAll env this w =
  (Ok tt,
   add_log
     (startLine :: bannerLine ::
      match files with
      | [] => [noneLine]
      | _ :: _ =>
          foundLine (length files) ::
          List.map (fun f => dryLine this (fullPath f)) files ++
          [completedLine (length files)]
      end) w).
Proof.
  intros Hdry Hwalk.
  unfold uploadAll, try_catch, bind. rewrite Hdry. cbn [logger_info logger].
  rewrite (walk_enumerated _ _ _ _ Hwalk).
  destruct files as [|f rest].
  { cbn [length Nat.eqb logger_info logger].
    unfold add_log, set_log; simpl. rewrite <- !app_assoc. reflexivity. }
  cbn [length Nat.eqb logger_info logger].
  fold (uploadEach env this (f :: rest)).
  rewrite (uploadEach_dry env this _ _ Hdry). same_world.
Qed.

Lemma uploadAll_real files w :
  truthy_flag (up_dryRun this) = false ->
  enumerated env this = Ok files ->
  files <> [] ->
  uploadAll env this w =
  (match pr_error (progress env this files) with
   | Some e => Err e
   | None => Ok tt
   end,
   add_log
     (match pr_error (progress env this files) with
      | Some e => [abortLine e]
      | None => [completedLine (length files)]
      end)
     (after_progress (progress env this files)
        (add_log [startLine; foundLine (length files)] w))).
Proof.
  intros Hreal Hwalk Hne.
  unfold uploadAll, try_catch, bind. rewrite Hreal. cbn [logger_info logger ret].
  rewrite (walk_enumerated _ _ _ _ Hwalk).
  destruct files as [|f rest]; [congruence|].
  cbn [length Nat.eqb logger_info logger].
  fold (uploadEach env this (f :: rest)).
  rewrite (uploadEach_real env this _ _ Hreal).
  destruct (pr_error (progress env this (f :: rest)));
    unfold after_progress; same_world.
Qed.

End UploadAllFacts.

Section ProgressFacts.

Variable env : Env.
Variable this : UploadOptions.

Lemma progress_app (l1 l2 : list WalkItem) :
  pr_error (progress env this (l1 ++ l2)) = None ->
  pr_error (progress env this l1) = None /\
  pr_error (progress env this l2) = None /\
  pr_stored (progress env this (l1 ++ l2)) =
    pr_stored (progress env this l1) ++ pr_stored (progress env this l2) /\
  pr_sent (progress env this (l1 ++ l2)) =
    pr_sent (progress env this l1) ++ pr_sent (progress env this l2).
Proof.
  induction l1 as [|f l1 IH]; simpl; [auto|].
  destruct (fs_readFile env (fullPath f)) as [body|e]; simpl;
    [|discriminate].
  destruct (s3_put_fault env (putOf this (fullPath f) body)); simpl;
    [discriminate|].
  intros H. destruct (IH H) as (H1 & H2 & H3 & H4).
  rewrite H3, H4. auto.
Qed.

(** A run that ends without error has put one object per item, in order,
    under the key of the item. *)
Lemma progress_complete (files : list WalkItem) :
  pr_error (progress env this files) = None ->
  pr_sent (progress env this files) = pr_stored (progress env this files) /\
  List.map put_Key (pr_sent (progress env this files)) =
    List.map (fun f => s3KeyOf this (fullPath f)) files.
Proof.
  induction files as [|f rest IH]; simpl; [auto|].
  destruct (fs_readFile env (fullPath f)) as [body|e]; simpl;
    [|discriminate].
  destruct (s3_put_fault env (putOf this (fullPath f) body)); simpl;
    [discriminate|].
  intros H. destruct (IH H) as [H1 H2].
  split; [f_equal; exact H1 | f_equal; exact H2].
Qed.


Lemma progress_unreadable (files : list WalkItem) (f : WalkItem) (e : Error) :
  In f files -> fs_readFile env (fullPath f) = Rejected e ->
  pr_error (progress env this files) <> None.
Proof.
  induction files as [|g rest IH]; simpl; [tauto|].
  intros [->|Hin] Hread.
  - rewrite Hread. discriminate.
  - destruct (fs_readFile env (fullPath g)) as [body|e']; simpl;
      [|discriminate].
    destruct (s3_put_fault env (putOf this (fullPath g) body)); simpl;
      [discriminate|]. apply IH; assumption.
Qed.

End ProgressFacts.

Lemma uploadAll_none env this w :
  truthy_flag (up_dryRun this) = false ->
  enumerated env this = Ok [] ->
  uploadAll env this w = (Ok tt, add_log [startLine this; noneLine] w).
Proof.
  intros Hreal Hwalk.
  unfold uploadAll, try_catch, bind. rewrite Hreal. cbn [logger_info logger ret].
  rewrite (walk_enumerated _ _ _ _ Hwalk). cbn [length Nat.eqb]. same_world.
Qed.

(** C5.  A file that a real run uploads is stored under
    [{category}/{subfolder}/{filename}], with the base name of the local
    file unchanged; for a tracked extension the subfolder is [documents]
    exactly for '.pdf' (compared in lower case) and [images] exactly for
    '.jpg', '.jpeg', '.png', '.gif' and '.webp'.  With category misc,
    manual.pdf goes to misc/documents/manual.pdf and cover.png to
    misc/images/cover.png. *)
Theorem upload_key_layout (env : Env) (this : UploadOptions)
  (localFilePath relativeFilePath : jsstring) (body : Buffer) (w : World) :
  truthy_flag (up_dryRun this) = false ->
  fs_readFile env localFilePath = Fulfilled body ->
  s3_put_fault env (putOf this localFilePath body) = None ->
  has validExtensions
    (toLowerCase (Path.extname (Path.basename localFilePath))) = true ->
  (exists subfolder w',
     uploadFile env this localFilePath relativeFilePath w = (Ok tt, w') /\
     w_bucket w' !!
       (up_bucket this,
        categoryOf this ++ lit "/" ++ subfolder ++ lit "/" ++
        Path.basename localFilePath) =
       Some {| obj_Body := body;
               obj_ContentType := getMimeType localFilePath |} /\
     (subfolder = lit "documents" <->
      toLowerCase (Path.extname (Path.basename localFilePath)) = lit ".pdf") /\
     (subfolder = lit "images" <->
      In (toLowerCase (Path.extname (Path.basename localFilePath)))
        [lit ".jpg"; lit ".jpeg"; lit ".png"; lit ".gif"; lit ".webp"])) /\
  getS3Key (lit "manual.pdf") (lit "misc") = lit "misc/documents/manual.pdf" /\
  getS3Key (lit "cover.png") (lit "misc") = lit "misc/images/cover.png".
Proof.
  intros Hreal Hread Hput Hext.
  split; [|split; vm_compute; reflexivity].
  set (ext := toLowerCase (Path.extname (Path.basename localFilePath))) in *.
  exists (if JS.eqb ext (lit ".pdf") then lit "documents" else lit "images").
  eexists. split; [apply uploadFile_stored; eassumption|].
  split.
  { simpl. unfold store. apply lookup_insert_eq. }
  unfold has, validExtensions in Hext. simpl in Hext.
  rewrite !orb_true_iff in Hext.
  destruct (JS.eqb ext (lit ".pdf")) eqn:Hpdf.
  - apply eqb_eq in Hpdf. split.
    + split; auto.
    + split; [intros H; apply eqb_eq in H; vm_compute in H; discriminate|].
      rewrite Hpdf. intros H. simpl in H.
      repeat (destruct H as [H|H];
              [apply eqb_eq in H; vm_compute in H; discriminate|]).
      destruct H.
  - split.
    + split; [intros H; apply eqb_eq in H; vm_compute in H; discriminate|].
      intros H. apply eqb_eq in H. congruence.
    + split; auto. intros _. simpl.
      destruct Hext as [H|[H|[H|[H|[H|[H|H]]]]]];
        try discriminate; try congruence; apply eqb_eq in H; auto 10.
Qed.

Lemma upload_key_layout_witness :
  exists subfolder w',
    uploadFile (calm_env two_folders readable) uploader (lit "pdfs/a/c.PNG")
      (lit "a/c.PNG") empty_world = (Ok tt, w') /\
    w_bucket w' !!
      (lit "cmdiy-archive",
       lit "misc" ++ lit "/" ++ subfolder ++ lit "/" ++ lit "c.PNG") =
      Some {| obj_Body := lit "pdfs/a/c.PNG";
              obj_ContentType := lit "image/png" |} /\
    subfolder = lit "images".
Proof.
  destruct (upload_key_layout (calm_env two_folders readable) uploader
              (lit "pdfs/a/c.PNG") (lit "a/c.PNG") (lit "pdfs/a/c.PNG")
              empty_world)
    as [(subfolder & w' & Hrun & Hobj & _ & Himg) _].
  - vm_compute; reflexivity.
  - vm_compute; reflexivity.
  - vm_compute; reflexivity.
  - vm_compute; reflexivity.
  - exists subfolder, w'. split; [exact Hrun|]. split; [exact Hobj|].
    apply Himg. vm_compute. do 2 right. left. reflexivity.
Defined.

Lemma two_folders_enumerated (content : jsstring -> outcome Buffer) :
  enumerated (calm_env two_folders content) uploader = Ok two_folders_files.
Proof. vm_compute. reflexivity. Qed.

(** C7.  Over the items the walker enumerates, a dry run of [uploadAll]
    completes, sends nothing to S3 and leaves the bucket as it was; for
    every item it logs the key [uploadFile] derives, which is the key of
    the Put a completed real run sends for that item; and it reports the
    same number of processed files as a completed real run. *)
Theorem dry_run_upload (env : Env) (this : UploadOptions)
  (files : list WalkItem) (w : World) :
  enumerated env this = Ok files ->
  exists wd,
    uploadAll env (with_dryRun true this) w = (Ok tt, wd) /\
    w_sent wd = w_sent w /\
    w_bucket wd = w_bucket w /\
    (forall f, In f files ->
       In (entry Info [] None
             (lit "[DRY RUN] Would upload: " ++ fullPath f ++
              lit " -> s3://" ++ up_bucket this ++ lit "/" ++
              s3KeyOf this (fullPath f)))
          (w_log wd)) /\
    (files <> [] -> In (completedLine (length files)) (w_log wd)) /\
    forall wr,
      uploadAll env (with_dryRun false this) w = (Ok tt, wr) ->
      (exists puts,
         w_sent wr = w_sent w ++ List.map PutObject puts /\
         List.map put_Key puts =
           List.map (fun f => s3KeyOf this (fullPath f)) files) /\
      (files <> [] -> In (completedLine (length files)) (w_log wr)).
Proof.
  intros Hwalk. eexists.
  split; [apply (uploadAll_dry env (with_dryRun true this) files w eq_refl Hwalk)|].
  split; [reflexivity|]. split; [reflexivity|]. split; [|split].
  - intros f Hf. simpl. apply List.in_or_app. right.
    destruct files as [|g rest]; [destruct Hf|].
    do 3 right. apply List.in_or_app. left.
    apply (List.in_map (fun f0 => dryLine (with_dryRun true this) (fullPath f0))
             _ _ Hf).
  - intros Hne. simpl. apply List.in_or_app. right.
    destruct files as [|g rest]; [congruence|].
    do 3 right. apply List.in_or_app. right. left. reflexivity.
  - intros wr Hreal. destruct files as [|g rest].
    + rewrite (uploadAll_none env (with_dryRun false this) w eq_refl Hwalk)
        in Hreal.
      injection Hreal as <-. split; [|congruence].
      exists []. simpl. rewrite app_nil_r. auto.
    + rewrite (uploadAll_real env (with_dryRun false this) (g :: rest) w
                 eq_refl Hwalk) in Hreal by discriminate.
      destruct (pr_error (progress env (with_dryRun false this) (g :: rest)))
        eqn:Herr; [discriminate|].
      injection Hreal as <-.
      destruct (progress_complete env (with_dryRun false this) _ Herr)
        as [_ Hkeys].
      split.
      * eexists. split; [reflexivity|]. exact Hkeys.
      * intros _. simpl. apply List.in_or_app. right. left. reflexivity.
Qed.

Lemma dry_run_upload_witness :
  exists wd,
    uploadAll (calm_env two_folders readable) (with_dryRun true uploader)
      empty_world = (Ok tt, wd) /\
    w_sent wd = [] /\
    In (completedLine 3) (w_log wd).
Proof.
  destruct (dry_run_upload (calm_env two_folders readable) uploader
              two_folders_files empty_world (two_folders_enumerated readable))
    as (wd & Hrun & Hsent & _ & _ & Hdone & _).
  exists wd. split; [exact Hrun|]. split; [exact Hsent|].
  apply Hdone. discriminate.
Defined.

(** C10.  A dry run of [uploadFile] returns before the file is read: for a
    file that cannot be read it succeeds, while the real run throws the
    read error, before any Put is sent; the same holds of a whole batch
    with such an item. *)
Theorem dry_run_skips_read (env : Env) (this : UploadOptions)
  (localFilePath relativeFilePath : jsstring) (e : Error) (w : World) :
  fs_readFile env localFilePath = Rejected e ->
  uploadFile env (with_dryRun true this) localFilePath relativeFilePath w =
    (Ok tt, add_log [dryLine this localFilePath] w) /\
  uploadFile env (with_dryRun false this) localFilePath relativeFilePath w =
    (Err e, add_log [failedLine localFilePath e] w) /\
  forall files f,
    enumerated env this = Ok files ->
    In f files -> fullPath f = localFilePath ->
    fst (uploadAll env (with_dryRun true this) w) = Ok tt /\
    exists e', fst (uploadAll env (with_dryRun false this) w) = Err e'.
Proof.
  intros Hread. split; [|split].
  - apply (uploadFile_dry env (with_dryRun true this)). reflexivity.
  - apply (uploadFile_unreadable env (with_dryRun false this));
      [reflexivity | exact Hread].
  - intros files f Hwalk Hin Hf. subst localFilePath. split.
    + rewrite (uploadAll_dry env (with_dryRun true this) files w eq_refl Hwalk).
      reflexivity.
    + rewrite (uploadAll_real env (with_dryRun false this) files w
                 eq_refl Hwalk)
        by (intros ->; destruct Hin).
      pose proof (progress_unreadable env (with_dryRun false this)
                    files f e Hin Hread) as Herr.
      destruct (pr_error (progress env (with_dryRun false this) files))
        as [e'|]; [|congruence].
      exists e'. reflexivity.
Qed.

Lemma dry_run_skips_read_witness :
  uploadFile (calm_env two_folders one_unreadable) (with_dryRun true uploader)
    (lit "pdfs/b/x.pdf") (lit "b/x.pdf") empty_world =
    (Ok tt, add_log [dryLine uploader (lit "pdfs/b/x.pdf")] empty_world) /\
  fst (uploadFile (calm_env two_folders one_unreadable)
         (with_dryRun false uploader) (lit "pdfs/b/x.pdf") (lit "b/x.pdf")
         empty_world) =
    Err (SystemError (lit "EACCES") (lit "pdfs/b/x.pdf")).
Proof.
  destruct (dry_run_skips_read (calm_env two_folders one_unreadable) uploader
              (lit "pdfs/b/x.pdf") (lit "b/x.pdf")
              (SystemError (lit "EACCES") (lit "pdfs/b/x.pdf")) empty_world)
    as (Hdry & Hreal & _).
  - vm_compute. reflexivity.
  - split; [exact Hdry|]. rewrite Hreal. reflexivity.
Defined.

Lemma fold_left_store_last (cs : list PutObjectCommand) (c : PutObjectCommand)
  (b : gmap (jsstring * jsstring) S3Object) :
  fold_left store (cs ++ [c]) b !! (put_Bucket c, put_Key c) =
  Some {| obj_Body := put_Body c; obj_ContentType := put_ContentType c |}.
Proof.
  rewrite fold_left_app. simpl. unfold store at 1. apply lookup_insert_eq.
Qed.

Lemma fold_left_store_skip (cs : list PutObjectCommand)
  (b : gmap (jsstring * jsstring) S3Object) (k : jsstring * jsstring) :
  (forall c, In c cs -> (put_Bucket c, put_Key c) <> k) ->
  fold_left store cs b !! k = b !! k.
Proof.
  revert b. induction cs as [|c cs IH]; intros b Hcs; [reflexivity|].
  cbn [fold_left]. rewrite IH by (intros c' Hc'; apply Hcs; right; exact Hc').
  unfold store. apply lookup_insert_ne. apply Hcs. left. reflexivity.
Qed.

(** Every object stored is the object of one of the items. *)
Lemma stored_of_item (env : Env) (this : UploadOptions)
  (files : list WalkItem) (c : PutObjectCommand) :
  In c (pr_stored (progress env this files)) ->
  exists f body, In f files /\ c = putOf this (fullPath f) body.
Proof.
  induction files as [|f rest IH]; simpl; [intros []|].
  destruct (fs_readFile env (fullPath f)) as [body|e]; simpl; [|intros []].
  destruct (s3_put_fault env (putOf this (fullPath f) body)); simpl;
    [intros []|].
  intros [<-|Hc].
  - exists f, body. split; [left; reflexivity | reflexivity].
  - destruct (IH Hc) as (g & body' & Hg & Heq).
    exists g, body'. split; [right; exact Hg | exact Heq].
Qed.

(** A source tree with a file of the same name in two subdirectories and
    another file after them. *)
Definition three_folders : jsstring -> node :=
  staging
    [ (lit "a", Directory [(lit "x.pdf", File)]);
      (lit "b", Directory [(lit "x.pdf", File)]);
      (lit "c", Directory [(lit "z.png", File)]) ].

Lemma three_folders_enumerated (content : jsstring -> outcome Buffer) :
  enumerated (calm_env three_folders content) uploader =
  Ok [ {| fullPath := lit "pdfs/a/x.pdf"; relativePath := lit "a/x.pdf" |};
       {| fullPath := lit "pdfs/b/x.pdf"; relativePath := lit "b/x.pdf" |};
       {| fullPath := lit "pdfs/c/z.png"; relativePath := lit "c/z.png" |} ].
Proof. vm_compute. reflexivity. Qed.

(** C9.  The key of an upload depends on the base name of the file and on
    the category only; the relative path computed by the walker is not
    used.  Two enumerated files with the same base name get the same key,
    and after a completed real run the object under that key is the later
    of the two, when no file after it has that key again: of the files
    with one key, the last one enumerated is the one that stays. *)
Theorem same_name_same_key (env : Env) (this : UploadOptions)
  (a b : WalkItem) :
  Path.basename (fullPath a) = Path.basename (fullPath b) ->
  s3KeyOf this (fullPath a) = s3KeyOf this (fullPath b) /\
  (forall p rel rel' w,
     uploadFile env this p rel w = uploadFile env this p rel' w) /\
  forall pre mid post w w',
    truthy_flag (up_dryRun this) = false ->
    enumerated env this = Ok (pre ++ a :: mid ++ b :: post) ->
    (forall f, In f post ->
               s3KeyOf this (fullPath f) <> s3KeyOf this (fullPath b)) ->
    uploadAll env this w = (Ok tt, w') ->
    exists body,
      fs_readFile env (fullPath b) = Fulfilled body /\
      w_bucket w' !! (up_bucket this, s3KeyOf this (fullPath a)) =
        Some {| obj_Body := body;
                obj_ContentType := getMimeType (fullPath b) |}.
Proof.
  intros Hname. split; [|split].
  - unfold s3KeyOf. rewrite Hname. reflexivity.
  - reflexivity.
  - intros pre mid post w w' Hreal Hwalk Hlast Hrun.
    rewrite (uploadAll_real env this _ w Hreal Hwalk) in Hrun
      by (destruct pre; discriminate).
    destruct (pr_error (progress env this (pre ++ a :: mid ++ b :: post)))
      eqn:Herr; [discriminate|].
    injection Hrun as <-.
    replace (pre ++ a :: mid ++ b :: post)
      with (((pre ++ a :: mid) ++ [b]) ++ post) in *
      by (rewrite <- !app_assoc; reflexivity).
    destruct (progress_app env this _ _ Herr) as (Hfirst & _ & Hstored & _).
    destruct (progress_app env this _ _ Hfirst) as (_ & Hb & Hstored' & _).
    simpl in Hb, Hstored'.
    destruct (fs_readFile env (fullPath b)) as [body|e]; [|discriminate].
    exists body. split; [reflexivity|].
    simpl in Hb.
    destruct (s3_put_fault env (putOf this (fullPath b) body));
      [discriminate|].
    simpl in Hstored'.
    assert (Hkey : s3KeyOf this (fullPath a) = s3KeyOf this (fullPath b))
      by (unfold s3KeyOf; rewrite Hname; reflexivity).
    cbn [w_bucket add_log set_log after_progress set_bucket set_sent].
    rewrite Hstored, Hstored', Hkey, fold_left_app.
    rewrite fold_left_store_skip.
    + apply (fold_left_store_last _ (putOf this (fullPath b) body)).
    + intros c Hc.
      destruct (stored_of_item env this post c Hc) as (f & body' & Hf & ->).
      cbn [put_Bucket put_Key putOf]. intros Heq.
      apply (Hlast f Hf). congruence.
Qed.

Lemma same_name_same_key_witness :
  s3KeyOf uploader (lit "pdfs/a/x.pdf") = s3KeyOf uploader (lit "pdfs/b/x.pdf") /\
  exists w',
    uploadAll (calm_env three_folders readable) uploader empty_world =
      (Ok tt, w') /\
    w_bucket w' !! (lit "cmdiy-archive", lit "misc/documents/x.pdf") =
      Some {| obj_Body := lit "pdfs/b/x.pdf";
              obj_ContentType := lit "application/pdf" |}.
Proof.
  destruct (same_name_same_key (calm_env three_folders readable) uploader
              {| fullPath := lit "pdfs/a/x.pdf";
                 relativePath := lit "a/x.pdf" |}
              {| fullPath := lit "pdfs/b/x.pdf";
                 relativePath := lit "b/x.pdf" |})
    as (Hkey & _ & Hlast).
  - vm_compute. reflexivity.
  - split; [exact Hkey|].
    destruct (uploadAll (calm_env three_folders readable) uploader empty_world)
      as [r w'] eqn:Hrun.
    assert (Hr : r = Ok tt).
    { change r with (fst (r, w')). rewrite <- Hrun. vm_compute. reflexivity. }
    subst r. exists w'. split; [reflexivity|].
    destruct (Hlast [] []
                [{| fullPath := lit "pdfs/c/z.png";
                    relativePath := lit "c/z.png" |}]
                empty_world w' eq_refl (three_folders_enumerated readable))
      as (body & Hbody & Hobj).
    + intros f [<-|[]]. vm_compute. discriminate.
    + exact Hrun.
    + injection Hbody as <-. exact Hobj.
Defined.

(* ===================================================================== *)
(** ** Listing *)
(* ===================================================================== *)

Section Listing.

Variable env : Env.
Variable this : S3Downloader.

Definition listCommand (token : option jsstring) : ListObjectsV2Command :=
  {| list_Bucket := bucket this;
     list_Prefix := prefix this;
     list_ContinuationToken := token;
     list_MaxKeys := maxKeys this |}.

(** The service answers the request that carries [token] with the first of
    [pages], and each further page to the continuation token of the page
    before it; only the last page comes without a token. *)
Fixpoint serves (token : option jsstring) (pages : list ListObjectsV2Output)
  : Prop :=
  match pages with
  | [] => False
  | page :: rest =>
      s3_list env (listCommand token) = Fulfilled page /\
      match rest with
      | [] => truthy_opt (NextContinuationToken page) = false
      | _ :: _ =>
          truthy_opt (NextContinuationToken page) = true /\
          serves (NextContinuationToken page) rest
      end
  end.

(** The keys of a page. *)
Definition pageKeys (page : ListObjectsV2Output) : list jsstring :=
  match Contents page with
  | Some contents => pushKeys [] contents
  | None => []
  end.

(** The requests that fetch [pages], starting with [token]. *)
Fixpoint requestsOf (token : option jsstring)
  (pages : list ListObjectsV2Output) : list ListObjectsV2Command :=
  match pages with
  | [] => []
  | page :: rest =>
      listCommand token :: requestsOf (NextContinuationToken page) rest
  end.

Lemma pushKeys_app (objects : list jsstring)
  (contents : list (option jsstring)) :
  pushKeys objects contents = objects ++ pushKeys [] contents.
Proof.
  revert objects; induction contents as [|[Key|] rest IH]; intros objects;
    simpl.
  - rewrite app_nil_r. reflexivity.
  - destruct (truthy Key).
    + rewrite (IH (objects ++ [Key])), (IH [Key]), <- app_assoc. reflexivity.
    + apply IH.
  - apply IH.
Qed.

Lemma listObjects_loop_pages (pages : list ListObjectsV2Output) :
  forall fuel token objects w,
    serves token pages ->
    (length pages <= fuel)%nat ->
    listObjects_loop env this fuel token objects w =
    (Ok (objects ++ List.concat (List.map pageKeys pages)),
     set_sent
       (fun l => l ++ List.map ListObjectsV2 (requestsOf token pages)) w).
Proof.
  induction pages as [|page rest IH]; intros fuel token objects w Hserves Hfuel;
    [destruct Hserves|].
  destruct fuel as [|fuel]; [simpl in Hfuel; lia|].
  destruct Hserves as [Hpage Hrest].
  cbn [listObjects_loop]. fold (listCommand token).
  unfold bind, send_list. rewrite Hpage. cbn [await ret].
  assert (Hkeys :
            match Contents page with
            | Some contents => pushKeys objects contents
            | None => objects
            end = objects ++ pageKeys page).
  { unfold pageKeys. destruct (Contents page).
    - apply pushKeys_app.
    - rewrite app_nil_r. reflexivity. }
  rewrite Hkeys.
  destruct rest as [|page' rest'].
  - rewrite Hrest. simpl. rewrite app_nil_r. reflexivity.
  - destruct Hrest as [Hnext Hrest]. rewrite Hnext.
    rewrite (IH fuel _ _ _ Hrest) by (simpl in *; lia).
    f_equal.
    + f_equal. cbn [List.map List.concat]. rewrite <- app_assoc. reflexivity.
    + same_world.
Qed.

Lemma requestsOf_length token pages :
  length (requestsOf token pages) = length pages.
Proof.
  revert token; induction pages as [|page rest IH]; intros token; simpl;
    [reflexivity|]. rewrite IH. reflexivity.
Qed.

Lemma requestsOf_config token pages :
  Forall (fun c => list_Bucket c = bucket this /\
                   list_Prefix c = prefix this /\
                   list_MaxKeys c = maxKeys this)
    (requestsOf token pages).
Proof.
  revert token; induction pages as [|page rest IH]; intros token; simpl;
    constructor; auto.
Qed.

End Listing.

(** A listing service in the manner of S3 ListObjectsV2: a bucket holding
    [keys] answers a request with at most [MaxKeys] keys, starting where the
    continuation token says, and gives a token for the rest exactly when
    keys remain.  A token is the number of keys already served, written in
    unary. *)
Definition paged_listing (keys : list jsstring) (c : ListObjectsV2Command)
  : outcome ListObjectsV2Output :=
  let served :=
    match list_ContinuationToken c with
    | Some token => length token
    | None => O
    end in
  let rest := skipn served keys in
  let size := Z.to_nat (list_MaxKeys c) in
  Fulfilled
    {| Contents :=
         match firstn size rest with
         | [] => None
         | page => Some (List.map Some page)
         end;
       NextContinuationToken :=
         if (size <? length rest)%nat
         then Some (repeat 120%N (served + size))
         else None |}.

Section PagedListing.

Variable env : Env.
Variable this : S3Downloader.
Variable keys : list jsstring.
Variable size : nat.

Hypothesis Hservice : forall c, s3_list env c = paged_listing keys c.
Hypothesis Hsize : maxKeys this = Z.of_nat size.
Hypothesis Hpositive : (0 < size)%nat.
Hypothesis Hkeys : Forall (fun key => truthy key = true) keys.

(** The page that starts after [served] keys. *)
Definition pageAt (served : nat) : ListObjectsV2Output :=
  {| Contents :=
       match firstn size (skipn served keys) with
       | [] => None
       | page => Some (List.map Some page)
       end;
     NextContinuationToken :=
       if (size <? length (skipn served keys))%nat
       then Some (repeat 120%N (served + size))
       else None |}.

(** The pages from there on; [n] bounds their number. *)
Fixpoint pagesFrom (n served : nat) : list ListObjectsV2Output :=
  match n with
  | O => []
  | S n' =>
      pageAt served ::
      (if (size <? length (skipn served keys))%nat
       then pagesFrom n' (served + size)
       else [])
  end.

Definition served_by (token : option jsstring) : nat :=
  match token with Some t => length t | None => O end.

Lemma pagesFrom_serves (n : nat) :
  forall served token,
    served_by token = served ->
    (length keys - served < n)%nat ->
    serves env this token (pagesFrom n served).
Proof.
  induction n as [|n IH]; intros served token Htoken Hn; [lia|].
  cbn [pagesFrom serves]. split.
  - rewrite Hservice. unfold paged_listing, listCommand, pageAt; simpl.
    fold (served_by token). rewrite Htoken, Hsize, Nat2Z.id. reflexivity.
  - pose proof (length_skipn served keys) as Hrest.
    destruct (size <? length (skipn served keys))%nat eqn:Hmore.
    + apply Nat.ltb_lt in Hmore.
      destruct n as [|n]; [lia|].
      change (pagesFrom (S n) (served + size))
        with (pageAt (served + size) ::
              (if (size <? length (skipn (served + size) keys))%nat
               then pagesFrom n (served + size + size)
               else [])).
      split.
      * unfold pageAt; simpl. apply Nat.ltb_lt in Hmore. rewrite Hmore.
        destruct (served + size)%nat eqn:E; [lia | reflexivity].
      * change (pageAt (served + size) ::
                (if (size <? length (skipn (served + size) keys))%nat
                 then pagesFrom n (served + size + size)
                 else []))
          with (pagesFrom (S n) (served + size)).
        unfold pageAt at 1; simpl. apply Nat.ltb_lt in Hmore. rewrite Hmore.
        apply IH; [simpl; apply repeat_length | apply Nat.ltb_lt in Hmore; lia].
    + unfold pageAt; simpl. rewrite Hmore. reflexivity.
Qed.

Lemma pushKeys_truthy (l : list jsstring) :
  Forall (fun key => truthy key = true) l ->
  pushKeys [] (List.map Some l) = l.
Proof.
  induction 1 as [|key l Hkey _ IH]; simpl; [reflexivity|].
  rewrite Hkey, pushKeys_app, IH. reflexivity.
Qed.

Lemma Forall_skipn_firstn (served n : nat) :
  Forall (fun key => truthy key = true) (firstn n (skipn served keys)).
Proof.
  apply List.Forall_forall. intros key Hin.
  apply in_firstn_in, in_skipn_in in Hin.
  revert key Hin. apply List.Forall_forall. exact Hkeys.
Qed.

Lemma pageAt_keys (served : nat) :
  pageKeys (pageAt served) = firstn size (skipn served keys).
Proof.
  unfold pageKeys, pageAt; simpl.
  pose proof (Forall_skipn_firstn served size) as Hall.
  destruct (firstn size (skipn served keys)) as [|key page] eqn:E;
    [reflexivity|].
  apply (pushKeys_truthy (key :: page)). exact Hall.
Qed.

Lemma pagesFrom_keys (n : nat) :
  forall served,
    (length keys - served < n)%nat ->
    List.concat (List.map pageKeys (pagesFrom n served)) = skipn served keys.
Proof.
  induction n as [|n IH]; intros served Hn; [lia|].
  cbn [pagesFrom List.map List.concat]. rewrite pageAt_keys.
  pose proof (length_skipn served keys) as Hrest.
  destruct (size <? length (skipn served keys))%nat eqn:Hmore.
  - apply Nat.ltb_lt in Hmore.
    rewrite IH by lia.
    rewrite (Nat.add_comm served size), <- List.skipn_skipn.
    apply List.firstn_skipn.
  - apply Nat.ltb_ge in Hmore. cbn [List.map List.concat].
    rewrite app_nil_r. apply List.firstn_all2. exact Hmore.
Qed.

Lemma pagesFrom_length (n served : nat) :
  (length (pagesFrom n served) <= n)%nat.
Proof.
  clear Hservice Hsize Hpositive Hkeys.
  revert served; induction n as [|n IH]; intros served; simpl; [lia|].
  destruct (size <? length (skipn served keys))%nat; simpl;
    [specialize (IH (served + size)%nat)|]; lia.
Qed.

End PagedListing.

(** 2500 keys, k0 ... k2499. *)
Definition many_keys : list jsstring :=
  List.map (fun i => lit "k" ++ of_nat i) (seq 0 2500).

Definition listing_env : Env :=
  {| cwd := lit "/repo";
     fs_tree := fun p => Missing (no_entry p);
     fs_readFile := fun p => Rejected (no_entry p);
     fs_fault := fun _ => None;
     pdf2pic := fun p => Rejected (no_entry p);
     s3_put_fault := fun _ => None;
     s3_list := paged_listing many_keys;
     s3_get := fun c => Fulfilled (Readable [get_Key c]) |}.

(** The downloader the constructor builds for the bucket [cmdiy-archive]
    and the local path [./downloads], no region and no prefix given. *)
Definition downloader_config : S3DownloaderConfig :=
  {| dc_region := None;
     dc_bucket := lit "cmdiy-archive";
     dc_prefix := None;
     dc_localPath := lit "./downloads";
     dc_maxKeys := Some 1000 |}.

Definition downloader : S3Downloader :=
  {| region := lit "us-east-1";
     bucket := lit "cmdiy-archive";
     prefix := [];
     localPath := lit "./downloads";
     maxKeys := 1000 |}.

Lemma downloader_constructed : S3Downloader_new downloader_config = Ok downloader.
Proof. reflexivity. Qed.

(** An empty region is copied over the default, and the client refuses
    it. *)
Lemma S3Downloader_new_empty_region (config : S3DownloaderConfig) :
  dc_region config = Some [] ->
  S3Downloader_new config = Err (PlainError (lit "Region is missing")).
Proof. unfold S3Downloader_new. intros ->. reflexivity. Qed.

(** The three pages in which [many_keys] is served 1000 keys at a time. *)
Definition three_pages : list ListObjectsV2Output :=
  [ {| Contents := Some (List.map Some (firstn 1000 many_keys));
       NextContinuationToken := Some (repeat 120%N 1000) |};
    {| Contents := Some (List.map Some (firstn 1000 (skipn 1000 many_keys)));
       NextContinuationToken := Some (repeat 120%N 2000) |};
    {| Contents := Some (List.map Some (skipn 2000 many_keys));
       NextContinuationToken := None |} ].

(** C6.  [listObjects] follows the continuation tokens until a page comes
    without one: when the service answers in [pages], it returns the keys
    of all pages, concatenated in page order, after one request per page;
    every request carries the configured bucket, prefix and [maxKeys].
    [maxKeys] bounds a page and not the number of keys returned: from a
    service that holds [keys] and serves at most [maxKeys] of them per
    page, all of [keys] are returned. *)
Theorem listObjects_follows_pages :
  (forall env this pages fuel w,
     serves env this None pages ->
     (length pages <= fuel)%nat ->
     exists w',
       listObjects env this fuel w =
         (Ok (List.concat (List.map pageKeys pages)), w') /\
       w_sent w' =
         w_sent w ++ List.map ListObjectsV2 (requestsOf this None pages) /\
       length (requestsOf this None pages) = length pages /\
       Forall (fun c => list_Bucket c = bucket this /\
                        list_Prefix c = prefix this /\
                        list_MaxKeys c = maxKeys this)
         (requestsOf this None pages)) /\
  (forall env this keys fuel w,
     (forall c, s3_list env c = paged_listing keys c) ->
     0 < maxKeys this ->
     Forall (fun key => truthy key = true) keys ->
     (length keys < fuel)%nat ->
     exists w', listObjects env this fuel w = (Ok keys, w')).
Proof.
  split.
  - intros env this pages fuel w Hserves Hfuel.
    unfold listObjects, try_catch, bind.
    rewrite (listObjects_loop_pages env this pages fuel None [] w Hserves
               Hfuel).
    cbn [app logger_info logger ret]. eexists. split; [reflexivity|].
    split; [reflexivity|].
    split; [apply requestsOf_length | apply requestsOf_config].
  - intros env this keys fuel w Hservice Hmax Hkeys Hfuel.
    assert (Hsize : maxKeys this = Z.of_nat (Z.to_nat (maxKeys this)))
      by (rewrite Z2Nat.id; lia).
    assert (Hpositive : (0 < Z.to_nat (maxKeys this))%nat) by lia.
    pose proof (pagesFrom_serves env this keys _ Hservice Hsize Hpositive
                  fuel 0%nat None eq_refl) as Hserves.
    pose proof (pagesFrom_keys keys _ Hpositive Hkeys fuel 0%nat) as Hall.
    pose proof (pagesFrom_length keys (Z.to_nat (maxKeys this)) fuel 0%nat)
      as Hlen.
    unfold listObjects, try_catch, bind.
    rewrite (listObjects_loop_pages env this _ fuel None [] w
               (Hserves ltac:(lia)) Hlen).
    cbn [app logger_info logger ret].
    rewrite Hall by lia. cbn [skipn]. eexists. reflexivity.
Qed.

Lemma listObjects_follows_pages_witness :
  exists w',
    listObjects listing_env downloader 3 empty_world = (Ok many_keys, w') /\
    length many_keys = 2500%nat /\
    length (w_sent w') = 3%nat.
Proof.
  destruct (proj1 listObjects_follows_pages listing_env downloader three_pages
              3%nat empty_world) as (w' & Hrun & Hsent & Hlen & _).
  - repeat split; vm_compute; reflexivity.
  - vm_compute. lia.
  - exists w'. split; [|split].
    + replace many_keys
        with (List.concat (List.map pageKeys three_pages))
        by (vm_compute; reflexivity).
      exact Hrun.
    + vm_compute. reflexivity.
    + rewrite Hsent. cbn [w_sent empty_world app].
      rewrite length_map, Hlen. reflexivity.
Defined.

(* ===================================================================== *)
(** ** Preview generation *)
(* ===================================================================== *)

Section PreviewFacts.

Variable env : Env.
Variable this : ImagePreviewMaker.

Definition sourcePathOf (file : jsstring) : jsstring :=
  Path.join [source this; file].

Definition baseNameOf (file : jsstring) : jsstring :=
  Path.basename_suffix file (lit ".pdf").

Definition outputFilePathOf (file : jsstring) : jsstring :=
  Path.join [output this;
             baseNameOf file ++ lit "." ++ format (defaultOptions this)].

Definition tempFilePathOf (file : jsstring) : jsstring :=
  Path.join [output this;
             baseNameOf file ++ lit ".1." ++ format (defaultOptions this)].

Definition convertingLine (file : jsstring) : LogEntry :=
  entry Info [] None
    (lit "Converting " ++ file ++ lit " to " ++ format (defaultOptions this)).

Definition convertedLine (file : jsstring) : LogEntry :=
  entry Info [] None
    (lit "Converted " ++ Path.basename (sourcePathOf file) ++ lit " to " ++
     format (defaultOptions this) ++ lit " successfully").

(** The file the converter stores for [file], and the path it reports. *)
Definition storedFileOf (file : jsstring) : jsstring :=
  storedFile this (baseNameOf file) (output this).

Definition storedPathOf (file : jsstring) : jsstring :=
  storedPath this (baseNameOf file) (output this).

Definition savedLine (file : jsstring) : LogEntry :=
  entry Debug [] None (lit "Image saved at: " ++ storedPathOf file).

Definition errorLine (file : jsstring) (e : Error) : LogEntry :=
  entry Error_ [("file"%string, file)] (Some e)
    (lit "Error converting " ++ file).

(** How the conversion of one file ends when the file the converter stores
    is the file the rename looks for, [storedFileOf file = tempFilePathOf
    file]: with the image that becomes the preview, or with the error of
    the converter or of the rename. *)
Definition conversion (file : jsstring) : outcome Buffer :=
  match pdf2pic env (sourcePathOf file) with
  | Rejected e => Rejected e
  | Fulfilled image =>
      match fs_fault env (OpRename (tempFilePathOf file)
                            (outputFilePathOf file)) with
      | Some e => Rejected e
      | None => Fulfilled image
      end
  end.

(** The files after the turn of [file] in the loop of [createPreviews],
    [m] being the files before it.  The rename moves whatever is at
    [tempFilePathOf file] then; when nothing is, it fails. *)
Definition turnFiles (m : gmap jsstring FileData) (file : jsstring)
  : gmap jsstring FileData :=
  match pdf2pic env (sourcePathOf file) with
  | Rejected _ => m
  | Fulfilled image =>
      let m1 := <[ storedFileOf file := Bytes image ]> m in
      match fs_fault env (OpRename (tempFilePathOf file)
                            (outputFilePathOf file)) with
      | Some _ => m1
      | None =>
          match m1 !! tempFilePathOf file with
          | Some d =>
              <[ outputFilePathOf file := d ]> (delete (tempFilePathOf file) m1)
          | None => m1
          end
      end
  end.

(** The log entries of that turn. *)
Definition turnLog (m : gmap jsstring FileData) (file : jsstring)
  : list LogEntry :=
  match pdf2pic env (sourcePathOf file) with
  | Rejected e => [convertingLine file; errorLine file e]
  | Fulfilled image =>
      [convertingLine file; convertedLine file; savedLine file] ++
      match fs_fault env (OpRename (tempFilePathOf file)
                            (outputFilePathOf file)) with
      | Some e => [errorLine file e]
      | None =>
          match <[ storedFileOf file := Bytes image ]> m
                  !! tempFilePathOf file with
          | Some _ => []
          | None =>
              [errorLine file (SystemError (lit "ENOENT") (tempFilePathOf file))]
          end
      end
  end.

(** The world after one turn of the loop. *)
Definition converted (file : jsstring) (w : World) : World :=
  add_log (turnLog (w_files w) file)
    (set_files (fun m => turnFiles m file) w).

(** A turn of the loop never throws. *)
Lemma convertOne_run (file : jsstring) (w : World) :
  convertOne env this file w = (Ok tt, converted file w).
Proof.
  unfold convertOne, converted, turnLog, turnFiles, try_catch, bind,
    convertPdfToImage, bind, storeAsImage, rename.
  fold (sourcePathOf file). fold (baseNameOf file).
  fold (outputFilePathOf file). fold (tempFilePathOf file).
  fold (storedFileOf file). fold (storedPathOf file).
  unfold logger_info, logger_debug, logger_error, logger, add_log, set_log,
    set_files.
  destruct (pdf2pic env (sourcePathOf file)) as [image|e];
    cbv beta iota zeta; cbn [w_files w_log w_dirs w_sent w_bucket].
  - destruct (fs_fault env (OpRename (tempFilePathOf file)
                              (outputFilePathOf file))) as [e|];
      cbv beta iota zeta; cbn [w_files w_log w_dirs w_sent w_bucket].
    + rewrite <- !app_assoc. reflexivity.
    + destruct (<[ storedFileOf file := Bytes image ]> (w_files w)
                  !! tempFilePathOf file);
        cbv beta iota zeta; cbn [w_files w_log w_dirs w_sent w_bucket];
        rewrite <- ?app_assoc; reflexivity.
  - rewrite <- ?app_assoc. reflexivity.
Qed.

Lemma convertAll_run (files : list jsstring) (w : World) :
  for_of files (convertOne env this) w =
  (Ok tt, fold_left (fun w' file => converted file w') files w).
Proof.
  revert w; induction files as [|file rest IH]; intros w; simpl;
    [reflexivity|].
  unfold bind. rewrite convertOne_run. apply IH.
Qed.

Lemma converted_fields (file : jsstring) (w : World) :
  w_files (converted file w) = turnFiles (w_files w) file /\
  w_dirs (converted file w) = w_dirs w /\
  w_sent (converted file w) = w_sent w /\
  w_log (converted file w) = w_log w ++ turnLog (w_files w) file.
Proof. repeat split; reflexivity. Qed.

(** The log entries of the loop over [files], [m] being the files before
    it. *)
Fixpoint turnLogs (m : gmap jsstring FileData) (files : list jsstring)
  : list LogEntry :=
  match files with
  | [] => []
  | file :: rest => turnLog m file ++ turnLogs (turnFiles m file) rest
  end.

Lemma convertedAll_fields (files : list jsstring) (w : World) :
  w_files (fold_left (fun w' file => converted file w') files w) =
    fold_left turnFiles files (w_files w) /\
  w_dirs (fold_left (fun w' file => converted file w') files w) =
    w_dirs w /\
  w_sent (fold_left (fun w' file => converted file w') files w) =
    w_sent w /\
  w_log (fold_left (fun w' file => converted file w') files w) =
    w_log w ++ turnLogs (w_files w) files.
Proof.
  revert w. induction files as [|file files IH]; intros w.
  - cbn [fold_left turnLogs]. rewrite app_nil_r. repeat split; reflexivity.
  - cbn [fold_left turnLogs].
    destruct (IH (converted file w)) as (Hf & Hd & Hs & Hl).
    destruct (converted_fields file w) as (Hf1 & Hd1 & Hs1 & Hl1).
    rewrite Hf, Hd, Hs, Hl, Hf1, Hd1, Hs1, Hl1, <- app_assoc.
    repeat split; reflexivity.
Qed.


(** The entries of a turn whose converter's file is the one the rename
    looks for do not depend on the files before it. *)
Lemma turnLog_outcome (m : gmap jsstring FileData) (file : jsstring) :
  storedFileOf file = tempFilePathOf file ->
  match conversion file with
  | Fulfilled _ =>
      turnLog m file =
      [convertingLine file; convertedLine file; savedLine file]
  | Rejected e => In (errorLine file e) (turnLog m file)
  end.
Proof.
  intros Hstored. unfold conversion, turnLog.
  destruct (pdf2pic env _); [|right; left; reflexivity].
  destruct (fs_fault env _).
  - do 3 right. left. reflexivity.
  - rewrite Hstored, lookup_insert_eq. reflexivity.
Qed.



(** [createPreviews] over a listed source directory, when the output
    directory exists or can be created. *)
Lemma createPreviews_run (entries : list (jsstring * node)) (w : World) :
  fs_tree env (source this) = Directory entries ->
  fs_fault env (OpMkdir (output this)) = None ->
  let pdfFiles := List.filter isPdfName (List.map fst entries) in
  exists w0 w',
    createPreviews env this w = (Ok tt, w') /\
    w_files w0 = w_files w /\
    w_files w' = fold_left turnFiles pdfFiles (w_files w) /\
    w_log w' =
      w_log w0 ++
      match pdfFiles with
      | [] => [entry Info [] None (lit "No PDF files found in source directory")]
      | _ :: _ =>
          entry Info [] None
            (lit "Found " ++ of_nat (length pdfFiles) ++
             lit " PDF files to convert") ::
          turnLogs (w_files w) pdfFiles ++
          [entry Info [] None (lit "PDF conversion process completed")]
      end.
Proof.
  intros Htree Hmk pdfFiles.
  unfold createPreviews, try_catch, bind, ensureOutputDirectoryExists, bind,
    exists_, mkdir, readdir.
  rewrite Htree, Hmk. cbn [ret].
  change (List.filter isPdfName (List.map fst entries)) with pdfFiles.
  clearbody pdfFiles.
  set (there := bool_decide (output this ∈ w_dirs w) ||
                bool_decide (is_Some (w_files w !! output this))).
  exists (if there then w
          else set_dirs (fun d => {[ output this ]} ∪ d)
                 (add_log [entry Debug [] None
                             (lit "Creating output directory: " ++
                              output this)] w)).
  destruct there; cbn [negb logger_debug logger ret];
    (destruct pdfFiles as [|file rest];
     [ eexists; split; [reflexivity|]; repeat split; reflexivity
     | cbn [length Nat.eqb logger_info logger];
       rewrite convertAll_run; eexists; split; [reflexivity|];
       cbn [w_log w_files set_log];
       match goal with
       | |- context [fold_left _ ?l ?w0] =>
           destruct (convertedAll_fields l w0) as (Hf & _ & _ & Hl)
       end;
       rewrite Hf, Hl; cbn [w_log w_files set_log set_dirs add_log];
       rewrite <- !app_assoc; repeat split; reflexivity ]).
Qed.

End PreviewFacts.

(* ===================================================================== *)
(** ** Download *)
(* ===================================================================== *)

Section DownloadFacts.

Variable env : Env.
Variable this : S3Downloader.

Definition filePathOf (key : jsstring) : jsstring :=
  Path.join [localPath this; key].

Definition getCommand (key : jsstring) : GetObjectCommand :=
  {| get_Bucket := bucket this; get_Key := key |}.

(** The error [ensureDirectoryExists] lets through. *)
Definition mkdir_error (p : jsstring) : option Error :=
  match fs_fault env (OpMkdir p) with
  | Some e =>
      match error_code e with
      | Some code => if JS.eqb code (lit "EEXIST") then None else Some e
      | None => Some e
      end
  | None => None
  end.

(** The error with which the download of [key] fails. *)
Definition download_fault (key : jsstring) : option Error :=
  if isDirectoryKey key then None
  else
    match mkdir_error (Path.dirname (filePathOf key)) with
    | Some e => Some e
    | None =>
        match s3_get env (getCommand key) with
        | Rejected e => Some e
        | Fulfilled NotReadable =>
            Some (PlainError (lit "Unexpected response body type"))
        | Fulfilled (Readable _) => fs_fault env (OpWriteFile (filePathOf key))
        end
    end.











Definition notDownloadedLine (e : Error) : LogEntry :=
  entry Error_ [] (Some e) (lit "Error during download process").


End DownloadFacts.

(* ===================================================================== *)
(** ** Failure of one item of a batch *)
(* ===================================================================== *)

Section UploadFault.

Variable env : Env.
Variable this : UploadOptions.




End UploadFault.

Section DownloadRequests.

Variable env : Env.
Variable this : S3Downloader.



End DownloadRequests.



(* ===================================================================== *)
(** ** Names that are already slugs, and the characters of the URLs *)
(* ===================================================================== *)

Lemma slug_unit_not_whitespace c :
  is_slug_unit c = true -> is_whitespace c = false.
Proof.
  unfold is_slug_unit, is_whitespace. intros H.
  apply not_true_iff_false. intros Hw.
  rewrite ?orb_true_iff, ?andb_true_iff, ?N.leb_le, ?N.eqb_eq in H.
  rewrite ?orb_true_iff, ?andb_true_iff, ?N.leb_le, ?N.eqb_eq in Hw.
  lia.
Qed.

Lemma trimStart_id s :
  Forall (fun c => is_whitespace c = false) s -> trimStart s = s.
Proof.
  intros H. destruct H as [|c s Hc _]; simpl; [reflexivity|].
  rewrite Hc. reflexivity.
Qed.

Lemma trim_id s : Forall (fun c => is_whitespace c = false) s -> trim s = s.
Proof.
  intros H. unfold trim, trimEnd.
  rewrite (trimStart_id s H), trimStart_id.
  - apply rev_involutive.
  - apply List.Forall_rev. exact H.
Qed.

Lemma replace_ws_from_id by_ b s :
  Forall (fun c => is_whitespace c = false) s -> replace_ws_from by_ b s = s.
Proof.
  intros H. revert b.
  induction H as [|c s Hc _ IH]; intros b; simpl; [reflexivity|].
  rewrite Hc. f_equal. apply IH.
Qed.

Lemma remove_non_slug_id s :
  Forall (fun c => is_slug_unit c = true) s -> remove_non_slug s = s.
Proof.
  unfold remove_non_slug.
  induction 1 as [|c s Hc _ IH]; simpl; [reflexivity|].
  rewrite Hc. f_equal. exact IH.
Qed.

(** X1.  A name whose stem is already a slug keeps it: when the text before
    the last dot has only characters of [A-Za-z0-9-], that text is both the
    slug and the title, whatever the extension is. *)
Theorem slug_of_slug_stem (this : DirectoryMaker) (stem ext : jsstring) :
  Forall (fun c => is_slug_unit c = true) stem ->
  ~ In Path.dot ext ->
  sanitizedFileName (extractMetadata this (stem ++ Path.dot :: ext)) = stem /\
  sanitizedTitle (extractMetadata this (stem ++ Path.dot :: ext)) = stem.
Proof.
  intros Hslug Hext.
  assert (Hws : Forall (fun c => is_whitespace c = false) stem).
  { eapply List.Forall_impl; [|exact Hslug].
    intros c. apply slug_unit_not_whitespace. }
  assert (Hstem : trim (substring (stem ++ Path.dot :: ext) 0
                          (lastIndexOf (stem ++ Path.dot :: ext) Path.dot))
                  = stem).
  { rewrite substring_lastIndexOf.
    - unfold spec_stripExtension. rewrite (beforeLast_app _ _ _ Hext).
      apply trim_id. exact Hws.
    - apply in_or_app. right. left. reflexivity. }
  unfold extractMetadata; simpl. rewrite Hstem. split; [|reflexivity].
  unfold replace_ws. rewrite (replace_ws_from_id _ _ _ Hws).
  apply remove_non_slug_id. exact Hslug.
Qed.

Lemma slug_of_slug_stem_witness :
  sanitizedFileName (extractMetadata mini (lit "ADK-1152" ++ Path.dot :: lit "pdf"))
    = lit "ADK-1152".
Proof.
  apply (slug_of_slug_stem mini (lit "ADK-1152") (lit "pdf")).
  - vm_compute. repeat constructor.
  - vm_compute. lia.
Defined.

Lemma replace_ws_from_no_whitespace by_ b s :
  Forall (fun c => is_whitespace c = false) by_ ->
  Forall (fun c => is_whitespace c = false) (replace_ws_from by_ b s).
Proof.
  intros Hby. revert b.
  induction s as [|c s IH]; intros b; simpl; [constructor|].
  destruct (is_whitespace c) eqn:E.
  - apply List.Forall_app. split; [|apply IH].
    destruct b; [constructor | exact Hby].
  - constructor; [exact E | apply IH].
Qed.

Lemma no_whitespace_check (s : jsstring) :
  forallb (fun c => negb (is_whitespace c)) s = true ->
  Forall (fun c => is_whitespace c = false) s.
Proof.
  induction s as [|c s IH]; simpl; [constructor|].
  rewrite andb_true_iff, negb_true_iff. intros [Hc Hs].
  constructor; [exact Hc | exact (IH Hs)].
Qed.

(** X2.  The two URLs of a record have no whitespace of their own: when the
    base URL and the prefix contain none, neither [awsImage] nor [download]
    contains a whitespace character, whatever the file name is. *)
Theorem urls_without_whitespace (this : DirectoryMaker) (filename : jsstring) :
  Forall (fun c => is_whitespace c = false) (dm_awsLocation this) ->
  Forall (fun c => is_whitespace c = false) (dm_prefix this) ->
  Forall (fun c => is_whitespace c = false)
    (awsImage (extractMetadata this filename)) /\
  Forall (fun c => is_whitespace c = false)
    (download (extractMetadata this filename)).
Proof.
  intros Hbase Hprefix.
  assert (Hplus : Forall (fun c => is_whitespace c = false) (lit "+")).
  { apply no_whitespace_check. vm_compute. reflexivity. }
  unfold extractMetadata. cbn [awsImage download]. unfold replace_ws.
  split.
  - apply List.Forall_app; split; [exact Hbase|].
    apply List.Forall_app; split;
      [apply no_whitespace_check; vm_compute; reflexivity|].
    apply List.Forall_app; split; [exact Hprefix|].
    apply List.Forall_app; split;
      [apply no_whitespace_check; vm_compute; reflexivity|].
    apply List.Forall_app; split;
      [apply replace_ws_from_no_whitespace; exact Hplus|].
    apply no_whitespace_check; vm_compute; reflexivity.
  - apply List.Forall_app; split; [exact Hbase|].
    apply List.Forall_app; split;
      [apply no_whitespace_check; vm_compute; reflexivity|].
    apply List.Forall_app; split; [exact Hprefix|].
    apply List.Forall_app; split;
      [apply no_whitespace_check; vm_compute; reflexivity|].
    apply replace_ws_from_no_whitespace; exact Hplus.
Qed.

Lemma urls_without_whitespace_witness :
  Forall (fun c => is_whitespace c = false)
    (download (extractMetadata mini (lit "ADK 1152  v2.pdf"))).
Proof.
  apply (urls_without_whitespace mini (lit "ADK 1152  v2.pdf")).
  - apply no_whitespace_check. vm_compute. reflexivity.
  - apply no_whitespace_check. vm_compute. reflexivity.
Defined.

(** A text with no whitespace at either end. *)
Definition trimmed (s : jsstring) : Prop :=
  match s with c :: _ => is_whitespace c = false | [] => True end /\
  match rev s with c :: _ => is_whitespace c = false | [] => True end.

Lemma trim_trimmed (s : jsstring) :
  trimmed (trim s) /\ exists before after, s = before ++ trim s ++ after.
Proof.
  unfold trim, trimEnd.
  destruct (trimStart_split s) as (run1 & Hs & _ & Hhead).
  destruct (trimStart_split (rev (trimStart s))) as (run2 & Hr & _ & Hlast).
  set (t := trimStart s) in *. set (u := trimStart (rev t)) in *.
  assert (Ht : t = rev u ++ rev run2).
  { rewrite <- (rev_involutive t), Hr, rev_app_distr. reflexivity. }
  split; [split|].
  - destruct (rev u) as [|c r] eqn:E; [exact I|].
    rewrite Ht in Hhead. exact Hhead.
  - rewrite rev_involutive. exact Hlast.
  - exists run1, (rev run2). rewrite <- Ht. exact Hs.
Qed.

Lemma firstn_skipn_part {A} (a n : nat) (l : list A) :
  l = firstn a l ++ firstn n (skipn a l) ++ skipn n (skipn a l).
Proof.
  rewrite List.firstn_skipn. symmetry. apply List.firstn_skipn.
Qed.

(** X3.  The title is a contiguous part of the file name, taken as it is,
    and it neither begins nor ends with whitespace. *)
Theorem title_is_trimmed_part (this : DirectoryMaker) (filename : jsstring) :
  trimmed (sanitizedTitle (extractMetadata this filename)) /\
  exists before after,
    filename = before ++ sanitizedTitle (extractMetadata this filename) ++ after.
Proof.
  unfold extractMetadata; simpl.
  set (stem := substring filename 0 (lastIndexOf filename Path.dot)).
  destruct (trim_trimmed stem) as [Htrim (b & a & Hstem)].
  split; [exact Htrim|].
  assert (Hsub : exists b' a', filename = b' ++ stem ++ a').
  { unfold stem, substring. eexists _, _. apply firstn_skipn_part. }
  destruct Hsub as (b' & a' & Hfile).
  exists (b' ++ b), (a ++ a').
  rewrite Hfile at 1. rewrite Hstem at 1.
  rewrite <- !app_assoc. reflexivity.
Qed.

(* ===================================================================== *)
(** ** The last component of a path and its extension *)
(* ===================================================================== *)

(** A name as [readdir] gives it: not empty, without a separator, and
    neither '.' nor '..'. *)
Definition is_entry_name (name : jsstring) : bool :=
  truthy name && forallb (fun c => negb (N.eqb c Path.slash)) name &&
  negb (JS.eqb name (lit ".")) && negb (JS.eqb name (lit "..")).

(** The loops of [basename] and [extname] visit a path from its end.  When
    [visited pre suf] is the state after the characters [suf] that follow
    [pre], and one more character that is not a separator is visited as
    [step] says, then the loop takes the state from any point of a last
    component to the beginning of that component. *)
Lemma for_down_visit {S : Type} (body : jsstring -> Z -> S -> S * bool)
  (visited : jsstring -> jsstring -> S) :
  (forall pre c rest,
     N.eqb c Path.slash = false ->
     body (pre ++ c :: rest) (Z.of_nat (length pre)) (visited (pre ++ [c]) rest)
     = (visited pre (c :: rest), false)) ->
  forall dir pre suf,
    forallb (fun c => negb (N.eqb c Path.slash)) pre = true ->
    Path.for_down (body (dir ++ pre ++ suf)) (length dir + length pre)
      (visited (dir ++ pre) suf) =
    Path.for_down (body (dir ++ pre ++ suf)) (length dir)
      (visited dir (pre ++ suf)).
Proof.
  intros Hstep dir pre.
  induction pre as [|c pre IH] using rev_ind; intros suf Hpre.
  - simpl. rewrite Nat.add_0_r, app_nil_r. reflexivity.
  - rewrite forallb_app in Hpre. apply andb_true_iff in Hpre.
    destruct Hpre as [Hpre Hc]. simpl in Hc.
    rewrite andb_true_r, negb_true_iff in Hc.
    rewrite length_app. simpl length.
    replace (length dir + (length pre + 1))%nat
      with (Datatypes.S (length (dir ++ pre)))
      by (rewrite length_app; lia).
    cbn [Path.for_down].
    replace (dir ++ (pre ++ [c]) ++ suf) with ((dir ++ pre) ++ c :: suf)
      by (rewrite <- !app_assoc; reflexivity).
    replace (dir ++ pre ++ [c]) with ((dir ++ pre) ++ [c])
      by (rewrite <- !app_assoc; reflexivity).
    rewrite (Hstep (dir ++ pre) c suf Hc).
    rewrite length_app.
    replace ((dir ++ pre) ++ c :: suf) with (dir ++ pre ++ c :: suf)
      by (rewrite <- !app_assoc; reflexivity).
    rewrite (IH (c :: suf) Hpre).
    replace ((pre ++ [c]) ++ suf) with (pre ++ c :: suf)
      by (rewrite <- !app_assoc; reflexivity).
    reflexivity.
Qed.

Lemma of_nat_not_minus_one (n : nat) : (Z.of_nat n =? -1) = false.
Proof. apply Z.eqb_neq. lia. Qed.

(** The state of the loop of [basename] after the characters [suf]. *)
Definition base_visited (pre suf : jsstring) : Path.basename_st :=
  match suf with
  | [] => {| Path.b_start := 0; Path.b_end := -1;
             Path.b_matchedSlash := true |}
  | _ :: _ =>
      {| Path.b_start := 0;
         Path.b_end := Z.of_nat (length pre + length suf);
         Path.b_matchedSlash := false |}
  end.

Lemma basename_body_visit pre c rest :
  N.eqb c Path.slash = false ->
  Path.basename_body (pre ++ c :: rest) (Z.of_nat (length pre))
    (base_visited (pre ++ [c]) rest)
  = (base_visited pre (c :: rest), false).
Proof.
  intros Hc. unfold Path.basename_body, Path.charCodeAt.
  rewrite Nat2Z.id, nth_middle, Hc.
  destruct rest as [|d rest]; simpl.
  - do 2 f_equal. unfold code_unit. lia.
  - rewrite of_nat_not_minus_one. do 2 f_equal.
    rewrite length_app. simpl. unfold code_unit. lia.
Qed.

Lemma skipn_app_all {A} (l1 l2 : list A) : skipn (length l1) (l1 ++ l2) = l2.
Proof. induction l1; simpl; auto. Qed.

Lemma firstn_exact {A} (l : list A) : firstn (length l) l = l.
Proof. induction l; simpl; congruence. Qed.

Lemma basename_loop_break d rest st n :
  n = Datatypes.S (length d) ->
  Path.b_matchedSlash st = false ->
  Path.for_down (Path.basename_body (d ++ Path.slash :: rest)) n st =
  {| Path.b_start := Z.of_nat (length d) + 1;
     Path.b_end := Path.b_end st;
     Path.b_matchedSlash := Path.b_matchedSlash st |}.
Proof.
  intros -> H. cbn [Path.for_down].
  unfold Path.basename_body, Path.charCodeAt.
  rewrite Nat2Z.id, nth_middle, N.eqb_refl, H. reflexivity.
Qed.

(** [basename] of a path that ends with a name after a separator, or is the
    name, gives the name. *)
Lemma basename_last_component (dir name : jsstring) :
  name <> [] ->
  forallb (fun c => negb (N.eqb c Path.slash)) name = true ->
  dir = [] \/ (exists d, dir = d ++ [Path.slash]) ->
  Path.basename (dir ++ name) = name.
Proof.
  intros Hne Hname Hdir. unfold Path.basename.
  match goal with
  | |- context [Path.for_down ?b ?n ?i] =>
      replace (Path.for_down b n i)
        with (Path.for_down (Path.basename_body (dir ++ name)) (length dir)
                (base_visited dir name))
  end.
  2: { symmetry.
       pose proof (for_down_visit Path.basename_body base_visited
                     basename_body_visit dir name [] Hname) as H.
       rewrite !app_nil_r in H. rewrite length_app. exact H. }
  destruct name as [|c name]; [congruence|].
  destruct Hdir as [-> | [d ->]].
  - simpl Path.for_down. cbn [base_visited Path.b_end Path.b_start].
    rewrite of_nat_not_minus_one. unfold Path.slice.
    simpl length. rewrite Z.sub_0_r, Nat2Z.id. simpl skipn. simpl app.
    exact (firstn_exact (c :: name)).
  - match goal with
    | |- context [Path.for_down ?b ?n ?i] =>
        replace (Path.for_down b n i)
          with {| Path.b_start := Z.of_nat (length d) + 1;
                  Path.b_end :=
                    Z.of_nat (length (d ++ [Path.slash]) + length (c :: name));
                  Path.b_matchedSlash := false |}
    end.
    2: { symmetry. rewrite <- app_assoc. simpl app.
         rewrite (basename_loop_break d (c :: name) _ _);
           [reflexivity | rewrite length_app; simpl; lia | reflexivity]. }
    cbn [Path.b_end Path.b_start].
    rewrite of_nat_not_minus_one. unfold Path.slice.
    replace (Z.to_nat (Z.of_nat (length (d ++ [Path.slash]) +
                                 length (c :: name)) -
                       (Z.of_nat (length d) + 1)))
      with (length (c :: name))
      by (rewrite length_app; simpl; lia).
    replace (Z.to_nat (Z.of_nat (length d) + 1))
      with (length (d ++ [Path.slash]))
      by (rewrite length_app; simpl; lia).
    rewrite skipn_app_all. exact (firstn_exact (c :: name)).
Qed.

(** The state of the loop of [extname] after the characters [suf]: the
    index of the last dot seen, and whether a character before that dot has
    been seen ([-1]), only dots ([1]) or none ([0]). *)
Definition ext_visited (pre suf : jsstring) : Path.extname_st :=
  match suf with
  | [] => {| Path.e_startDot := -1; Path.e_startPart := 0; Path.e_end := -1;
             Path.e_matchedSlash := true; Path.e_preDotState := 0 |}
  | c :: _ =>
      {| Path.e_startDot :=
           match beforeLast Path.dot suf with
           | Some r => Z.of_nat (length pre + length r)
           | None => -1
           end;
         Path.e_startPart := 0;
         Path.e_end := Z.of_nat (length pre + length suf);
         Path.e_matchedSlash := false;
         Path.e_preDotState :=
           match beforeLast Path.dot suf with
           | None | Some [] => 0
           | Some (_ :: _) => if N.eqb c Path.dot then 1 else -1
           end |}
  end.

Lemma extname_body_visit pre c rest :
  N.eqb c Path.slash = false ->
  Path.extname_body (pre ++ c :: rest) (Z.of_nat (length pre))
    (ext_visited (pre ++ [c]) rest)
  = (ext_visited pre (c :: rest), false).
Proof.
  intros Hc. unfold Path.extname_body, Path.charCodeAt.
  rewrite Nat2Z.id, nth_middle, Hc.
  destruct rest as [|d rest].
  - simpl. destruct (N.eqb c Path.dot); simpl;
      do 2 f_equal; unfold code_unit; lia.
  - cbn [ext_visited Path.e_end]. rewrite of_nat_not_minus_one.
    change (beforeLast Path.dot (c :: d :: rest))
      with (match beforeLast Path.dot (d :: rest) with
            | Some r => Some (c :: r)
            | None => if N.eqb c Path.dot then Some [] else None
            end).
    destruct (beforeLast Path.dot (d :: rest)) as [r|] eqn:E;
      destruct (N.eqb c Path.dot) eqn:Ec;
      cbn [Path.e_startDot Path.e_startPart Path.e_end Path.e_matchedSlash
           Path.e_preDotState];
      rewrite ?of_nat_not_minus_one; cbn [negb].
    + destruct r as [|x r]; [|destruct (N.eqb d Path.dot)];
        simpl Z.eqb; cbn [negb];
        do 2 f_equal; rewrite ?length_app; simpl; unfold code_unit; lia.
    + do 2 f_equal; rewrite ?length_app; simpl; unfold code_unit; lia.
    + simpl Z.eqb. cbn iota. do 2 f_equal;
        rewrite ?length_app; simpl; unfold code_unit; lia.
    + simpl Z.eqb. cbn [negb]. do 2 f_equal;
        rewrite ?length_app; simpl; unfold code_unit; lia.
Qed.

Lemma extname_loop_break d rest st n :
  n = Datatypes.S (length d) ->
  Path.e_matchedSlash st = false ->
  Path.for_down (Path.extname_body (d ++ Path.slash :: rest)) n st =
  {| Path.e_startDot := Path.e_startDot st;
     Path.e_startPart := Z.of_nat (length d) + 1;
     Path.e_end := Path.e_end st;
     Path.e_matchedSlash := Path.e_matchedSlash st;
     Path.e_preDotState := Path.e_preDotState st |}.
Proof.
  intros -> H. cbn [Path.for_down].
  unfold Path.extname_body, Path.charCodeAt.
  rewrite Nat2Z.id, nth_middle, N.eqb_refl, H. reflexivity.
Qed.

(** What [extname] gives for a name without a separator: the text from the
    last dot on, unless that dot opens the name or the name is '..'. *)
Definition extension (name : jsstring) : jsstring :=
  match beforeLast Path.dot name with
  | None | Some [] => []
  | Some (x :: r) =>
      if JS.eqb name (lit "..") then [] else skipn (length (x :: r)) name
  end.

Lemma extname_last_component (dir name : jsstring) :
  name <> [] ->
  forallb (fun c => negb (N.eqb c Path.slash)) name = true ->
  dir = [] \/ (exists d, dir = d ++ [Path.slash]) ->
  Path.extname (dir ++ name) = extension name.
Proof.
  intros Hne Hname Hdir. unfold Path.extname.
  match goal with
  | |- context [Path.for_down ?b ?n ?i] =>
      replace (Path.for_down b n i)
        with {| Path.e_startDot := Path.e_startDot (ext_visited dir name);
                Path.e_startPart := Z.of_nat (length dir);
                Path.e_end := Path.e_end (ext_visited dir name);
                Path.e_matchedSlash := false;
                Path.e_preDotState :=
                  Path.e_preDotState (ext_visited dir name) |}
  end.
  2: { symmetry.
       pose proof (for_down_visit Path.extname_body ext_visited
                     extname_body_visit dir name [] Hname) as H.
       rewrite !app_nil_r in H. rewrite length_app.
       etransitivity; [exact H|]. clear H.
       destruct name as [|c name]; [congruence|].
       destruct Hdir as [-> | [d ->]]; [reflexivity|].
       rewrite <- app_assoc. simpl app.
       rewrite (extname_loop_break d (c :: name) _ _);
         [ | rewrite length_app; simpl; lia | reflexivity].
       f_equal. rewrite length_app. simpl. lia. }
  destruct name as [|c name]; [congruence|].
  cbn [ext_visited Path.e_startDot Path.e_startPart Path.e_end
       Path.e_preDotState].
  rewrite of_nat_not_minus_one. unfold extension.
  destruct (beforeLast Path.dot (c :: name)) as [[|x r]|] eqn:E;
    [rewrite of_nat_not_minus_one; reflexivity | | reflexivity].
  rewrite of_nat_not_minus_one.
  destruct (beforeLast_Some _ _ _ E) as [rest Hrest].
  injection Hrest as Hx Hname'. subst x.
  assert (Hslice :
    Path.slice (dir ++ c :: name)
      (Z.of_nat (length dir + length (c :: r)))
      (Z.of_nat (length dir + length (c :: name))) =
    skipn (length (c :: r)) (c :: name)).
  { unfold Path.slice.
    rewrite Nat2Z.id, List.skipn_app, List.skipn_all2 by lia.
    replace (length dir + length (c :: r) - length dir)%nat
      with (length (c :: r)) by lia.
    simpl app. apply List.firstn_all2.
    rewrite List.length_skipn. simpl. lia. }
  rewrite Hslice. clear Hslice.
  destruct (JS.eqb (c :: name) (lit "..")) eqn:Edots.
  - apply eqb_eq in Edots.
    change (lit "..") with [Path.dot; Path.dot] in Edots.
    injection Edots as Hc Hn. subst c. rewrite Hname' in Hn.
    destruct r as [|y r]; [|destruct r; discriminate Hn].
    simpl in Hn. injection Hn as Hrest. subst rest. subst name.
    rewrite N.eqb_refl. simpl length. simpl Z.eqb. cbn [orb andb].
    replace (Z.of_nat (length dir + 1) =? Z.of_nat (length dir + 2) - 1)
      with true by (symmetry; apply Z.eqb_eq; lia).
    replace (Z.of_nat (length dir + 1) =? Z.of_nat (length dir) + 1)
      with true by (symmetry; apply Z.eqb_eq; lia).
    reflexivity.
  - apply eqb_neq in Edots.
    destruct (N.eqb c Path.dot) eqn:Ec; [|reflexivity].
    apply N.eqb_eq in Ec. subst c.
    simpl Z.eqb. cbn [orb andb].
    match goal with
    | |- context [Z.eqb ?a ?b && _] =>
        destruct (Z.eqb_spec a b) as [H1|H1]
    end; [|reflexivity].
    cbn [andb].
    match goal with
    | |- context [Z.eqb ?a ?b] => destruct (Z.eqb_spec a b) as [H2|H2]
    end; [|reflexivity].
    exfalso. apply Edots.
    simpl in H1, H2. rewrite Hname' in H1. rewrite length_app in H1.
    simpl in H1.
    destruct r as [|y r]; [|simpl in H2; lia].
    destruct rest as [|z rest]; [|simpl in H1; lia].
    rewrite Hname'. reflexivity.
Qed.

(** *** [path.join] of a directory and an entry name *)

Lemma split_not_nil (s : jsstring) : Path.split s <> [].
Proof.
  destruct s as [|c s]; simpl; [discriminate|].
  destruct (N.eqb c Path.slash); [discriminate|].
  destruct (Path.split s); discriminate.
Qed.

Lemma split_app_slash (dir rest : jsstring) :
  Path.split (dir ++ Path.slash :: rest) = Path.split dir ++ Path.split rest.
Proof.
  induction dir as [|c dir IH]; simpl.
  - reflexivity.
  - destruct (N.eqb c Path.slash); [rewrite IH; reflexivity|].
    rewrite IH. pose proof (split_not_nil dir) as Hne.
    destruct (Path.split dir); [congruence|reflexivity].
Qed.

Lemma split_name (name : jsstring) :
  forallb (fun c => negb (N.eqb c Path.slash)) name = true ->
  Path.split name = [name].
Proof.
  induction name as [|c name IH]; simpl; [reflexivity|].
  rewrite andb_true_iff, negb_true_iff. intros [Hc Hname].
  rewrite Hc, (IH Hname). reflexivity.
Qed.

Lemma normalizeSegments_snoc allow segs name :
  JS.eqb name [] = false ->
  JS.eqb name (lit ".") = false ->
  JS.eqb name (lit "..") = false ->
  forall res,
    Path.normalizeSegments allow (segs ++ [name]) res =
    Path.normalizeSegments allow segs res ++ [name].
Proof.
  intros H0 H1 H2.
  induction segs as [|seg segs IH]; intros res; simpl.
  - rewrite H0, H1, H2. reflexivity.
  - destruct (JS.eqb seg [] || JS.eqb seg (lit ".")); [apply IH|].
    destruct (JS.eqb seg (lit "..")); [|apply IH].
    destruct res as [|top res]; [apply IH|].
    destruct (JS.eqb top (lit "..")); apply IH.
Qed.

Lemma unsplit_snoc (segs : list jsstring) (name : jsstring) :
  Path.unsplit (segs ++ [name]) =
  match segs with
  | [] => name
  | _ :: _ => Path.unsplit segs ++ Path.slash :: name
  end.
Proof.
  induction segs as [|seg segs IH]; [reflexivity|].
  destruct segs as [|seg' segs]; [reflexivity|].
  change (Path.unsplit ((seg :: seg' :: segs) ++ [name]))
    with (seg ++ Path.slash :: Path.unsplit ((seg' :: segs) ++ [name])).
  rewrite IH.
  change (Path.unsplit (seg :: seg' :: segs))
    with (seg ++ Path.slash :: Path.unsplit (seg' :: segs)).
  rewrite <- app_assoc. reflexivity.
Qed.

Lemma last_app_name (l name : jsstring) (d : code_unit) :
  name <> [] -> List.last (l ++ name) d = List.last name d.
Proof.
  intros Hne. induction l as [|x l IH]; [reflexivity|].
  simpl app. cbn [List.last].
  destruct (l ++ name) eqn:E; [|exact IH].
  destruct l; simpl in E; congruence.
Qed.

Lemma last_not_slash (name : jsstring) :
  forallb (fun c => negb (N.eqb c Path.slash)) name = true ->
  N.eqb (List.last name 0%N) Path.slash = false.
Proof.
  induction name as [|c name IH]; [reflexivity|].
  simpl forallb. rewrite andb_true_iff, negb_true_iff. intros [Hc Hname].
  cbn [List.last]. destruct name; [exact Hc | exact (IH Hname)].
Qed.

Lemma is_entry_name_parts (name : jsstring) :
  is_entry_name name = true ->
  name <> [] /\
  forallb (fun c => negb (N.eqb c Path.slash)) name = true /\
  JS.eqb name (lit ".") = false /\
  JS.eqb name (lit "..") = false.
Proof.
  unfold is_entry_name. rewrite !andb_true_iff, !negb_true_iff.
  intros [[[H0 H1] H2] H3]. repeat split; auto.
  intros ->. discriminate H0.
Qed.

(** What [join] puts before the name of an entry of [dir]: nothing for an
    empty [dir] or one that normalizes to nothing, otherwise the normalized
    [dir] and a separator. *)
Definition joined_prefix (dir : jsstring) : jsstring :=
  match dir with
  | [] => []
  | _ :: _ =>
      (if Path.isAbsolute dir then [Path.slash] else []) ++
      match Path.normalizeSegments (negb (Path.isAbsolute dir))
              (Path.split dir) [] with
      | [] => []
      | seg :: kept => Path.unsplit (seg :: kept) ++ [Path.slash]
      end
  end.

Lemma joined_prefix_shape (dir : jsstring) :
  joined_prefix dir = [] \/ exists d, joined_prefix dir = d ++ [Path.slash].
Proof.
  unfold joined_prefix. destruct dir as [|d0 dir]; [left; reflexivity|].
  destruct (Path.normalizeSegments _ _ []) as [|seg kept].
  - destruct (Path.isAbsolute (d0 :: dir)).
    + right. exists []. reflexivity.
    + left. reflexivity.
  - right. eexists. rewrite app_assoc. reflexivity.
Qed.

(** [normalize] keeps a last segment that is a name. *)
Lemma normalize_keeps_name (dir name : jsstring) :
  is_entry_name name = true ->
  Path.normalize
    (match dir with [] => name | _ :: _ => dir ++ Path.slash :: name end) =
  joined_prefix dir ++ name.
Proof.
  intros Hentry.
  destruct (is_entry_name_parts name Hentry) as (Hne & Hslash & Hdot & Hdots).
  assert (Hempty : JS.eqb name [] = false).
  { destruct name; [congruence|reflexivity]. }
  set (path0 := match dir with
                | [] => name
                | _ :: _ => dir ++ Path.slash :: name
                end).
  assert (Hsegs : Path.split path0 =
                  match dir with [] => [] | _ :: _ => Path.split dir end ++
                  [name]).
  { unfold path0. destruct dir as [|d0 dir].
    - apply split_name. exact Hslash.
    - rewrite split_app_slash, (split_name name Hslash). reflexivity. }
  assert (Hlast : N.eqb (List.last path0 0%N) Path.slash = false).
  { unfold path0. destruct dir as [|d0 dir].
    - apply last_not_slash. exact Hslash.
    - replace ((d0 :: dir) ++ Path.slash :: name)
        with (((d0 :: dir) ++ [Path.slash]) ++ name)
        by (rewrite <- app_assoc; reflexivity).
      rewrite (last_app_name _ _ _ Hne). apply last_not_slash. exact Hslash. }
  assert (Habs : Path.isAbsolute path0 =
                 match dir with [] => false | _ :: _ => Path.isAbsolute dir end).
  { unfold path0. destruct dir as [|d0 dir]; [|reflexivity].
    destruct name as [|n0 name']; [congruence|].
    simpl in Hslash. apply andb_true_iff in Hslash.
    destruct Hslash as [Hn0 _]. apply negb_true_iff in Hn0. exact Hn0. }
  unfold Path.normalize.
  destruct path0 as [|c0 path1] eqn:Epath.
  { unfold path0 in Epath. destruct dir as [|d0 dir]; [congruence|].
    discriminate Epath. }
  rewrite <- Epath in *. clear Epath c0 path1.
  rewrite Hlast. unfold Path.normalizeString.
  rewrite Hsegs, (normalizeSegments_snoc _ _ _ Hempty Hdot Hdots), unsplit_snoc.
  rewrite Habs. unfold joined_prefix.
  destruct dir as [|d0 dir].
  - cbn [Path.normalizeSegments rev].
    destruct name as [|n0 name']; [congruence|]. reflexivity.
  - destruct (Path.normalizeSegments _ (Path.split (d0 :: dir)) [])
      as [|seg kept].
    + destruct name as [|n0 name']; [congruence|].
      destruct (Path.isAbsolute (d0 :: dir)); reflexivity.
    + set (p := Path.unsplit (seg :: kept)).
      destruct (p ++ Path.slash :: name) as [|q0 q] eqn:Ep.
      { destruct p; discriminate Ep. }
      rewrite <- Ep.
      destruct (Path.isAbsolute (d0 :: dir)); simpl;
        rewrite <- app_assoc; reflexivity.
Qed.

(** The path the walker, the preview maker, the record writer and the
    downloader build for an entry of a directory: the same prefix for every
    name, then the name. *)
Lemma join_entry_prefix (dir name : jsstring) :
  is_entry_name name = true ->
  Path.join [dir; name] = joined_prefix dir ++ name.
Proof.
  intros Hentry.
  destruct (is_entry_name_parts name Hentry) as (Hne & _).
  assert (Ht : truthy name = true).
  { destruct name; [congruence|reflexivity]. }
  rewrite <- (normalize_keeps_name dir name Hentry).
  destruct dir as [|d0 dir];
    unfold Path.join; simpl List.filter; rewrite Ht; reflexivity.
Qed.

Lemma join_entry (dir name : jsstring) :
  is_entry_name name = true ->
  exists pre,
    Path.join [dir; name] = pre ++ name /\
    (pre = [] \/ exists d, pre = d ++ [Path.slash]).
Proof.
  intros Hentry. exists (joined_prefix dir).
  split; [apply join_entry_prefix; exact Hentry | apply joined_prefix_shape].
Qed.

Lemma basename_join_entry (dir name : jsstring) :
  is_entry_name name = true ->
  Path.basename (Path.join [dir; name]) = name.
Proof.
  intros Hentry.
  destruct (is_entry_name_parts name Hentry) as (Hne & Hslash & _).
  destruct (join_entry dir name Hentry) as (pre & -> & Hpre).
  apply basename_last_component; assumption.
Qed.

Lemma extname_join_entry (dir name : jsstring) :
  is_entry_name name = true ->
  Path.extname (Path.join [dir; name]) = Path.extname name.
Proof.
  intros Hentry.
  destruct (is_entry_name_parts name Hentry) as (Hne & Hslash & _).
  destruct (join_entry dir name Hentry) as (pre & -> & Hpre).
  rewrite (extname_last_component pre name Hne Hslash Hpre).
  symmetry. apply (extname_last_component [] name Hne Hslash).
  left. reflexivity.
Qed.

Lemma extname_entry (name : jsstring) :
  is_entry_name name = true -> Path.extname name = extension name.
Proof.
  intros Hentry.
  destruct (is_entry_name_parts name Hentry) as (Hne & Hslash & _).
  apply (extname_last_component [] name Hne Hslash). left. reflexivity.
Qed.

Lemma basename_entry (name : jsstring) :
  is_entry_name name = true -> Path.basename name = name.
Proof.
  intros Hentry.
  destruct (is_entry_name_parts name Hentry) as (Hne & Hslash & _).
  apply (basename_last_component [] name Hne Hslash). left. reflexivity.
Qed.

Lemma lower_unit_not_dot (c : code_unit) :
  lower_unit c <> Path.dot -> c <> Path.dot.
Proof. intros H ->. apply H. reflexivity. Qed.

(** A name whose lower case ends with '.pdf' is a stem, a dot, and three
    characters none of which is a dot. *)
Lemma pdf_suffix_split (name : jsstring) :
  endsWith (toLowerCase name) (lit ".pdf") = true ->
  exists stem ext,
    name = stem ++ Path.dot :: ext /\ ~ In Path.dot ext /\
    length ext = 3%nat /\
    toLowerCase (Path.dot :: ext) = lit ".pdf".
Proof.
  unfold endsWith, toLowerCase. rewrite andb_true_iff, eqb_eq.
  rewrite length_map. change (length (lit ".pdf")) with 4%nat.
  intros [Hlen H]. apply Nat.leb_le in Hlen.
  rewrite List.skipn_map in H.
  exists (firstn (length name - 4) name).
  destruct (skipn (length name - 4) name) as [|a [|b [|c [|d [|x rest]]]]] eqn:E;
    try discriminate H.
  change (lit ".pdf") with [46%N; 112%N; 100%N; 102%N] in H.
  simpl in H. injection H as Ha Hb Hc Hd.
  apply lower_unit_dot in Ha. subst a.
  exists [b; c; d]. split; [|split; [|split]].
  - rewrite <- E. symmetry. apply List.firstn_skipn.
  - simpl. intros [Hx | [Hx | [Hx | []]]]; subst;
      vm_compute in Hb, Hc, Hd; congruence.
  - reflexivity.
  - simpl. rewrite Hb, Hc, Hd. reflexivity.
Qed.

(** X4.  The two PDF filters agree on every directory entry but one kind:
    [createPreviews] converts a name exactly when [processFile] writes a
    record for it and the name is longer than its extension.  A name that is
    only '.pdf', in any letter case, gets a record and no preview. *)
Theorem pdf_filters_agree (file : jsstring) :
  is_entry_name file = true ->
  (isPdfName file = true <->
   accepted file = true /\ length file <> 4%nat).
Proof.
  intros Hentry. unfold isPdfName, accepted.
  rewrite (extname_entry file Hentry), eqb_eq.
  split.
  - intros Hext. unfold extension in Hext.
    destruct (beforeLast Path.dot file) as [[|x r]|] eqn:E;
      try discriminate Hext.
    destruct (JS.eqb file (lit "..")); [discriminate Hext|].
    assert (Hlen : length (skipn (length (x :: r)) file) = 4%nat).
    { rewrite <- (length_map lower_unit). unfold toLowerCase in Hext.
      rewrite Hext. reflexivity. }
    rewrite List.length_skipn in Hlen. simpl in Hlen.
    split; [|lia].
    unfold endsWith, toLowerCase. rewrite length_map.
    change (length (lit ".pdf")) with 4%nat.
    apply andb_true_iff. split; [apply Nat.leb_le; lia|].
    apply eqb_eq. rewrite List.skipn_map.
    replace (length file - 4)%nat with (length (x :: r)) by (simpl; lia).
    exact Hext.
  - intros [Hpdf Hlen].
    destruct (pdf_suffix_split file Hpdf) as (stem & ext & -> & Hdot & H3 & Hlow).
    unfold extension. rewrite (beforeLast_app _ _ _ Hdot).
    destruct stem as [|x r].
    { simpl in Hlen. lia. }
    destruct (JS.eqb ((x :: r) ++ Path.dot :: ext) (lit "..")) eqn:Edots.
    { apply eqb_eq in Edots. apply (f_equal (@length _)) in Edots.
      rewrite length_app in Edots. simpl in Edots.
      change (length (lit "..")) with 2%nat in Edots. lia. }
    rewrite skipn_app_all. exact Hlow.
Qed.

Lemma pdf_filters_agree_witness :
  isPdfName (lit "Parts List.PDF") = true <->
  accepted (lit "Parts List.PDF") = true /\
  length (lit "Parts List.PDF") <> 4%nat.
Proof.
  apply (pdf_filters_agree (lit "Parts List.PDF")).
  vm_compute. reflexivity.
Defined.

(* ===================================================================== *)
(** ** The name of a preview *)
(* ===================================================================== *)

Lemma endsWith_app (stem suffix : jsstring) :
  endsWith (stem ++ suffix) suffix = true.
Proof.
  unfold endsWith. rewrite length_app.
  apply andb_true_iff. split; [apply Nat.leb_le; lia|].
  replace (length stem + length suffix - length suffix)%nat
    with (length stem) by lia.
  rewrite skipn_app_all. apply eqb_refl.
Qed.

Lemma firstn_app_all {A} (l1 l2 : list A) : firstn (length l1) (l1 ++ l2) = l1.
Proof.
  induction l1 as [|a l1 IH]; simpl; [reflexivity|]. rewrite IH. reflexivity.
Qed.

Lemma baseNameOf_stem (stem : jsstring) :
  is_entry_name (stem ++ lit ".pdf") = true ->
  baseNameOf (stem ++ lit ".pdf") = stem.
Proof.
  intros Hentry. unfold baseNameOf, Path.basename_suffix.
  destruct stem as [|x stem]; [reflexivity|].
  destruct (JS.eqb (lit ".pdf") ((x :: stem) ++ lit ".pdf")) eqn:E.
  { apply eqb_eq in E. apply (f_equal (@length _)) in E.
    rewrite length_app in E. simpl in E. lia. }
  rewrite (basename_entry _ Hentry), endsWith_app.
  destruct (JS.eqb ((x :: stem) ++ lit ".pdf") (lit ".pdf")) eqn:E'.
  { apply eqb_eq in E'. apply (f_equal (@length _)) in E'.
    rewrite length_app in E'. simpl in E'. lia. }
  cbn [truthy andb negb]. change (truthy (lit ".pdf")) with true.
  cbn [andb].
  replace (length ((x :: stem) ++ lit ".pdf") - length (lit ".pdf"))%nat
    with (length (x :: stem)) by (rewrite length_app; lia).
  apply firstn_app_all.
Qed.

Lemma baseNameOf_other (file : jsstring) :
  is_entry_name file = true ->
  endsWith file (lit ".pdf") = false ->
  baseNameOf file = file.
Proof.
  intros Hentry Hends. unfold baseNameOf, Path.basename_suffix.
  destruct (JS.eqb (lit ".pdf") file) eqn:E.
  { apply eqb_eq in E. subst file. discriminate Hends. }
  rewrite (basename_entry _ Hentry), Hends, andb_false_r. reflexivity.
Qed.

(** X5.  How a preview is named.  For an entry [stem.pdf], extension in
    lower case, the preview is [stem.format] in the output directory.  Any
    other entry keeps its whole name: [createPreviews] also converts
    'MANUAL.PDF', and the preview of that file is 'MANUAL.PDF.format'. *)
Theorem preview_path (this : ImagePreviewMaker) (file : jsstring) :
  is_entry_name file = true ->
  (forall stem,
     file = stem ++ lit ".pdf" ->
     outputFilePathOf this file =
       Path.join [output this;
                  stem ++ lit "." ++ format (defaultOptions this)]) /\
  (endsWith file (lit ".pdf") = false ->
     outputFilePathOf this file =
       Path.join [output this;
                  file ++ lit "." ++ format (defaultOptions this)]).
Proof.
  intros Hentry. unfold outputFilePathOf. split.
  - intros stem ->. rewrite (baseNameOf_stem stem Hentry). reflexivity.
  - intros Hends. rewrite (baseNameOf_other file Hentry Hends). reflexivity.
Qed.

Lemma preview_path_witness :
  isPdfName (lit "MANUAL.PDF") = true /\
  outputFilePathOf previewer (lit "MANUAL.PDF") = lit "out/MANUAL.PDF.jpeg" /\
  outputFilePathOf previewer (lit "manual.pdf") = lit "out/manual.jpeg".
Proof.
  split; [vm_compute; reflexivity|]. split.
  - rewrite (proj2 (preview_path previewer (lit "MANUAL.PDF") eq_refl) eq_refl).
    vm_compute. reflexivity.
  - rewrite (proj1 (preview_path previewer (lit "manual.pdf") eq_refl)
               (lit "manual") eq_refl).
    vm_compute. reflexivity.
Defined.

Lemma entry_name_other_suffix (stem suffix suffix' : jsstring) :
  is_entry_name (stem ++ suffix) = true ->
  forallb (fun c => negb (N.eqb c Path.slash)) suffix' = true ->
  (3 <= length suffix')%nat ->
  is_entry_name (stem ++ suffix') = true.
Proof.
  intros Hentry Hslash Hlen.
  destruct (is_entry_name_parts _ Hentry) as (_ & Hs & _).
  rewrite forallb_app in Hs. apply andb_true_iff in Hs. destruct Hs as [Hs _].
  unfold is_entry_name. rewrite !andb_true_iff, !negb_true_iff.
  repeat split.
  - destruct stem; [destruct suffix'; [simpl in Hlen; lia|]|]; reflexivity.
  - rewrite forallb_app. apply andb_true_iff. split; assumption.
  - apply eqb_neq. intros E. apply (f_equal (@length _)) in E.
    rewrite length_app in E. change (length (lit ".")) with 1%nat in E. lia.
  - apply eqb_neq. intros E. apply (f_equal (@length _)) in E.
    rewrite length_app in E. change (length (lit "..")) with 2%nat in E. lia.
Qed.

(** The file the converter stores is the file [convertPdfToImage] renames
    whenever the base name is the name of an entry.  For the base names
    '.' and '..', which the files '..pdf' and '...pdf' have, it is not:
    the converter appends to the joined path, the rename joins the whole
    name. *)
Lemma stored_where_renamed (this : ImagePreviewMaker) (file : jsstring) :
  is_entry_name (baseNameOf file) = true ->
  forallb (fun c => negb (N.eqb c Path.slash)) (format (defaultOptions this))
    = true ->
  storedFileOf this file = tempFilePathOf this file.
Proof.
  intros Hbase Hfmt. unfold storedFileOf, storedFile, tempFilePathOf.
  rewrite (join_entry_prefix _ _ Hbase), join_entry_prefix.
  - rewrite <- app_assoc. reflexivity.
  - apply (entry_name_other_suffix (baseNameOf file) []).
    + rewrite app_nil_r. exact Hbase.
    + rewrite forallb_app. apply andb_true_iff. split; [reflexivity|exact Hfmt].
    + rewrite length_app. change (length (lit ".1.")) with 3%nat. lia.
Qed.

Lemma stored_elsewhere :
  storedFileOf previewer (lit "..pdf") = lit "out.1.jpeg" /\
  tempFilePathOf previewer (lit "..pdf") = lit "out/..1.jpeg" /\
  storedFileOf previewer (lit "...pdf") = lit "..1.jpeg" /\
  tempFilePathOf previewer (lit "...pdf") = lit "out/...1.jpeg".
Proof. repeat split; vm_compute; reflexivity. Qed.

(** X6.  A record and the preview of the same file agree on the image: for
    an entry [stem.pdf] whose stem has no whitespace, previews in the
    default format 'jpeg' are stored under the file name [stem.jpeg], and
    that is the last segment of the record's [awsImage]. *)
Theorem preview_matches_record (dm : DirectoryMaker) (this : ImagePreviewMaker)
  (stem : jsstring) :
  is_entry_name (stem ++ lit ".pdf") = true ->
  Forall (fun c => is_whitespace c = false) stem ->
  format (defaultOptions this) = lit "jpeg" ->
  Path.basename (outputFilePathOf this (stem ++ lit ".pdf")) =
    stem ++ lit ".jpeg" /\
  awsImage (extractMetadata dm (stem ++ lit ".pdf")) =
    dm_awsLocation dm ++ lit "/" ++ dm_prefix dm ++ lit "/images/" ++
    (stem ++ lit ".jpeg").
Proof.
  intros Hentry Hws Hformat. split.
  - unfold outputFilePathOf. rewrite (baseNameOf_stem stem Hentry), Hformat.
    change (lit "." ++ lit "jpeg") with (lit ".jpeg").
    apply basename_join_entry.
    apply (entry_name_other_suffix stem (lit ".pdf")); auto.
    simpl. lia.
  - unfold extractMetadata. cbn [awsImage].
    change (lit ".pdf") with (Path.dot :: lit "pdf").
    rewrite substring_lastIndexOf
      by (apply in_or_app; right; left; reflexivity).
    unfold spec_stripExtension. rewrite beforeLast_app.
    + rewrite (trim_id stem Hws). unfold replace_ws.
      rewrite (replace_ws_from_id _ _ _ Hws). reflexivity.
    + vm_compute. intros [H|[H|[H|[]]]]; discriminate H.
Qed.

Lemma preview_matches_record_witness :
  Path.basename (outputFilePathOf previewer (lit "ADK1152" ++ lit ".pdf")) =
    lit "ADK1152" ++ lit ".jpeg".
Proof.
  apply (preview_matches_record mini previewer (lit "ADK1152")).
  - vm_compute. reflexivity.
  - apply no_whitespace_check. vm_compute. reflexivity.
  - reflexivity.
Defined.

(* ===================================================================== *)
(** ** What the walk of the upload finds *)
(* ===================================================================== *)

(** A tree the walk gets through: a directory, every entry of which [stat]
    can inspect and every subdirectory of which, at any depth, can be
    listed. *)
Fixpoint walkable (n : node) : bool :=
  match n with
  | Directory entries =>
      forallb
        (fun ne =>
           let '(_, child) := ne in
           match child with
           | File | Special => true
           | _ => walkable child
           end)
        entries
  | _ => false
  end.

(** The items of the tracked files below [dirPath], in the order of the
    listings, a subdirectory's items standing where the subdirectory is
    listed. *)
Fixpoint files_below (env : Env) (basePath : jsstring) (exts : list jsstring)
  (n : node) (dirPath : jsstring) : list WalkItem :=
  match n with
  | Directory entries =>
      List.flat_map
        (fun ne =>
           let '(entry, child) := ne in
           match child with
           | File =>
               if has exts (toLowerCase (Path.extname entry))
               then [{| fullPath := Path.join [dirPath; entry];
                        relativePath :=
                          Path.join [Path.relative (cwd env) basePath dirPath;
                                     entry] |}]
               else []
           | Special => []
           | _ => files_below env basePath exts child
                    (Path.join [dirPath; entry])
           end)
        entries
  | _ => []
  end.

(** [found n dirPath item]: [item] stands for a regular file with a tracked
    extension that is an entry of the directory [n] at [dirPath], or of a
    directory below it. *)
Inductive found (env : Env) (basePath : jsstring) (exts : list jsstring)
  : node -> jsstring -> WalkItem -> Prop :=
| found_here entries dirPath entry :
    In (entry, File) entries ->
    has exts (toLowerCase (Path.extname entry)) = true ->
    found env basePath exts (Directory entries) dirPath
      {| fullPath := Path.join [dirPath; entry];
         relativePath :=
           Path.join [Path.relative (cwd env) basePath dirPath; entry] |}
| found_below entries dirPath entry child item :
    In (entry, child) entries ->
    found env basePath exts child (Path.join [dirPath; entry]) item ->
    found env basePath exts (Directory entries) dirPath item.

Section WalkFacts.

Variable env : Env.
Variable basePath : jsstring.
Variable exts : list jsstring.

Let walk (child : node) (fullPath : jsstring) : M (list WalkItem) :=
  walkDirectory env child fullPath basePath exts.

(** What a run of the walk gives, in terms of [walkable] and
    [files_below]. *)
Definition walk_outcome (n : node) (dirPath : jsstring) (w : World)
  (out : result (list WalkItem) * World) : Prop :=
  if walkable n
  then out = (Ok (files_below env basePath exts n dirPath), w)
  else exists e logs,
         out = (Err e, add_log logs w) /\ logs <> [].

Lemma walk_entries_run (dirPath : jsstring) (entries : list (jsstring * node)) :
  Forall (fun ne => forall dirPath w,
            walk_outcome (snd ne) dirPath w (walk (snd ne) dirPath w))
    entries ->
  forall files w,
    if forallb
         (fun ne =>
            let '(_, child) := ne in
            match child with
            | File | Special => true
            | _ => walkable child
            end) entries
    then walk_entries env walk dirPath basePath exts entries files w =
         (Ok (files ++ files_below env basePath exts (Directory entries)
                         dirPath), w)
    else exists e logs,
           walk_entries env walk dirPath basePath exts entries files w =
           (Err e, add_log logs w).
Proof.
  induction 1 as [|[entry child] rest Hchild _ IH]; intros files w.
  - simpl. rewrite app_nil_r. reflexivity.
  - cbn [forallb files_below List.flat_map].
    change (List.flat_map _ rest)
      with (files_below env basePath exts (Directory rest) dirPath).
    specialize (Hchild (Path.join [dirPath; entry]) w).
    unfold walk_outcome in Hchild. cbn [snd] in Hchild.
    cbn [walk_entries]. unfold bind.
    destruct child as [|es|e| |e]; cbn [stat_node ret throw isDirectory isFile].
    + (* a regular file *)
      cbn [andb].
      destruct (has exts (toLowerCase (Path.extname entry))).
      * specialize (IH (files ++
            [{| fullPath := Path.join [dirPath; entry];
                relativePath :=
                  Path.join [Path.relative (cwd env) basePath dirPath;
                             entry] |}]) w).
        destruct (forallb _ rest); [|exact IH].
        rewrite IH, <- app_assoc. reflexivity.
      * apply IH.
    + (* a directory *)
      destruct (walkable (Directory es)) eqn:Ew.
      * cbn [andb]. fold (walk (Directory es) (Path.join [dirPath; entry])).
        rewrite Hchild.
        specialize (IH (files ++
            files_below env basePath exts (Directory es)
              (Path.join [dirPath; entry])) w).
        destruct (forallb _ rest); [|exact IH].
        rewrite IH, <- app_assoc. reflexivity.
      * cbn [andb]. fold (walk (Directory es) (Path.join [dirPath; entry])).
        destruct Hchild as (e & logs & -> & Hlogs).
        exists e, logs. reflexivity.
    + (* a directory that cannot be listed *)
      cbn [walkable andb].
      fold (walk (Unreadable e) (Path.join [dirPath; entry])).
      cbn [walkable] in Hchild.
      destruct Hchild as (e' & logs & -> & Hlogs).
      exists e', logs. reflexivity.
    + (* neither a file nor a directory *)
      cbn [andb]. apply IH.
    + (* an entry [stat] fails on *)
      cbn [walkable andb].
      exists e, []. rewrite add_log_nil. reflexivity.
Qed.

Lemma walkDirectory_run (n : node) :
  forall dirPath w, walk_outcome n dirPath w (walk n dirPath w).
Proof.
  induction n as [|entries IH|e| |e] using node_induction;
    intros dirPath w; unfold walk_outcome; cbn [walkable].
  1,3,4,5:
    eexists _, [_]; (split; [reflexivity | discriminate]).
  pose proof (walk_entries_run dirPath entries IH [] w) as Hrun.
  unfold walk. cbn [walkDirectory]. unfold try_catch.
  fold walk.
  destruct (forallb _ entries).
  - change (fun child fullPath => walkDirectory env child fullPath basePath exts)
      with walk.
    rewrite Hrun. reflexivity.
  - destruct Hrun as (e & logs & Hrun).
    change (fun child fullPath => walkDirectory env child fullPath basePath exts)
      with walk.
    rewrite Hrun.
    exists e, (logs ++ [entry Error_ [("dirPath"%string, dirPath)] (Some e)
                          (lit "Error walking directory " ++ dirPath)]).
    split; [|intros H; apply app_eq_nil in H; destruct H; discriminate].
    unfold bind, logger_error, logger, throw.
    rewrite <- add_log_add_log. reflexivity.
Qed.

Lemma files_below_found (n : node) :
  forall dirPath item,
    In item (files_below env basePath exts n dirPath) <->
    found env basePath exts n dirPath item.
Proof.
  induction n as [|entries IH|e| |e] using node_induction;
    intros dirPath item;
    try (split; [intros [] | intros H; inversion H]).
  cbn [files_below]. rewrite List.in_flat_map. split.
  - intros ([entry child] & Hin & Hitem).
    rewrite List.Forall_forall in IH. specialize (IH _ Hin). cbn [snd] in IH.
    destruct child as [|es|e| |e].
    + destruct (has exts (toLowerCase (Path.extname entry))) eqn:Ext;
        [|destruct Hitem].
      destruct Hitem as [<- | []]. apply found_here; assumption.
    + eapply found_below; [exact Hin|]. apply IH. exact Hitem.
    + destruct Hitem.
    + destruct Hitem.
    + destruct Hitem.
  - intros H. inversion H as [? ? entry Hin Hext | ? ? entry child ? Hin Hsub];
      subst.
    + exists (entry, File). split; [exact Hin|]. rewrite Hext. left. reflexivity.
    + exists (entry, child). split; [exact Hin|].
      rewrite List.Forall_forall in IH. specialize (IH _ Hin). cbn [snd] in IH.
      destruct child as [|es|e| |e]; try (inversion Hsub; fail).
      apply IH. exact Hsub.
Qed.

End WalkFacts.

Lemma walkDirectory_outcome env basePath exts n dirPath w :
  if walkable n
  then walkDirectory env n dirPath basePath exts w =
       (Ok (files_below env basePath exts n dirPath), w)
  else exists e logs,
         walkDirectory env n dirPath basePath exts w =
         (Err e, add_log logs w) /\ logs <> [].
Proof. exact (walkDirectory_run env basePath exts n dirPath w). Qed.

(** A tree with one unreadable subdirectory after a directory with a
    tracked file. *)
Definition broken_tree : jsstring -> node :=
  staging
    [ (lit "a", Directory [(lit "x.pdf", File)]);
      (lit "b", Unreadable (SystemError (lit "EACCES") (lit "pdfs/b"))) ].

(** X7.  The walk is all or nothing.  It returns its list, and leaves the
    world as it was, exactly when every entry at every depth can be
    inspected and every directory can be listed; otherwise it throws, having
    logged the error, and returns no part of the list.  An entry [stat]
    fails on makes it throw even when the entry is not a tracked file. *)
Theorem walk_all_or_nothing (env : Env) (n : node)
  (dirPath basePath : jsstring) (exts : list jsstring) (w : World) :
  (walkable n = true ->
   exists files,
     walkDirectory env n dirPath basePath exts w = (Ok files, w)) /\
  (walkable n = false ->
   exists e logs,
     walkDirectory env n dirPath basePath exts w = (Err e, add_log logs w) /\
     logs <> []) /\
  walkable (Directory [(lit "notes.txt", Missing (no_entry (lit "notes.txt")))])
    = false.
Proof.
  pose proof (walkDirectory_outcome env basePath exts n dirPath w) as H.
  split; [|split; [|reflexivity]]; intros Hw; rewrite Hw in H.
  - eexists. exact H.
  - exact H.
Qed.

Lemma walk_all_or_nothing_witness :
  (exists files,
     walkDirectory (calm_env two_folders readable)
       (two_folders (lit "./pdfs")) (lit "./pdfs") (lit "./pdfs")
       validExtensions empty_world = (Ok files, empty_world)) /\
  (exists e logs,
     walkDirectory (calm_env broken_tree readable)
       (broken_tree (lit "./pdfs")) (lit "./pdfs") (lit "./pdfs")
       validExtensions empty_world = (Err e, add_log logs empty_world) /\
     logs <> []).
Proof.
  split.
  - apply (walk_all_or_nothing (calm_env two_folders readable)
             (two_folders (lit "./pdfs")) (lit "./pdfs") (lit "./pdfs")
             validExtensions empty_world).
    vm_compute. reflexivity.
  - apply (walk_all_or_nothing (calm_env broken_tree readable)
             (broken_tree (lit "./pdfs")) (lit "./pdfs") (lit "./pdfs")
             validExtensions empty_world).
    vm_compute. reflexivity.
Defined.

(** X8.  What the walk finds.  When it returns, its list has an item for
    exactly the regular files with a tracked extension, compared in lower
    case, at any depth below the directory: the item's [fullPath] is the
    file's directory joined with its name, and its [relativePath] is the
    path of that directory relative to the base, joined with the name. *)
Theorem walk_finds_tracked_files (env : Env) (n : node)
  (dirPath basePath : jsstring) (exts : list jsstring) (w w' : World)
  (files : list WalkItem) :
  walkDirectory env n dirPath basePath exts w = (Ok files, w') ->
  forall item,
    In item files <-> found env basePath exts n dirPath item.
Proof.
  intros Hrun item.
  pose proof (walkDirectory_outcome env basePath exts n dirPath w) as H.
  rewrite Hrun in H.
  destruct (walkable n).
  - injection H as -> _. apply files_below_found.
  - destruct H as (e & logs & H & _). discriminate H.
Qed.

Lemma walk_finds_tracked_files_witness :
  In {| fullPath := lit "pdfs/a/c.PNG"; relativePath := lit "a/c.PNG" |}
    two_folders_files <->
  found (calm_env two_folders readable) (lit "./pdfs") validExtensions
    (two_folders (lit "./pdfs")) (lit "./pdfs")
    {| fullPath := lit "pdfs/a/c.PNG"; relativePath := lit "a/c.PNG" |}.
Proof.
  apply (walk_finds_tracked_files (calm_env two_folders readable)
           (two_folders (lit "./pdfs")) (lit "./pdfs") (lit "./pdfs")
           validExtensions empty_world empty_world two_folders_files).
  vm_compute. reflexivity.
Defined.

(* ===================================================================== *)
(** ** What an upload sends and changes *)
(* ===================================================================== *)

(** A tree all of whose entries, at any depth, have names as [readdir]
    gives them. *)
Fixpoint named (n : node) : bool :=
  match n with
  | Directory entries =>
      forallb
        (fun ne => let '(entry, child) := ne in
                   is_entry_name entry && named child)
        entries
  | _ => true
  end.

Lemma found_entry env basePath exts n dirPath item :
  found env basePath exts n dirPath item ->
  named n = true ->
  exists dir entry,
    is_entry_name entry = true /\
    has exts (toLowerCase (Path.extname entry)) = true /\
    fullPath item = Path.join [dir; entry] /\
    relativePath item =
      Path.join [Path.relative (cwd env) basePath dir; entry].
Proof.
  induction 1 as [entries dirPath entry Hin Hext
                 | entries dirPath entry child item Hin Hsub IH];
    intros Hnamed; cbn [named] in Hnamed;
    rewrite List.forallb_forall in Hnamed; specialize (Hnamed _ Hin);
    cbn beta iota in Hnamed; apply andb_true_iff in Hnamed;
    destruct Hnamed as [Hentry Hchild].
  - exists dirPath, entry. repeat split; assumption.
  - apply IH. exact Hchild.
Qed.

(** The types of the tracked extensions. *)
Definition knownTypes : list jsstring :=
  [ lit "application/pdf"; lit "image/jpeg"; lit "image/png";
    lit "image/gif"; lit "image/webp" ].

Lemma tracked_type (ext : jsstring) :
  has validExtensions ext = true ->
  In (string_or (lookup_key ext mimeTypes) (lit "application/octet-stream"))
    knownTypes /\
  JS.eqb (string_or (lookup_key ext mimeTypes)
            (lit "application/octet-stream")) (lit "application/pdf") =
  JS.eqb ext (lit ".pdf").
Proof.
  unfold has, validExtensions, mimeTypes, knownTypes.
  cbn [existsb lookup_key].
  destruct (JS.eqb ext (lit ".pdf")); [intros _; simpl; auto 10|].
  destruct (JS.eqb ext (lit ".jpg")); [intros _; simpl; auto 10|].
  destruct (JS.eqb ext (lit ".jpeg")); [intros _; simpl; auto 10|].
  destruct (JS.eqb ext (lit ".png")); [intros _; simpl; auto 10|].
  destruct (JS.eqb ext (lit ".gif")); [intros _; simpl; auto 10|].
  destruct (JS.eqb ext (lit ".webp")); [intros _; simpl; auto 10|].
  discriminate.
Qed.

Lemma untracked_type (ext : jsstring) :
  has validExtensions ext = false ->
  string_or (lookup_key ext mimeTypes) (lit "application/octet-stream") =
  lit "application/octet-stream".
Proof.
  unfold has, validExtensions, mimeTypes.
  cbn [existsb lookup_key].
  destruct (JS.eqb ext (lit ".pdf")); [discriminate|].
  destruct (JS.eqb ext (lit ".jpg")); [discriminate|].
  destruct (JS.eqb ext (lit ".jpeg")); [discriminate|].
  destruct (JS.eqb ext (lit ".png")); [discriminate|].
  destruct (JS.eqb ext (lit ".gif")); [discriminate|].
  destruct (JS.eqb ext (lit ".webp")); [discriminate|].
  reflexivity.
Qed.

Lemma progress_sent env this (files : list WalkItem) :
  Forall (fun c => exists f body,
            In f files /\ c = putOf this (fullPath f) body)
    (pr_sent (progress env this files)) /\
  (forall c, In c (pr_stored (progress env this files)) ->
             In c (pr_sent (progress env this files))).
Proof.
  induction files as [|f rest [IHsent IHstored]]; simpl.
  - split; [constructor | intros c []].
  - destruct (fs_readFile env (fullPath f)) as [body|e]; simpl;
      [|split; [constructor | intros c []]].
    destruct (s3_put_fault env (putOf this (fullPath f) body)); simpl.
    + split; [|intros c []]. constructor; [|constructor].
      exists f, body. split; [left; reflexivity | reflexivity].
    + split.
      * constructor.
        -- exists f, body. split; [left; reflexivity | reflexivity].
        -- eapply List.Forall_impl; [|exact IHsent].
           intros c (f' & body' & Hin & ->).
           exists f', body'. split; [right; exact Hin | reflexivity].
      * intros c [<- | Hin]; [left; reflexivity | right; apply IHstored, Hin].
Qed.

(** The world after [uploadAll], whatever its outcome: the commands sent
    are Puts of enumerated files, the objects stored are among them, and
    the file system is as it was. *)
Lemma uploadAll_world env this w :
  exists r w' puts stored,
    uploadAll env this w = (r, w') /\
    w_sent w' = w_sent w ++ List.map PutObject puts /\
    w_bucket w' = fold_left store stored (w_bucket w) /\
    w_files w' = w_files w /\
    w_dirs w' = w_dirs w /\
    (forall c, In c stored -> In c puts) /\
    (forall c, In c puts ->
       exists f body,
         found env (up_localPath this) validExtensions
           (fs_tree env (up_localPath this)) (up_localPath this) f /\
         c = putOf this (fullPath f) body) /\
    (walkable (fs_tree env (up_localPath this)) = false ->
     puts = [] /\ exists e l, r = Err e /\ w_log w' = l ++ [abortLine e]).
Proof.
  destruct (walkable (fs_tree env (up_localPath this))) eqn:Ewalk.
  - (* the walk returns *)
    set (files := files_below env (up_localPath this) validExtensions
                    (fs_tree env (up_localPath this)) (up_localPath this)).
    assert (Henum : enumerated env this = Ok files).
    { unfold enumerated.
      pose proof (walkDirectory_outcome env (up_localPath this)
                    validExtensions (fs_tree env (up_localPath this))
                    (up_localPath this) empty_world) as H.
      rewrite Ewalk in H. rewrite H. reflexivity. }
    assert (Hfound : forall f, In f files ->
              found env (up_localPath this) validExtensions
                (fs_tree env (up_localPath this)) (up_localPath this) f).
    { intros f. apply files_below_found. }
    clearbody files.
    destruct (truthy_flag (up_dryRun this)) eqn:Edry.
    + eexists _, _, [], []. split; [apply (uploadAll_dry _ _ _ _ Edry Henum)|].
      simpl. rewrite app_nil_r.
      repeat split; try reflexivity; try (intros c []); discriminate.
    + destruct files as [|f0 rest] eqn:Efiles.
      * eexists _, _, [], [].
        split; [apply (uploadAll_none _ _ _ Edry Henum)|].
        simpl. rewrite app_nil_r.
        repeat split; try reflexivity; try (intros c []); discriminate.
      * rewrite <- Efiles in *.
        assert (Hne : files <> []) by (rewrite Efiles; discriminate).
        destruct (progress_sent env this files) as [Hsent Hstored].
        eexists _, _, (pr_sent (progress env this files)),
                (pr_stored (progress env this files)).
        split; [apply (uploadAll_real _ _ _ _ Edry Henum Hne)|].
        repeat split; try reflexivity; try discriminate.
        -- exact Hstored.
        -- intros c Hc. rewrite List.Forall_forall in Hsent.
           destruct (Hsent c Hc) as (f & body & Hin & ->).
           exists f, body. split; [apply Hfound, Hin | reflexivity].
  - (* the walk throws *)
    destruct (walkDirectory_observes env (fs_tree env (up_localPath this))
                (up_localPath this) (up_localPath this) validExtensions)
      as (r0 & logs & Hrun & _ & _).
    pose proof (walkDirectory_outcome env (up_localPath this)
                  validExtensions (fs_tree env (up_localPath this))
                  (up_localPath this) empty_world) as H.
    rewrite Ewalk in H. destruct H as (e & logs' & H & _).
    rewrite Hrun in H. injection H as -> _.
    destruct (truthy_flag (up_dryRun this)) eqn:Edry.
    + eexists (Err e), _, [], []. split.
      { unfold uploadAll, try_catch, bind. rewrite Edry.
        cbn [logger_info logger ret]. rewrite Hrun.
        cbn [logger_error logger throw]. reflexivity. }
      simpl. rewrite app_nil_r.
      repeat split; try reflexivity; try (intros c []).
      eexists e, _. split; reflexivity.
    + eexists (Err e), _, [], []. split.
      { unfold uploadAll, try_catch, bind. rewrite Edry.
        cbn [logger_info logger ret]. rewrite Hrun.
        cbn [logger_error logger throw]. reflexivity. }
      simpl. rewrite app_nil_r.
      repeat split; try reflexivity; try (intros c []).
      eexists e, _. split; reflexivity.
Qed.

Lemma getS3Key_by_type (entry category : jsstring) :
  has validExtensions (toLowerCase (Path.extname entry)) = true ->
  In (getMimeType entry) knownTypes /\
  getS3Key entry category =
    category ++ lit "/" ++
    (if JS.eqb (getMimeType entry) (lit "application/pdf")
     then lit "documents" else lit "images") ++
    lit "/" ++ entry.
Proof.
  intros Hext. destruct (tracked_type _ Hext) as [Hin Hpdf].
  unfold getMimeType, getS3Key. cbv zeta. rewrite Hpdf.
  split; [exact Hin | reflexivity].
Qed.

(** X9.  What an upload sends.  In a source tree whose entries have names
    as [readdir] gives them, every Put that [uploadAll] sends goes to the
    configured bucket, carries one of the five types of the table (the
    fallback 'application/octet-stream' is never sent), and has the key
    [category/documents/name] when that type is 'application/pdf' and
    [category/images/name] otherwise, [name] being the entry's own name
    whatever the depth at which it was found. *)
Theorem uploads_keyed_by_entry_name (env : Env) (this : UploadOptions)
  (w w' : World) (r : result unit) :
  named (fs_tree env (up_localPath this)) = true ->
  uploadAll env this w = (r, w') ->
  exists puts,
    w_sent w' = w_sent w ++ List.map PutObject puts /\
    forall c, In c puts ->
      put_Bucket c = up_bucket this /\
      In (put_ContentType c) knownTypes /\
      exists name,
        is_entry_name name = true /\
        put_Key c =
          categoryOf this ++ lit "/" ++
          (if JS.eqb (put_ContentType c) (lit "application/pdf")
           then lit "documents" else lit "images") ++
          lit "/" ++ name.
Proof.
  intros Hnamed Hrun.
  destruct (uploadAll_world env this w)
    as (r0 & w0 & puts & stored & Hrun0 & Hsent & _ & _ & _ & _ & Hputs & _).
  rewrite Hrun in Hrun0. injection Hrun0 as <- <-.
  exists puts. split; [exact Hsent|].
  intros c Hc. destruct (Hputs c Hc) as (f & body & Hfound & ->).
  destruct (found_entry _ _ _ _ _ _ Hfound Hnamed)
    as (dir & name & Hentry & Hext & Hfull & _).
  unfold putOf, s3KeyOf. cbn [put_Bucket put_Key put_ContentType].
  assert (Hmime : getMimeType (fullPath f) = getMimeType name).
  { unfold getMimeType. rewrite Hfull, (extname_join_entry _ _ Hentry).
    reflexivity. }
  rewrite Hmime, Hfull, (basename_join_entry _ _ Hentry).
  destruct (getS3Key_by_type name (categoryOf this) Hext) as [Hin Hkey].
  split; [reflexivity|]. split; [exact Hin|].
  exists name. split; [exact Hentry | exact Hkey].
Qed.

Lemma uploads_keyed_by_entry_name_witness :
  exists puts,
    w_sent (snd (uploadAll (calm_env two_folders readable) uploader
                   empty_world)) =
      w_sent empty_world ++ List.map PutObject puts /\
    forall c, In c puts ->
      put_Bucket c = up_bucket uploader /\
      In (put_ContentType c) knownTypes /\
      exists name,
        is_entry_name name = true /\
        put_Key c =
          categoryOf uploader ++ lit "/" ++
          (if JS.eqb (put_ContentType c) (lit "application/pdf")
           then lit "documents" else lit "images") ++
          lit "/" ++ name.
Proof.
  apply (uploads_keyed_by_entry_name (calm_env two_folders readable) uploader
           empty_world _
           (fst (uploadAll (calm_env two_folders readable) uploader
                   empty_world))).
  - vm_compute. reflexivity.
  - apply surjective_pairing.
Defined.

(** X10.  No upload without the whole walk.  When some entry of the source
    tree cannot be inspected or some directory cannot be listed,
    [uploadAll] throws the walk's error, its last act being the error entry
    of the upload in the log; it sends nothing and stores nothing, in a real
    run as in a dry run, even for the files the walk had already found. *)
Theorem upload_needs_whole_walk (env : Env) (this : UploadOptions) (w : World) :
  walkable (fs_tree env (up_localPath this)) = false ->
  exists e w' l,
    uploadAll env this w = (Err e, w') /\
    w_sent w' = w_sent w /\
    w_bucket w' = w_bucket w /\
    w_log w' = l ++ [abortLine e].
Proof.
  intros Hwalk.
  destruct (uploadAll_world env this w)
    as (r & w' & puts & stored & Hrun & Hsent & Hbucket & _ & _ & Hstored
        & _ & Hfail).
  destruct (Hfail Hwalk) as (-> & e & l & -> & Hlog).
  exists e, w', l. split; [exact Hrun|].
  split; [rewrite Hsent; apply app_nil_r|]. split; [|exact Hlog].
  rewrite Hbucket. destruct stored as [|c stored]; [reflexivity|].
  destruct (Hstored c (or_introl eq_refl)).
Qed.

Lemma upload_needs_whole_walk_witness :
  exists e w' l,
    uploadAll (calm_env broken_tree readable) uploader empty_world =
      (Err e, w') /\
    w_sent w' = w_sent empty_world /\
    w_bucket w' = w_bucket empty_world /\
    w_log w' = l ++ [abortLine e].
Proof.
  apply (upload_needs_whole_walk (calm_env broken_tree readable) uploader
           empty_world).
  vm_compute. reflexivity.
Defined.

Lemma fold_left_store_other (cs : list PutObjectCommand)
  (b : gmap (jsstring * jsstring) S3Object) (key : jsstring * jsstring) :
  (forall c, In c cs -> (put_Bucket c, put_Key c) <> key) ->
  fold_left store cs b !! key = b !! key.
Proof.
  revert b. induction cs as [|c cs IH]; intros b Hother; [reflexivity|].
  simpl. rewrite IH by (intros c' Hc'; apply Hother; right; exact Hc').
  unfold store. apply lookup_insert_ne. apply Hother. left. reflexivity.
Qed.

Lemma fold_left_store_keeps (cs : list PutObjectCommand)
  (b : gmap (jsstring * jsstring) S3Object) (key : jsstring * jsstring) :
  is_Some (b !! key) -> is_Some (fold_left store cs b !! key).
Proof.
  revert b. induction cs as [|c cs IH]; intros b Hin; [exact Hin|].
  simpl. apply IH. unfold store.
  destruct (decide ((put_Bucket c, put_Key c) = key)) as [<-|Hne].
  - rewrite lookup_insert_eq. eexists. reflexivity.
  - rewrite lookup_insert_ne by exact Hne. exact Hin.
Qed.

(** X11.  What an upload leaves alone.  Whatever its outcome, [uploadAll]
    removes no object, changes no object of another bucket, changes no
    object whose key is not the key of a tracked file of the source tree,
    and does not touch the local file system. *)
Theorem upload_frame (env : Env) (this : UploadOptions) (w w' : World)
  (r : result unit) :
  uploadAll env this w = (r, w') ->
  (forall key, is_Some (w_bucket w !! key) -> is_Some (w_bucket w' !! key)) /\
  (forall b k,
     (b <> up_bucket this \/
      forall f,
        found env (up_localPath this) validExtensions
          (fs_tree env (up_localPath this)) (up_localPath this) f ->
        k <> s3KeyOf this (fullPath f)) ->
     w_bucket w' !! (b, k) = w_bucket w !! (b, k)) /\
  w_files w' = w_files w /\
  w_dirs w' = w_dirs w.
Proof.
  intros Hrun.
  destruct (uploadAll_world env this w)
    as (r0 & w0 & puts & stored & Hrun0 & _ & Hbucket & Hfiles & Hdirs
        & Hstored & Hputs & _).
  rewrite Hrun in Hrun0. injection Hrun0 as <- <-.
  split; [|split; [|split; assumption]].
  - intros key. rewrite Hbucket. apply fold_left_store_keeps.
  - intros b k Hother. rewrite Hbucket. apply fold_left_store_other.
    intros c Hc Heq.
    destruct (Hputs c (Hstored c Hc)) as (f & body & Hfound & ->).
    unfold putOf in Heq. cbn [put_Bucket put_Key] in Heq.
    injection Heq as Hb Hk.
    destruct Hother as [Hb' | Hk'].
    + apply Hb'. symmetry. exact Hb.
    + apply (Hk' f Hfound). symmetry. exact Hk.
Qed.

Lemma upload_frame_witness :
  w_files (snd (uploadAll (calm_env two_folders readable) uploader empty_world))
    = w_files empty_world.
Proof.
  exact (proj1 (proj2 (proj2
           (upload_frame (calm_env two_folders readable) uploader empty_world
              (snd (uploadAll (calm_env two_folders readable) uploader
                      empty_world))
              (fst (uploadAll (calm_env two_folders readable) uploader
                      empty_world))
              (surjective_pairing _))))).
Defined.

(* ===================================================================== *)
(** ** Listing: the keys returned, the loop, a failing request *)
(* ===================================================================== *)

Lemma pushKeys_nonempty (contents : list (option jsstring)) :
  forall objects,
    Forall (fun key => truthy key = true) objects ->
    Forall (fun key => truthy key = true) (pushKeys objects contents).
Proof.
  induction contents as [|[key|] rest IH]; intros objects Hobjects; simpl.
  - exact Hobjects.
  - destruct (truthy key) eqn:Ekey; [|apply IH; exact Hobjects].
    apply IH. apply List.Forall_app. split; [exact Hobjects|].
    constructor; [exact Ekey | constructor].
  - apply IH. exact Hobjects.
Qed.

Section ListingFacts.

Variable env : Env.
Variable this : S3Downloader.

(** What the loop leaves behind, whatever its outcome: it only sends
    listing requests for the configured bucket, prefix and page size, the
    first with the token it was started with; and the keys it returns are
    not empty. *)
Lemma listObjects_loop_effect (fuel : nat) :
  forall token objects w,
    Forall (fun key => truthy key = true) objects ->
    exists r w' requests,
      listObjects_loop env this fuel token objects w = (r, w') /\
      w' = set_sent (fun l => l ++ List.map ListObjectsV2 requests) w /\
      (length requests <= fuel)%nat /\
      (r = OutOfFuel -> length requests = fuel) /\
      (forall keys, r = Ok keys ->
                    Forall (fun key => truthy key = true) keys).
Proof.
  induction fuel as [|fuel IH]; intros token objects w Hobjects.
  - exists OutOfFuel, w, []. repeat split; try discriminate; auto.
    destruct w; unfold set_sent; simpl. rewrite app_nil_r. reflexivity.
  - cbn [listObjects_loop]. unfold bind, send_list.
    fold (listCommand this token).
    destruct (s3_list env (listCommand this token)) as [page|e];
      cbn [await ret throw].
    + set (objects' := match Contents page with
                       | Some contents => pushKeys objects contents
                       | None => objects
                       end).
      assert (Hobjects' : Forall (fun key => truthy key = true) objects').
      { unfold objects'. destruct (Contents page);
          [apply pushKeys_nonempty|]; exact Hobjects. }
      destruct (truthy_opt (NextContinuationToken page)).
      * destruct (IH (NextContinuationToken page) objects'
                    (set_sent (fun l => l ++ [ListObjectsV2
                                                (listCommand this token)]) w)
                    Hobjects')
          as (r & w' & requests & Hrun & -> & Hlen & Hfuel & Hkeys).
        eexists r, _, (listCommand this token :: requests).
        split; [exact Hrun|]. split; [|split; [|split]].
        -- unfold set_sent; simpl. rewrite <- app_assoc. reflexivity.
        -- simpl. lia.
        -- intros Hr. simpl. rewrite (Hfuel Hr). reflexivity.
        -- exact Hkeys.
      * eexists (Ok objects'), _, [listCommand this token].
        split; [reflexivity|]. split; [reflexivity|].
        split; [simpl; lia|]. split; [discriminate|].
        intros keys Hk. injection Hk as <-. exact Hobjects'.
    + eexists (Err e), _, [listCommand this token].
      split; [reflexivity|]. split; [reflexivity|].
      split; [simpl; lia|]. split; discriminate.
Qed.

Lemma listObjects_effect (fuel : nat) (w : World) :
  exists r w' requests logs,
    listObjects env this fuel w = (r, w') /\
    w' = add_log logs
           (set_sent (fun l => l ++ List.map ListObjectsV2 requests) w) /\
    (length requests <= fuel)%nat /\
    (r = OutOfFuel -> length requests = fuel) /\
    (forall keys, r = Ok keys ->
                  Forall (fun key => truthy key = true) keys) /\
    (forall e, r = Err e ->
       logs = [entry Error_ [] (Some e) (lit "Error listing S3 objects")]).
Proof.
  destruct (listObjects_loop_effect fuel None [] w (List.Forall_nil _))
    as (r & w' & requests & Hrun & -> & Hlen & Hfuel & Hkeys).
  unfold listObjects, try_catch, bind. rewrite Hrun.
  destruct r as [keys|e|].
  - eexists (Ok keys), _, requests, [_].
    split; [reflexivity|]. split; [reflexivity|].
    repeat split; auto; discriminate.
  - eexists (Err e), _, requests, [_].
    split; [reflexivity|]. split; [reflexivity|].
    repeat split; auto; try discriminate.
    intros e' He. injection He as <-. reflexivity.
  - eexists OutOfFuel, _, requests, [].
    split; [reflexivity|]. split; [rewrite add_log_nil; reflexivity|].
    repeat split; auto; discriminate.
Qed.

End ListingFacts.

(** X12.  [listObjects] never changes anything and never returns an empty
    key: whatever its outcome it only sends listing requests, leaving the
    local files and the buckets as they were, and every key it returns is a
    non-empty text, entries without a key having been dropped. *)
Theorem listObjects_only_lists (env : Env) (this : S3Downloader) (fuel : nat)
  (w w' : World) (r : result (list jsstring)) :
  listObjects env this fuel w = (r, w') ->
  (exists requests,
     w_sent w' = w_sent w ++ List.map ListObjectsV2 requests) /\
  w_files w' = w_files w /\
  w_dirs w' = w_dirs w /\
  w_bucket w' = w_bucket w /\
  forall keys, r = Ok keys -> Forall (fun key => truthy key = true) keys.
Proof.
  intros Hrun.
  destruct (listObjects_effect env this fuel w)
    as (r0 & w0 & requests & logs & Hrun0 & Hw & _ & _ & Hkeys & _).
  rewrite Hrun in Hrun0. injection Hrun0 as <- <-. subst w'.
  split; [exists requests; reflexivity|].
  repeat split; try reflexivity. exact Hkeys.
Qed.

Lemma listObjects_only_lists_witness :
  w_bucket (snd (listObjects b_fails_env downloader 1 empty_world)) =
  w_bucket empty_world.
Proof.
  exact (proj1 (proj2 (proj2 (proj2
           (listObjects_only_lists b_fails_env downloader 1 empty_world
              (snd (listObjects b_fails_env downloader 1 empty_world))
              (fst (listObjects b_fails_env downloader 1 empty_world))
              (surjective_pairing _)))))).
Defined.

(** A service that answers every listing request with one key and a token
    to continue with. *)
Definition endless_env : Env :=
  {| cwd := lit "/repo";
     fs_tree := fun p => Missing (no_entry p);
     fs_readFile := fun p => Rejected (no_entry p);
     fs_fault := fun _ => None;
     pdf2pic := fun p => Rejected (no_entry p);
     s3_put_fault := fun _ => None;
     s3_list := fun _ =>
       Fulfilled {| Contents := Some [Some (lit "a.pdf")];
                    NextContinuationToken := Some (lit "again") |};
     s3_get := fun c => Fulfilled (Readable [get_Key c]) |}.

(** X13.  The listing loop has no bound of its own.  Against a service that
    sends a continuation token with every page, [listObjects] is still
    asking after any number of round trips: with fuel for [n] of them it has
    sent [n] requests and has not returned; and [downloadAll] has then
    fetched nothing. *)
Theorem listObjects_has_no_bound (env : Env) (this : S3Downloader) :
  (forall c, exists page,
     s3_list env c = Fulfilled page /\
     truthy_opt (NextContinuationToken page) = true) ->
  forall fuel w,
    exists w' requests,
      listObjects env this fuel w = (OutOfFuel, w') /\
      w_sent w' = w_sent w ++ List.map ListObjectsV2 requests /\
      length requests = fuel /\
      exists w'',
        downloadAll env this fuel w = (OutOfFuel, w'') /\
        w_sent w'' = w_sent w' /\ w_files w'' = w_files w.
Proof.
  intros Hservice.
  assert (Hloop : forall fuel token objects w,
            fst (listObjects_loop env this fuel token objects w) = OutOfFuel).
  { induction fuel as [|fuel IH]; intros token objects w; [reflexivity|].
    cbn [listObjects_loop]. unfold bind, send_list.
    destruct (Hservice {| list_Bucket := bucket this;
                          list_Prefix := prefix this;
                          list_ContinuationToken := token;
                          list_MaxKeys := maxKeys this |})
      as (page & Hpage & Htoken).
    rewrite Hpage. cbn [await ret]. rewrite Htoken. apply IH. }
  intros fuel w.
  destruct (listObjects_loop_effect env this fuel None [] w (List.Forall_nil _))
    as (r & w' & requests & Hrun & -> & _ & Hfuel & _).
  pose proof (Hloop fuel None [] w) as Hr. rewrite Hrun in Hr. simpl in Hr.
  subst r.
  assert (Hlist : listObjects env this fuel w =
                  (OutOfFuel,
                   set_sent (fun l => l ++ List.map ListObjectsV2 requests) w)).
  { unfold listObjects, try_catch, bind. rewrite Hrun. reflexivity. }
  eexists _, requests. split; [exact Hlist|].
  split; [reflexivity|]. split; [exact (Hfuel eq_refl)|].
  eexists. split.
  - unfold downloadAll, try_catch, bind. rewrite Hlist. reflexivity.
  - split; reflexivity.
Qed.

Lemma listObjects_has_no_bound_witness :
  exists w' requests,
    listObjects endless_env downloader 40 empty_world = (OutOfFuel, w') /\
    w_sent w' = w_sent empty_world ++ List.map ListObjectsV2 requests /\
    length requests = 40%nat.
Proof.
  destruct (listObjects_has_no_bound endless_env downloader) with
    (fuel := 40%nat) (w := empty_world)
    as (w' & requests & Hrun & Hsent & Hlen & _).
  - intros c. eexists. split; reflexivity.
  - exists w', requests. repeat split; assumption.
Defined.

Section ListingFailure.

Variable env : Env.
Variable this : S3Downloader.

(** The service answers the request for [token] and the requests that
    follow with [pages], each with a token to continue with, and then
    rejects the next request with [e]. *)
Fixpoint fails_after (token : option jsstring)
  (pages : list ListObjectsV2Output) (e : Error) : Prop :=
  match pages with
  | [] => s3_list env (listCommand this token) = Rejected e
  | page :: rest =>
      s3_list env (listCommand this token) = Fulfilled page /\
      truthy_opt (NextContinuationToken page) = true /\
      fails_after (NextContinuationToken page) rest e
  end.

Lemma listObjects_loop_fails (pages : list ListObjectsV2Output) (e : Error) :
  forall fuel token objects w,
    fails_after token pages e ->
    (length pages < fuel)%nat ->
    exists requests,
      listObjects_loop env this fuel token objects w =
      (Err e, set_sent (fun l => l ++ List.map ListObjectsV2 requests) w) /\
      length requests = Datatypes.S (length pages).
Proof.
  induction pages as [|page rest IH]; intros fuel token objects w Hfails Hfuel;
    (destruct fuel as [|fuel]; [simpl in Hfuel; lia|]);
    cbn [listObjects_loop]; unfold bind, send_list;
    fold (listCommand this token); cbn [fails_after] in Hfails.
  - rewrite Hfails. cbn [await throw].
    exists [listCommand this token]. split; reflexivity.
  - destruct Hfails as (Hpage & Htoken & Hrest).
    rewrite Hpage. cbn [await ret]. rewrite Htoken.
    destruct (IH fuel (NextContinuationToken page)
                (match Contents page with
                 | Some contents => pushKeys objects contents
                 | None => objects
                 end)
                (set_sent (fun l => l ++ [ListObjectsV2
                                            (listCommand this token)]) w)
                Hrest ltac:(simpl in Hfuel; lia))
      as (requests & Hrun & Hlen).
    exists (listCommand this token :: requests). split.
    + rewrite Hrun. unfold set_sent; simpl. rewrite <- app_assoc. reflexivity.
    + simpl. rewrite Hlen. reflexivity.
Qed.

End ListingFailure.

(** A service that lists one page of two keys and rejects the request for
    the second page. *)
Definition second_page_fails_env : Env :=
  {| cwd := lit "/repo";
     fs_tree := fun p => Missing (no_entry p);
     fs_readFile := fun p => Rejected (no_entry p);
     fs_fault := fun _ => None;
     pdf2pic := fun p => Rejected (no_entry p);
     s3_put_fault := fun _ => None;
     s3_list := fun c =>
       match list_ContinuationToken c with
       | None =>
           Fulfilled {| Contents := Some [Some (lit "a.pdf"); Some (lit "b.pdf")];
                        NextContinuationToken := Some (lit "page2") |}
       | Some _ => Rejected (ServiceError (lit "SlowDown"))
       end;
     s3_get := fun c => Fulfilled (Readable [get_Key c]) |}.

(** X14.  A listing that fails part-way gives nothing.  When the service
    answers some pages and then rejects a request, [listObjects] throws that
    error and the keys of the pages already received are dropped:
    [downloadAll] throws the same error without having fetched or written
    anything, after the two error entries of the listing and of the
    download. *)
Theorem failed_listing_downloads_nothing (env : Env) (this : S3Downloader)
  (pages : list ListObjectsV2Output) (e : Error) (fuel : nat) (w : World) :
  fails_after env this None pages e ->
  (length pages < fuel)%nat ->
  exists w' requests,
    downloadAll env this fuel w = (Err e, w') /\
    w_sent w' = w_sent w ++ List.map ListObjectsV2 requests /\
    length requests = Datatypes.S (length pages) /\
    w_files w' = w_files w /\
    w_dirs w' = w_dirs w /\
    w_log w' =
      w_log w ++
      [entry Error_ [] (Some e) (lit "Error listing S3 objects");
       notDownloadedLine e].
Proof.
  intros Hfails Hfuel.
  destruct (listObjects_loop_fails env this pages e fuel None [] w Hfails Hfuel)
    as (requests & Hrun & Hlen).
  eexists _, requests. split.
  - unfold downloadAll, listObjects, try_catch, bind. rewrite Hrun.
    cbn [logger_error logger throw]. reflexivity.
  - repeat split; try reflexivity; try exact Hlen.
    simpl. rewrite <- app_assoc. reflexivity.
Qed.

Lemma failed_listing_downloads_nothing_witness :
  exists w' requests,
    downloadAll second_page_fails_env downloader 5 empty_world =
      (Err (ServiceError (lit "SlowDown")), w') /\
    w_sent w' = w_sent empty_world ++ List.map ListObjectsV2 requests /\
    length requests = 2%nat /\
    w_files w' = w_files empty_world.
Proof.
  destruct (failed_listing_downloads_nothing second_page_fails_env downloader
              [ {| Contents := Some [Some (lit "a.pdf"); Some (lit "b.pdf")];
                   NextContinuationToken := Some (lit "page2") |} ]
              (ServiceError (lit "SlowDown")) 5 empty_world)
    as (w' & requests & Hrun & Hsent & Hlen & Hfiles & _).
  - simpl. repeat split; reflexivity.
  - simpl. lia.
  - exists w', requests. repeat split; assumption.
Defined.

(* ===================================================================== *)
(** ** Download: what a completed run has fetched and written *)
(* ===================================================================== *)

Section DownloadEffect.

Variable env : Env.
Variable this : S3Downloader.

(** The bytes of the object under [key], when the service sends them. *)
Definition fetched (key : jsstring) : option Buffer :=
  match s3_get env (getCommand this key) with
  | Fulfilled (Readable chunks) => Some (List.concat chunks)
  | _ => None
  end.

(** The local files after the object under [key] has been saved. *)
Definition save (m : gmap jsstring FileData) (key : jsstring)
  : gmap jsstring FileData :=
  if isDirectoryKey key then m
  else match fetched key with
       | Some bytes => <[ filePathOf this key := Bytes bytes ]> m
       | None => m
       end.

(** The request for [key]: none for a directory key. *)
Definition fetch (key : jsstring) : list Command :=
  if isDirectoryKey key then [] else [GetObject (getCommand this key)].

Lemma downloadFile_ok (key : jsstring) (w : World) :
  download_fault env this key = None ->
  exists w',
    downloadFile env this key w = (Ok tt, w') /\
    w_files w' = save (w_files w) key /\
    w_sent w' = w_sent w ++ fetch key /\
    w_bucket w' = w_bucket w.
Proof.
  unfold downloadFile, download_fault, save, fetch, fetched, mkdir_error,
    try_catch, bind, dl_ensureDirectoryExists, try_catch, mkdir, send_get,
    writeFile.
  fold (filePathOf this key). fold (getCommand this key).
  destruct (isDirectoryKey key).
  { intros _. eexists. split; [reflexivity|]. simpl. rewrite app_nil_r.
    repeat split; reflexivity. }
  destruct (fs_fault env (OpMkdir (Path.dirname (filePathOf this key))))
    as [e|] eqn:Hmk.
  - destruct (error_code e) as [code|]; [|discriminate].
    destruct (JS.eqb code (lit "EEXIST")); [|discriminate].
    cbn [ret logger_info logger].
    destruct (s3_get env (getCommand this key)) as [[chunks|]|e'];
      cbn [await ret throw]; try discriminate.
    destruct (fs_fault env (OpWriteFile (filePathOf this key)));
      [discriminate|].
    intros _. eexists. split; [reflexivity|]. repeat split; reflexivity.
  - cbn [ret logger_info logger].
    destruct (s3_get env (getCommand this key)) as [[chunks|]|e'];
      cbn [await ret throw]; try discriminate.
    destruct (fs_fault env (OpWriteFile (filePathOf this key)));
      [discriminate|].
    intros _. eexists. split; [reflexivity|]. repeat split; reflexivity.
Qed.

Lemma downloadBatch_ok (batch : list jsstring) :
  (forall k, In k batch -> download_fault env this k = None) ->
  forall w,
    exists w',
      promise_all (List.map (fun key => downloadFile env this key) batch) w =
        (Ok (List.map (fun _ => tt) batch), w') /\
      w_files w' = fold_left save batch (w_files w) /\
      w_sent w' = w_sent w ++ List.concat (List.map fetch batch) /\
      w_bucket w' = w_bucket w.
Proof.
  induction batch as [|k batch IH]; intros Hok w.
  - eexists. split; [reflexivity|]. simpl. rewrite app_nil_r.
    repeat split; reflexivity.
  - destruct (downloadFile_ok k w (Hok k (or_introl eq_refl)))
      as (w1 & Hrun1 & Hfiles1 & Hsent1 & Hbucket1).
    destruct (IH (fun k' Hk' => Hok k' (or_intror Hk')) w1)
      as (w2 & Hrun2 & Hfiles2 & Hsent2 & Hbucket2).
    exists w2. cbn [List.map promise_all]. rewrite Hrun1, Hrun2.
    split; [reflexivity|]. split; [|split].
    + rewrite Hfiles2, Hfiles1. reflexivity.
    + rewrite Hsent2, Hsent1. simpl. rewrite <- app_assoc. reflexivity.
    + rewrite Hbucket2. exact Hbucket1.
Qed.

Lemma fold_left_save_app (l1 l2 : list jsstring) (m : gmap jsstring FileData) :
  fold_left save (l1 ++ l2) m = fold_left save l2 (fold_left save l1 m).
Proof. apply List.fold_left_app. Qed.

Lemma download_batches_ok (objects : list jsstring) :
  (forall k, In k objects -> download_fault env this k = None) ->
  forall steps i w,
    (length objects - i <= steps)%nat ->
    exists w',
      download_batches env this steps i objects w = (Ok tt, w') /\
      w_files w' = fold_left save (skipn i objects) (w_files w) /\
      w_sent w' = w_sent w ++ List.concat (List.map fetch (skipn i objects)) /\
      w_bucket w' = w_bucket w.
Proof.
  intros Hok.
  induction steps as [|steps IH]; intros i w Hsteps.
  - exists w. rewrite List.skipn_all2 by lia. simpl. rewrite app_nil_r.
    repeat split; reflexivity.
  - cbn [download_batches].
    destruct (i <? length objects)%nat eqn:Ei.
    + apply Nat.ltb_lt in Ei. unfold bind.
      destruct (downloadBatch_ok (firstn batchSize (skipn i objects))
                  (fun k Hk => Hok k (in_skipn_in _ _ _ (in_firstn_in _ _ _ Hk)))
                  w)
        as (w1 & Hrun1 & Hfiles1 & Hsent1 & Hbucket1).
      rewrite Hrun1.
      destruct (IH (i + batchSize)%nat w1 ltac:(unfold batchSize; lia))
        as (w2 & Hrun2 & Hfiles2 & Hsent2 & Hbucket2).
      exists w2. split; [exact Hrun2|].
      assert (Hsplit : skipn i objects =
                       firstn batchSize (skipn i objects) ++
                       skipn (i + batchSize) objects).
      { rewrite (Nat.add_comm i batchSize), <- List.skipn_skipn.
        symmetry. apply List.firstn_skipn. }
      split; [|split].
      * rewrite Hfiles2, Hfiles1. symmetry. rewrite Hsplit at 1.
        apply fold_left_save_app.
      * rewrite Hsent2, Hsent1. rewrite Hsplit at 2.
        rewrite List.map_app, List.concat_app, app_assoc. reflexivity.
      * rewrite Hbucket2. exact Hbucket1.
    + apply Nat.ltb_ge in Ei. exists w.
      rewrite List.skipn_all2 by lia. simpl. rewrite app_nil_r.
      repeat split; reflexivity.
Qed.

Lemma fetch_filter (objects : list jsstring) :
  List.concat (List.map fetch objects) =
  List.map (fun k => GetObject (getCommand this k))
    (List.filter (fun k => negb (isDirectoryKey k)) objects).
Proof.
  induction objects as [|k objects IH]; [reflexivity|].
  simpl. unfold fetch at 1. destruct (isDirectoryKey k); simpl;
    rewrite IH; reflexivity.
Qed.

Lemma no_fault_fetched (key : jsstring) :
  download_fault env this key = None ->
  isDirectoryKey key = false ->
  exists chunks,
    s3_get env (getCommand this key) = Fulfilled (Readable chunks) /\
    fetched key = Some (List.concat chunks).
Proof.
  unfold download_fault, fetched. intros H Hdir. rewrite Hdir in H.
  destruct (mkdir_error env (Path.dirname (filePathOf this key)));
    [discriminate|].
  destruct (s3_get env (getCommand this key)) as [[chunks|]|e];
    try discriminate.
  exists chunks. split; reflexivity.
Qed.

Lemma fold_left_save_other (objects : list jsstring)
  (m : gmap jsstring FileData) (p : jsstring) :
  (forall k, In k objects -> isDirectoryKey k = false ->
             filePathOf this k <> p) ->
  fold_left save objects m !! p = m !! p.
Proof.
  revert m. induction objects as [|k objects IH]; intros m Hother;
    [reflexivity|].
  simpl. rewrite IH by (intros k' Hk'; apply Hother; right; exact Hk').
  unfold save. destruct (isDirectoryKey k) eqn:Edir; [reflexivity|].
  destruct (fetched k); [|reflexivity].
  apply lookup_insert_ne. apply Hother; [left; reflexivity | exact Edir].
Qed.

Lemma fold_left_save_has (objects : list jsstring) :
  (forall k, In k objects -> download_fault env this k = None) ->
  forall (m : gmap jsstring FileData) (k : jsstring),
    In k objects -> isDirectoryKey k = false ->
    exists k' chunks,
      In k' objects /\
      isDirectoryKey k' = false /\
      filePathOf this k' = filePathOf this k /\
      s3_get env (getCommand this k') = Fulfilled (Readable chunks) /\
      fold_left save objects m !! filePathOf this k =
        Some (Bytes (List.concat chunks)).
Proof.
  induction objects as [|x objects IH] using rev_ind; intros Hok m k Hin Hdir.
  { destruct Hin. }
  rewrite fold_left_save_app. cbn [fold_left].
  assert (Hok' : forall k', In k' objects -> download_fault env this k' = None).
  { intros k' Hk'. apply Hok. apply in_or_app. left. exact Hk'. }
  destruct (isDirectoryKey x) eqn:Ex.
  - (* the last key is a directory key *)
    unfold save at 1. rewrite Ex.
    apply in_app_or in Hin. destruct Hin as [Hin | [-> | []]]; [|congruence].
    destruct (IH Hok' m k Hin Hdir)
      as (k' & chunks & Hk' & Hdir' & Hpath & Hget & Hlook).
    exists k', chunks. repeat split; auto. apply in_or_app. left. exact Hk'.
  - assert (Hx : download_fault env this x = None).
    { apply Hok, in_or_app. right. left. reflexivity. }
    destruct (no_fault_fetched x Hx Ex) as (chunks & Hget & Hfetched).
    unfold save at 1. rewrite Ex, Hfetched.
    destruct (decide (filePathOf this x = filePathOf this k)) as [Heq|Hne].
    + exists x, chunks. rewrite <- Heq, lookup_insert_eq.
      repeat split; auto. apply in_or_app. right. left. reflexivity.
    + rewrite lookup_insert_ne by exact Hne.
      apply in_app_or in Hin. destruct Hin as [Hin | [-> | []]]; [|congruence].
      destruct (IH Hok' m k Hin Hdir)
        as (k' & chunks' & Hk' & Hdir' & Hpath & Hget' & Hlook).
      exists k', chunks'. repeat split; auto. apply in_or_app. left. exact Hk'.
Qed.

Lemma NoDup_map_eq {A B : Type} (f : A -> B) (l : list A) (x y : A) :
  List.NoDup (List.map f l) -> In x l -> In y l -> f x = f y -> x = y.
Proof.
  induction l as [|a l IH]; simpl; intros Hnd Hx Hy Heq; [destruct Hx|].
  apply List.NoDup_cons_iff in Hnd. destruct Hnd as [Hnotin Hnd].
  destruct Hx as [->|Hx], Hy as [->|Hy]; auto.
  - exfalso. apply Hnotin. rewrite Heq. apply List.in_map. exact Hy.
  - exfalso. apply Hnotin. rewrite <- Heq. apply List.in_map. exact Hx.
Qed.

End DownloadEffect.

(** A bucket of three keys, one of them a directory key, listed in one
    page; every object can be fetched. *)
Definition small_bucket_env : Env :=
  {| cwd := lit "/repo";
     fs_tree := fun p => Missing (no_entry p);
     fs_readFile := fun p => Rejected (no_entry p);
     fs_fault := fun _ => None;
     pdf2pic := fun p => Rejected (no_entry p);
     s3_put_fault := fun _ => None;
     s3_list := fun _ =>
       Fulfilled
         {| Contents := Some [ Some (lit "manuals/");
                               Some (lit "manuals/a.pdf");
                               Some (lit "b.pdf") ];
            NextContinuationToken := None |};
     s3_get := fun c => Fulfilled (Readable [get_Key c; lit "!"]) |}.

(** X15.  What a completed download has done.  Take a listing in which no
    two keys that do not end in '/' have the same local path and none has
    its local path below that of another (as 'a/b' has below 'a', which
    then is wanted both as a file and as a directory).  When every
    directory can be made and no listed object fails, [downloadAll]
    returns, having sent one GetObject for each of these keys and none for
    the others.  Each of them then has a local
    file at [localPath] joined with the key, holding the concatenated
    chunks of its object; no other local file has changed. *)
Theorem download_saves_every_object (env : Env) (this : S3Downloader)
  (fuel : nat) (objects : list jsstring) (w w1 : World) :
  listObjects env this fuel w = (Ok objects, w1) ->
  (forall k, In k objects -> isDirectoryKey k = false ->
     fs_fault env (OpMkdir (Path.dirname (filePathOf this k))) = None) ->
  (forall k, In k objects -> download_fault env this k = None) ->
  List.NoDup
    (List.map (filePathOf this)
       (List.filter (fun k => negb (isDirectoryKey k)) objects)) ->
  (forall k k',
     In k objects -> In k' objects ->
     isDirectoryKey k = false -> isDirectoryKey k' = false ->
     startsWith (filePathOf this k') (filePathOf this k ++ [Path.slash]) =
       false) ->
  exists w' gets,
    downloadAll env this fuel w = (Ok tt, w') /\
    w_sent w' = w_sent w1 ++ gets /\
    Permutation gets
      (List.map (fun k => GetObject (getCommand this k))
         (List.filter (fun k => negb (isDirectoryKey k)) objects)) /\
    (forall k, In k objects -> isDirectoryKey k = false ->
       exists chunks,
         s3_get env (getCommand this k) = Fulfilled (Readable chunks) /\
         w_files w' !! filePathOf this k =
           Some (Bytes (List.concat chunks))) /\
    (forall p,
       (forall k, In k objects -> isDirectoryKey k = false ->
                  filePathOf this k <> p) ->
       w_files w' !! p = w_files w !! p).
Proof.
  intros Hlist _ Hok Hpaths _.
  assert (Hfiles1 : w_files w1 = w_files w).
  { destruct (listObjects_effect env this fuel w)
      as (r0 & w0 & requests & logs & Hrun0 & Hw & _).
    rewrite Hlist in Hrun0. injection Hrun0 as <- <-. subst w1. reflexivity. }
  assert (Hrun : exists w',
            downloadAll env this fuel w = (Ok tt, w') /\
            w_files w' = fold_left (save env this) objects (w_files w1) /\
            w_sent w' =
              w_sent w1 ++ List.concat (List.map (fetch this) objects)).
  { unfold downloadAll, try_catch, bind. rewrite Hlist.
    destruct (length objects =? 0)%nat eqn:Elen.
    - apply Nat.eqb_eq in Elen. destruct objects; [|discriminate Elen].
      eexists. split; [reflexivity|]. simpl. rewrite app_nil_r.
      split; reflexivity.
    - cbn [logger_info logger].
      match goal with
      | |- context [download_batches env this ?n 0%nat objects ?w0] =>
          destruct (download_batches_ok env this objects Hok n 0%nat w0
                      ltac:(lia))
            as (w2 & Hrun2 & Hfiles2 & Hsent2 & _)
      end.
      rewrite Hrun2. eexists. split; [reflexivity|].
      simpl in Hfiles2, Hsent2. split; assumption. }
  destruct Hrun as (w' & Hrun & Hfiles & Hsent).
  exists w', (List.concat (List.map (fetch this) objects)).
  split; [exact Hrun|]. split; [exact Hsent|]. split; [|split].
  - rewrite fetch_filter. apply Permutation_refl.
  - intros k Hin Hdir. rewrite Hfiles.
    destruct (fold_left_save_has env this objects Hok (w_files w1) k Hin Hdir)
      as (k' & chunks & Hk' & Hdir' & Hpath & Hget & Hlook).
    assert (Hsame : k' = k).
    { apply (NoDup_map_eq (filePathOf this) _ k' k Hpaths); [| |exact Hpath];
        apply List.filter_In; split; auto;
        apply negb_true_iff; assumption. }
    subst k'. exists chunks. split; [exact Hget | exact Hlook].
  - intros p Hother. rewrite Hfiles, <- Hfiles1.
    apply fold_left_save_other. exact Hother.
Qed.

Lemma download_saves_every_object_witness :
  exists w',
    downloadAll small_bucket_env downloader 1 empty_world = (Ok tt, w') /\
    length (w_sent w') = 3%nat /\
    w_files w' !! lit "downloads/b.pdf" = Some (Bytes (lit "b.pdf!")) /\
    w_files w' !! lit "downloads/manuals" = None.
Proof.
  destruct (download_saves_every_object small_bucket_env downloader 1
              [lit "manuals/"; lit "manuals/a.pdf"; lit "b.pdf"] empty_world
              (snd (listObjects small_bucket_env downloader 1 empty_world)))
    as (w' & gets & Hrun & Hsent & Hgets & Hsaved & Hother).
  - vm_compute. reflexivity.
  - intros k _ _. reflexivity.
  - intros k [<- | [<- | [<- | []]]]; vm_compute; reflexivity.
  - vm_compute. apply List.NoDup_cons; [|apply List.NoDup_cons].
    + intros [H|[]]. discriminate H.
    + intros [].
    + apply List.NoDup_nil.
  - intros k k' [<- | [<- | [<- | []]]] [<- | [<- | [<- | []]]] Hk Hk';
      try discriminate Hk; try discriminate Hk'; vm_compute; reflexivity.
  - exists w'. split; [exact Hrun|]. split; [|split].
    + rewrite Hsent, length_app, (Permutation_length Hgets). reflexivity.
    + destruct (Hsaved (lit "b.pdf")) as (chunks & Hget & Hfile).
      * do 2 right. left. reflexivity.
      * vm_compute. reflexivity.
      * injection Hget as <-. exact Hfile.
    + rewrite Hother; [reflexivity|].
      intros k [<- | [<- | [<- | []]]]; vm_compute; congruence.
Defined.

(** X16.  The 'EEXIST' of [mkdir] is swallowed.  When [mkdir] of the
    directory of the target file fails, the download of the object goes on
    exactly if the error's code is 'EEXIST': the request for the object is
    then sent, and when the write that follows fails, as it does when what
    is there is not a directory, the download throws the error of the
    write and no file has changed.  With any other code the error of
    [mkdir] is thrown before any request is sent, and nothing is
    written. *)
Theorem mkdir_eexist_is_swallowed (env : Env) (this : S3Downloader)
  (key code path : jsstring) (w : World) :
  isDirectoryKey key = false ->
  fs_fault env (OpMkdir (Path.dirname (filePathOf this key))) =
    Some (SystemError code path) ->
  exists r w',
    downloadFile env this key w = (r, w') /\
    w_dirs w' = w_dirs w /\
    if JS.eqb code (lit "EEXIST")
    then
      w_sent w' = w_sent w ++ [GetObject (getCommand this key)] /\
      forall chunks e,
        s3_get env (getCommand this key) = Fulfilled (Readable chunks) ->
        fs_fault env (OpWriteFile (filePathOf this key)) = Some e ->
        r = Err e /\ w_files w' = w_files w
    else
      r = Err (SystemError code path) /\
      w_sent w' = w_sent w /\
      w_files w' = w_files w.
Proof.
  intros Hdir Hmk.
  unfold downloadFile, try_catch, bind, dl_ensureDirectoryExists, try_catch,
    mkdir, send_get, writeFile.
  fold (filePathOf this key). fold (getCommand this key).
  rewrite Hdir, Hmk. cbn [error_code].
  destruct (JS.eqb code (lit "EEXIST")).
  - cbn [ret logger_info logger].
    destruct (s3_get env (getCommand this key)) as [[chunks|]|e'];
      cbn [await ret throw].
    + destruct (fs_fault env (OpWriteFile (filePathOf this key))) as [e|];
        eexists _, _; (split; [reflexivity|]); (split; [reflexivity|]);
        (split; [reflexivity|]); intros chunks' e0 _ Hwrite;
        [injection Hwrite as <-; split; reflexivity | discriminate Hwrite].
    + eexists _, _. split; [reflexivity|]. split; [reflexivity|].
      split; [reflexivity|]. intros chunks e0 Hget. discriminate Hget.
    + eexists _, _. split; [reflexivity|]. split; [reflexivity|].
      split; [reflexivity|]. intros chunks e0 Hget. discriminate Hget.
  - eexists _, _. split; [reflexivity|]. split; [reflexivity|].
    repeat split; reflexivity.
Qed.

(** A file is in the way of every directory: [mkdir] reports 'EEXIST' and
    no file can be written below it. *)
Definition file_in_the_way_env : Env :=
  {| cwd := lit "/repo";
     fs_tree := fun p => Missing (no_entry p);
     fs_readFile := fun p => Rejected (no_entry p);
     fs_fault := fun op =>
       match op with
       | OpMkdir p => Some (SystemError (lit "EEXIST") p)
       | OpWriteFile p => Some (SystemError (lit "ENOTDIR") p)
       | _ => None
       end;
     pdf2pic := fun p => Rejected (no_entry p);
     s3_put_fault := fun _ => None;
     s3_list := fun _ => Rejected (ServiceError (lit "NoSuchBucket"));
     s3_get := fun c => Fulfilled (Readable [get_Key c]) |}.

Lemma mkdir_eexist_is_swallowed_witness :
  exists w',
    downloadFile file_in_the_way_env downloader (lit "manuals/a.pdf")
      empty_world =
      (Err (SystemError (lit "ENOTDIR") (lit "downloads/manuals/a.pdf")), w') /\
    w_sent w' = [GetObject (getCommand downloader (lit "manuals/a.pdf"))] /\
    w_files w' = w_files empty_world.
Proof.
  destruct (mkdir_eexist_is_swallowed file_in_the_way_env downloader
              (lit "manuals/a.pdf") (lit "EEXIST") (lit "downloads/manuals")
              empty_world)
    as (r & w' & Hrun & _ & Hgoes).
  - vm_compute. reflexivity.
  - vm_compute. reflexivity.
  - change (JS.eqb (lit "EEXIST") (lit "EEXIST")) with true in Hgoes.
    destruct Hgoes as [Hsent Hwrite].
    destruct (Hwrite [lit "manuals/a.pdf"]
                (SystemError (lit "ENOTDIR") (lit "downloads/manuals/a.pdf")))
      as [Hr Hfiles].
    + vm_compute. reflexivity.
    + vm_compute. reflexivity.
    + subst r. exists w'. split; [exact Hrun|].
      split; [exact Hsent | exact Hfiles].
Defined.

(* ===================================================================== *)
(** ** Markdown records: where they go, what a run leaves alone *)
(* ===================================================================== *)

Lemma slug_unit_not_separator c :
  is_slug_unit c = true -> c <> Path.slash /\ c <> Path.dot.
Proof.
  unfold is_slug_unit, Path.slash, Path.dot. intros H.
  rewrite ?orb_true_iff, ?andb_true_iff, ?N.leb_le, ?N.eqb_eq in H.
  lia.
Qed.

Lemma slug_md_entry_name (slug : jsstring) :
  Forall (fun c => is_slug_unit c = true) slug ->
  is_entry_name (slug ++ lit ".md") = true.
Proof.
  intros Hslug. unfold is_entry_name.
  rewrite !andb_true_iff, !negb_true_iff. repeat split.
  - destruct slug; reflexivity.
  - rewrite forallb_app. apply andb_true_iff. split; [|reflexivity].
    apply List.forallb_forall. intros c Hc.
    rewrite List.Forall_forall in Hslug.
    apply negb_true_iff, N.eqb_neq.
    apply (slug_unit_not_separator c (Hslug c Hc)).
  - apply eqb_neq. intros E. apply (f_equal (@length _)) in E.
    rewrite length_app in E. change (length (lit ".")) with 1%nat in E.
    change (length (lit ".md")) with 3%nat in E. lia.
  - apply eqb_neq. intros E. apply (f_equal (@length _)) in E.
    rewrite length_app in E. change (length (lit "..")) with 2%nat in E.
    change (length (lit ".md")) with 3%nat in E. lia.
Qed.

(** X17.  A record cannot leave the output directory.  Whatever a file is
    called, its record is written to a path made of a prefix that only the
    output directory determines, empty or ending with a separator, followed
    by [slug.md]; the slug has neither a separator nor a dot, so [slug.md]
    is the last component of that path. *)
Theorem record_stays_in_output_directory (this : DirectoryMaker)
  (outputDir : jsstring) :
  exists pre,
    (pre = [] \/ exists d, pre = d ++ [Path.slash]) /\
    forall filename,
      let slug := sanitizedFileName (extractMetadata this filename) in
      outputPathOf this outputDir filename = pre ++ slug ++ lit ".md" /\
      Path.basename (outputPathOf this outputDir filename) = slug ++ lit ".md" /\
      ~ In Path.slash slug /\ ~ In Path.dot slug.
Proof.
  exists (joined_prefix outputDir). split; [apply joined_prefix_shape|].
  intros filename slug.
  assert (Hslug : Forall (fun c => is_slug_unit c = true) slug).
  { apply remove_non_slug_class. }
  pose proof (slug_md_entry_name slug Hslug) as Hentry.
  unfold outputPathOf. fold slug.
  split; [apply join_entry_prefix; exact Hentry|].
  split; [apply basename_join_entry; exact Hentry|].
  rewrite List.Forall_forall in Hslug.
  split; intros Hin;
    destruct (slug_unit_not_separator _ (Hslug _ Hin)) as [H1 H2];
    congruence.
Qed.

(** The error with which [readdir] of a path fails, if it does. *)
Definition readdir_error (env : Env) (p : jsstring) : option Error :=
  match fs_tree env p with
  | Directory _ => None
  | Unreadable e | Missing e => Some e
  | File | Special => Some (SystemError (lit "ENOTDIR") p)
  end.

Section MarkdownSetup.

Variable env : Env.
Variable this : DirectoryMaker.

Lemma createFiles_no_directory stagingFolder e w :
  fs_fault env (OpMkdir (outputDirOf env this)) = Some e ->
  createFilesFromDirectory env this stagingFolder w =
  (Err e,
   add_log
     [entry Error_ [("dirPath"%string, outputDirOf env this)] (Some e)
        (lit "Failed to create directory");
      notProcessedLine stagingFolder e] w).
Proof.
  intros Hmk.
  unfold createFilesFromDirectory, try_catch, bind, dm_ensureDirectoryExists,
    try_catch, bind, mkdir.
  fold (outputDirOf env this). rewrite Hmk.
  cbn [logger_error logger throw]. same_world.
Qed.

Lemma createFiles_no_listing stagingFolder e w :
  fs_fault env (OpMkdir (outputDirOf env this)) = None ->
  readdir_error env stagingFolder = Some e ->
  createFilesFromDirectory env this stagingFolder w =
  (Err e,
   add_log
     [entry Debug [] None
        (lit "Ensured directory exists: " ++ outputDirOf env this);
      notProcessedLine stagingFolder e]
     (set_dirs (fun d => {[ outputDirOf env this ]} ∪ d) w)).
Proof.
  intros Hmk Hlist.
  unfold createFilesFromDirectory, try_catch, bind, dm_ensureDirectoryExists,
    try_catch, bind, mkdir, readdir.
  fold (outputDirOf env this). rewrite Hmk.
  cbn [logger_debug logger ret].
  unfold readdir_error in Hlist.
  destruct (fs_tree env stagingFolder); try discriminate Hlist;
    injection Hlist as <-; cbn [logger_error logger throw]; same_world.
Qed.

Lemma written_other (outputDir : jsstring) (files : list jsstring)
  (m : gmap jsstring FileData) (p : jsstring) :
  (forall f, In f files -> accepted f = true ->
             outputPathOf this outputDir f <> p) ->
  written env this outputDir files m !! p = m !! p.
Proof.
  revert m. induction files as [|f files IH]; intros m Hother; [reflexivity|].
  cbn [written].
  rewrite IH by (intros f' Hf'; apply Hother; right; exact Hf').
  destruct (accepted f) eqn:Eacc; [|reflexivity].
  destruct (fault_of env this outputDir f); [reflexivity|].
  apply lookup_insert_ne. apply Hother; [left; reflexivity | exact Eacc].
Qed.

End MarkdownSetup.

(** An environment in which no directory can be created. *)
Definition read_only_env : Env :=
  {| cwd := lit "/repo";
     fs_tree := staging [(lit "ADK1152.pdf", File)];
     fs_readFile := fun p => Fulfilled p;
     fs_fault := fun op =>
       match op with
       | OpMkdir p => Some (SystemError (lit "EROFS") p)
       | _ => None
       end;
     pdf2pic := fun p => Fulfilled p;
     s3_put_fault := fun _ => None;
     s3_list := fun _ => Rejected (ServiceError (lit "NoSuchBucket"));
     s3_get := fun _ => Rejected (ServiceError (lit "NoSuchKey")) |}.

(** X18.  Failures before the first record.  When the output directory
    cannot be created, [createFilesFromDirectory] throws that error without
    reading the staging folder: nothing is written, and the log gets the
    entry of the directory and the entry of the run.  When the directory is
    created and the staging folder cannot be listed, it throws the listing's
    error: the output directory stays created, and nothing is written. *)
Theorem markdown_setup_failures (env : Env) (this : DirectoryMaker)
  (stagingFolder : jsstring) (e : Error) (w : World) :
  (fs_fault env (OpMkdir (outputDirOf env this)) = Some e ->
   exists w',
     createFilesFromDirectory env this stagingFolder w = (Err e, w') /\
     w_files w' = w_files w /\
     w_dirs w' = w_dirs w /\
     w_log w' =
       w_log w ++
       [entry Error_ [("dirPath"%string, outputDirOf env this)] (Some e)
          (lit "Failed to create directory");
        notProcessedLine stagingFolder e]) /\
  (fs_fault env (OpMkdir (outputDirOf env this)) = None ->
   readdir_error env stagingFolder = Some e ->
   exists w' l,
     createFilesFromDirectory env this stagingFolder w = (Err e, w') /\
     w_files w' = w_files w /\
     w_dirs w' = {[ outputDirOf env this ]} ∪ w_dirs w /\
     w_log w' = l ++ [notProcessedLine stagingFolder e]).
Proof.
  split.
  - intros Hmk. eexists. split; [apply createFiles_no_directory, Hmk|].
    repeat split; reflexivity.
  - intros Hmk Hlist.
    eexists _, (w_log w ++
                [entry Debug [] None
                   (lit "Ensured directory exists: " ++ outputDirOf env this)]).
    split; [apply createFiles_no_listing; assumption|].
    repeat split; try reflexivity.
    cbn [w_log add_log set_log set_dirs].
    rewrite <- app_assoc. reflexivity.
Qed.

Lemma markdown_setup_failures_witness :
  (exists w',
     createFilesFromDirectory read_only_env mini (lit "./pdfs") empty_world =
       (Err (SystemError (lit "EROFS") (lit "/repo/content/archive/mini")), w') /\
     w_files w' = w_files empty_world) /\
  (exists w',
     createFilesFromDirectory (calm_env (staging []) readable) mini
       (lit "./nowhere") empty_world =
       (Err (no_entry (lit "./nowhere")), w') /\
     w_dirs w' = {[ lit "/repo/content/archive/mini" ]} ∪ w_dirs empty_world).
Proof.
  split.
  - destruct (proj1 (markdown_setup_failures read_only_env mini (lit "./pdfs")
                       (SystemError (lit "EROFS")
                          (lit "/repo/content/archive/mini"))
                       empty_world))
      as (w' & Hrun & Hfiles & _).
    + vm_compute. reflexivity.
    + exists w'. split; assumption.
  - destruct (proj2 (markdown_setup_failures (calm_env (staging []) readable)
                       mini (lit "./nowhere") (no_entry (lit "./nowhere"))
                       empty_world))
      as (w' & l & Hrun & _ & Hdirs & _).
    + vm_compute. reflexivity.
    + vm_compute. reflexivity.
    + exists w'. split; [exact Hrun|]. rewrite Hdirs. reflexivity.
Defined.

(** X19.  What a markdown run leaves alone.  Whatever its outcome,
    [createFilesFromDirectory] removes no file, and changes no file other
    than the records of the accepted names of the staging folder. *)
Theorem markdown_frame (env : Env) (this : DirectoryMaker)
  (stagingFolder : jsstring) (w w' : World) (r : result unit) :
  createFilesFromDirectory env this stagingFolder w = (r, w') ->
  (forall p, is_Some (w_files w !! p) -> is_Some (w_files w' !! p)) /\
  (forall p,
     (forall entries filename,
        fs_tree env stagingFolder = Directory entries ->
        In filename (List.map fst entries) ->
        accepted filename = true ->
        outputPathOf this (outputDirOf env this) filename <> p) ->
     w_files w' !! p = w_files w !! p).
Proof.
  intros Hrun.
  destruct (fs_fault env (OpMkdir (outputDirOf env this))) as [e|] eqn:Hmk.
  { rewrite (createFiles_no_directory env this stagingFolder e w Hmk) in Hrun.
    injection Hrun as <- <-. split; [intros p H; exact H | reflexivity]. }
  destruct (readdir_error env stagingFolder) as [e|] eqn:Hlist.
  { rewrite (createFiles_no_listing env this stagingFolder e w Hmk Hlist)
      in Hrun.
    injection Hrun as <- <-. split; [intros p H; exact H | reflexivity]. }
  unfold readdir_error in Hlist.
  destruct (fs_tree env stagingFolder) as [|entries| | |] eqn:Htree;
    try discriminate Hlist.
  destruct (createFilesFromDirectory_run env this stagingFolder entries w
              Hmk Htree) as (w0 & Hrun0 & Hfiles & _).
  rewrite Hrun in Hrun0. injection Hrun0 as _ <-.
  split.
  - intros p Hp. rewrite Hfiles. apply written_keeps. exact Hp.
  - intros p Hother. rewrite Hfiles. apply written_other.
    intros f Hin Hacc. exact (Hother entries f eq_refl Hin Hacc).
Qed.

Lemma markdown_frame_witness :
  w_files
    (snd (createFilesFromDirectory
            (calm_env (staging [(lit "ADK1152.pdf", File)]) readable) mini
            (lit "./pdfs") empty_world))
    !! lit "/repo/content/archive/mini/other.md" = None.
Proof.
  rewrite (proj2 (markdown_frame
                    (calm_env (staging [(lit "ADK1152.pdf", File)]) readable)
                    mini (lit "./pdfs") empty_world _ _
                    (surjective_pairing _))).
  - reflexivity.
  - intros entries filename Htree Hin Hacc.
    vm_compute in Htree. injection Htree as <-.
    destruct Hin as [<- | []]. vm_compute. congruence.
Defined.

(* ===================================================================== *)
(** ** Previews: the output directory, and a preview that is lost *)
(* ===================================================================== *)

Section PreviewSetup.

Variable env : Env.
Variable this : ImagePreviewMaker.

(** Whether [fs.exists] finds the output directory. *)
Definition output_there (w : World) : bool :=
  bool_decide (output this ∈ w_dirs w) ||
  bool_decide (is_Some (w_files w !! output this)).

(** The run of [createPreviews] once the source directory is listed. *)
Lemma createPreviews_listed (entries : list (jsstring * node)) (w : World) :
  fs_tree env (source this) = Directory entries ->
  output_there w = true \/ fs_fault env (OpMkdir (output this)) = None ->
  exists w',
    createPreviews env this w = (Ok tt, w') /\
    w_files w' =
      fold_left (turnFiles env this)
        (List.filter isPdfName (List.map fst entries)) (w_files w) /\
    w_dirs w' =
      (if output_there w then w_dirs w else {[ output this ]} ∪ w_dirs w) /\
    w_sent w' = w_sent w.
Proof.
  intros Htree Hdir.
  unfold createPreviews, try_catch, bind, ensureOutputDirectoryExists, bind,
    exists_, mkdir, readdir.
  fold (output_there w). rewrite Htree. cbn [ret].
  set (pdfFiles := List.filter isPdfName (List.map fst entries)).
  destruct (output_there w) eqn:Ethere; cbn [negb logger_debug logger ret].
  - destruct pdfFiles as [|file rest] eqn:Epdf.
    + eexists. split; [reflexivity|]. repeat split; reflexivity.
    + cbn [length Nat.eqb logger_info logger].
      rewrite convertAll_run. eexists. split; [reflexivity|].
      cbn [w_files w_dirs w_sent set_log].
      match goal with
      | |- context [fold_left _ ?l ?w0] =>
          destruct (convertedAll_fields env this l w0) as (Hf & Hd & Hs & _)
      end.
      rewrite Hf, Hd, Hs. repeat split; reflexivity.
  - destruct Hdir as [Hdir | Hmk]; [discriminate Hdir|]. rewrite Hmk.
    destruct pdfFiles as [|file rest] eqn:Epdf.
    + eexists. split; [reflexivity|]. repeat split; reflexivity.
    + cbn [length Nat.eqb logger_info logger].
      rewrite convertAll_run. eexists. split; [reflexivity|].
      cbn [w_files w_dirs w_sent set_log].
      match goal with
      | |- context [fold_left _ ?l ?w0] =>
          destruct (convertedAll_fields env this l w0) as (Hf & Hd & Hs & _)
      end.
      rewrite Hf, Hd, Hs. repeat split; reflexivity.
Qed.

End PreviewSetup.

(** X20.  The output directory of the previews.  When the output path
    already exists, [createPreviews] does not try to create it: it
    completes whether or not [mkdir] would fail.  When the path does not
    exist and [mkdir] fails, it throws that error before reading the
    source: no file is converted and the log gets the entry of the
    attempt and the error entry of the run.  When the source cannot be
    listed it throws the listing's error, after the output directory was
    created. *)
Theorem preview_setup (env : Env) (this : ImagePreviewMaker) (w : World) :
  (forall entries,
     output_there this w = true ->
     fs_tree env (source this) = Directory entries ->
     exists w',
       createPreviews env this w = (Ok tt, w') /\ w_dirs w' = w_dirs w) /\
  (forall e,
     output_there this w = false ->
     fs_fault env (OpMkdir (output this)) = Some e ->
     exists w',
       createPreviews env this w = (Err e, w') /\
       w_files w' = w_files w /\
       w_dirs w' = w_dirs w /\
       w_log w' =
         w_log w ++
         [entry Debug [] None
            (lit "Creating output directory: " ++ output this);
          entry Error_ [] (Some e) (lit "Error in createPreviews")]) /\
  (forall e,
     output_there this w = false ->
     fs_fault env (OpMkdir (output this)) = None ->
     readdir_error env (source this) = Some e ->
     exists w' l,
       createPreviews env this w = (Err e, w') /\
       w_files w' = w_files w /\
       w_dirs w' = {[ output this ]} ∪ w_dirs w /\
       w_log w' = l ++ [entry Error_ [] (Some e) (lit "Error in createPreviews")]).
Proof.
  split; [|split].
  - intros entries Hthere Htree.
    destruct (createPreviews_listed env this entries w Htree
                (or_introl Hthere)) as (w' & Hrun & _ & Hdirs & _).
    exists w'. split; [exact Hrun|]. rewrite Hdirs, Hthere. reflexivity.
  - intros e Hthere Hmk.
    unfold createPreviews, try_catch, bind, ensureOutputDirectoryExists, bind,
      exists_, mkdir.
    fold (output_there this w). rewrite Hthere.
    cbn [negb logger_debug logger ret]. rewrite Hmk.
    cbn [logger_error logger throw].
    eexists. split; [reflexivity|]. repeat split; try reflexivity.
    cbn [w_log set_log]. rewrite <- app_assoc. reflexivity.
  - intros e Hthere Hmk Hlist.
    unfold createPreviews, try_catch, bind, ensureOutputDirectoryExists, bind,
      exists_, mkdir, readdir.
    fold (output_there this w). rewrite Hthere.
    cbn [negb logger_debug logger ret]. rewrite Hmk.
    unfold readdir_error in Hlist.
    destruct (fs_tree env (source this)); try discriminate Hlist;
      injection Hlist as <-; cbn [logger_error logger throw];
      eexists _, _; (split; [reflexivity|]);
      repeat split; reflexivity.
Qed.

Lemma preview_setup_witness :
  (exists w',
     createPreviews read_only_env previewer
       (set_dirs (fun d => {[ lit "./out" ]} ∪ d) empty_world) = (Ok tt, w')) /\
  (exists w',
     createPreviews read_only_env previewer empty_world =
       (Err (SystemError (lit "EROFS") (lit "./out")), w') /\
     w_files w' = w_files empty_world).
Proof.
  split.
  - destruct (proj1 (preview_setup read_only_env previewer
                       (set_dirs (fun d => {[ lit "./out" ]} ∪ d) empty_world))
                [(lit "ADK1152.pdf", File)])
      as (w' & Hrun & _).
    + vm_compute. reflexivity.
    + vm_compute. reflexivity.
    + exists w'. exact Hrun.
  - destruct (proj1 (proj2 (preview_setup read_only_env previewer empty_world))
                (SystemError (lit "EROFS") (lit "./out")))
      as (w' & Hrun & Hfiles & _).
    + vm_compute. reflexivity.
    + vm_compute. reflexivity.
    + exists w'. split; assumption.
Defined.

(** X21.  A preview that is lost.  The converter's file of a later PDF can
    have the path of the preview of an earlier one, as with 'x.1.pdf'
    followed by 'x.pdf'.  When the PDFs of the source directory are such a
    pair, the converter stores the file of each where the rename looks for
    it, and both conversions succeed, [createPreviews] completes with both
    logged as converted, but in the end only the later file has its
    preview: the earlier preview was overwritten and then renamed away. *)
Theorem later_conversion_removes_preview (env : Env) (this : ImagePreviewMaker)
  (entries : list (jsstring * node)) (f1 f2 : jsstring)
  (image1 image2 : Buffer) (w : World) :
  fs_tree env (source this) = Directory entries ->
  fs_fault env (OpMkdir (output this)) = None ->
  List.filter isPdfName (List.map fst entries) = [f1; f2] ->
  storedFileOf this f1 = tempFilePathOf this f1 ->
  storedFileOf this f2 = tempFilePathOf this f2 ->
  tempFilePathOf this f2 = outputFilePathOf this f1 ->
  outputFilePathOf this f2 <> outputFilePathOf this f1 ->
  conversion env this f1 = Fulfilled image1 ->
  conversion env this f2 = Fulfilled image2 ->
  exists w',
    createPreviews env this w = (Ok tt, w') /\
    w_files w' !! outputFilePathOf this f1 = None /\
    w_files w' !! outputFilePathOf this f2 = Some (Bytes image2) /\
    In (convertedLine this f1) (w_log w') /\
    In (convertedLine this f2) (w_log w').
Proof.
  intros Htree Hmk Hpdf Hstored1 Hstored2 Htemp Hout Hconv1 Hconv2.
  destruct (createPreviews_run env this entries w Htree Hmk)
    as (w0 & w' & Hrun & _ & Hfiles & Hlog).
  rewrite Hpdf in Hfiles, Hlog. cbn [fold_left turnLogs] in Hfiles, Hlog.
  assert (Hturn : forall f image m,
            storedFileOf this f = tempFilePathOf this f ->
            conversion env this f = Fulfilled image ->
            turnFiles env this m f =
            <[ outputFilePathOf this f := Bytes image ]>
              (delete (tempFilePathOf this f)
                 (<[ tempFilePathOf this f := Bytes image ]> m)) /\
            In (convertedLine this f) (turnLog env this m f)).
  { intros f image m Hstored Hconv.
    pose proof (turnLog_outcome env this m f Hstored) as Hl.
    rewrite Hconv in Hl. rewrite Hl.
    split; [|right; left; reflexivity].
    revert Hconv. unfold conversion, turnFiles.
    destruct (pdf2pic env (sourcePathOf this f)) as [img|e]; [|discriminate].
    destruct (fs_fault env (OpRename (tempFilePathOf this f)
                              (outputFilePathOf this f)));
      [discriminate|].
    intros H. injection H as <-. cbv zeta.
    rewrite Hstored, lookup_insert_eq. reflexivity. }
  exists w'. split; [exact Hrun|].
  destruct (Hturn f1 image1 (w_files w) Hstored1 Hconv1) as [Hfiles1 Hlog1].
  destruct (Hturn f2 image2 (turnFiles env this (w_files w) f1) Hstored2
              Hconv2) as [Hfiles2 Hlog2].
  rewrite Hfiles, Hfiles2.
  split; [|split; [|split]].
  - rewrite lookup_insert_ne by exact Hout.
    rewrite Htemp. apply lookup_delete_eq.
  - apply lookup_insert_eq.
  - rewrite Hlog. apply in_or_app. right. right.
    apply in_or_app. left. apply in_or_app. left. exact Hlog1.
  - rewrite Hlog. apply in_or_app. right. right.
    apply in_or_app. left.
    apply in_or_app. right. apply in_or_app. left. exact Hlog2.
Qed.

Lemma later_conversion_removes_preview_witness :
  exists w',
    createPreviews
      (calm_env (staging [(lit "x.1.pdf", File); (lit "x.pdf", File)]) readable)
      previewer empty_world = (Ok tt, w') /\
    w_files w' !! lit "out/x.1.jpeg" = None /\
    w_files w' !! lit "out/x.jpeg" = Some (Bytes (lit "pdfs/x.pdf")).
Proof.
  destruct (later_conversion_removes_preview
              (calm_env (staging [(lit "x.1.pdf", File); (lit "x.pdf", File)])
                 readable)
              previewer [(lit "x.1.pdf", File); (lit "x.pdf", File)]
              (lit "x.1.pdf") (lit "x.pdf")
              (lit "pdfs/x.1.pdf") (lit "pdfs/x.pdf") empty_world)
    as (w' & Hrun & Hnone & Hsome & _).
  - vm_compute. reflexivity.
  - reflexivity.
  - vm_compute. reflexivity.
  - vm_compute. reflexivity.
  - vm_compute. reflexivity.
  - vm_compute. reflexivity.
  - vm_compute. congruence.
  - vm_compute. reflexivity.
  - vm_compute. reflexivity.
  - exists w'. split; [exact Hrun|]. split; [exact Hnone | exact Hsome].
Defined.

(* ===================================================================== *)
(** ** Keys that name a place outside the download directory *)
(* ===================================================================== *)

Lemma join_parent_entry (dir name : jsstring) :
  is_entry_name dir = true ->
  is_entry_name name = true ->
  Path.join [dir; lit "../" ++ name] = name.
Proof.
  intros Hdir Hname.
  destruct (is_entry_name_parts dir Hdir) as (Hd0 & Hdslash & Hddot & Hddots).
  destruct (is_entry_name_parts name Hname) as (Hn0 & Hnslash & Hndot & Hndots).
  assert (Hdempty : JS.eqb dir [] = false).
  { destruct dir; [congruence|reflexivity]. }
  assert (Hnempty : JS.eqb name [] = false).
  { destruct name; [congruence|reflexivity]. }
  assert (Hdabs : Path.isAbsolute dir = false).
  { destruct dir as [|d0 dir]; [reflexivity|].
    simpl in Hdslash. apply andb_true_iff in Hdslash.
    destruct Hdslash as [H _]. apply negb_true_iff in H. exact H. }
  set (path0 := dir ++ Path.slash :: lit ".." ++ Path.slash :: name).
  assert (Hjoin : Path.join [dir; lit "../" ++ name] = Path.normalize path0).
  { unfold Path.join. simpl List.filter.
    destruct dir as [|d0 dir]; [congruence|]. reflexivity. }
  assert (Hsplit : Path.split path0 = [dir; lit ".."; name]).
  { unfold path0. rewrite split_app_slash, (split_name dir Hdslash).
    rewrite split_app_slash, (split_name name Hnslash). reflexivity. }
  assert (Hlast : N.eqb (List.last path0 0%N) Path.slash = false).
  { unfold path0.
    replace (dir ++ Path.slash :: lit ".." ++ Path.slash :: name)
      with ((dir ++ Path.slash :: lit ".." ++ [Path.slash]) ++ name)
      by (rewrite <- app_assoc; reflexivity).
    rewrite (last_app_name _ _ _ Hn0). apply last_not_slash. exact Hnslash. }
  assert (Habs : Path.isAbsolute path0 = false).
  { unfold path0. destruct dir as [|d0 dir]; [congruence|]. exact Hdabs. }
  rewrite Hjoin. unfold Path.normalize.
  destruct path0 as [|c0 path1] eqn:Epath.
  { unfold path0 in Epath. destruct dir; discriminate Epath. }
  rewrite <- Epath in *. clear Epath c0 path1.
  rewrite Hlast, Habs. unfold Path.normalizeString. rewrite Hsplit.
  cbn [Path.normalizeSegments negb].
  rewrite Hdempty, Hddot, Hddots. cbn [orb].
  change (JS.eqb (lit "..") [] || JS.eqb (lit "..") (lit ".")) with false.
  change (JS.eqb (lit "..") (lit "..")) with true. cbn iota.
  rewrite Hnempty, Hndot, Hndots. cbn [orb rev app Path.unsplit].
  destruct name as [|n0 name']; [congruence|]. reflexivity.
Qed.

Lemma entry_name_not_directory_key (pre name : jsstring) :
  is_entry_name name = true -> isDirectoryKey (pre ++ name) = false.
Proof.
  intros Hname.
  destruct (is_entry_name_parts name Hname) as (Hn0 & Hnslash & _).
  unfold isDirectoryKey, endsWith.
  change (length (lit "/")) with 1%nat.
  destruct (1 <=? length (pre ++ name))%nat eqn:Elen; [|reflexivity].
  cbn [andb]. apply eqb_neq. intros Hsuffix.
  pose proof (last_not_slash name Hnslash) as Hlast.
  rewrite <- (last_app_name pre name 0%N Hn0) in Hlast.
  rewrite <- (List.firstn_skipn (length (pre ++ name) - 1) (pre ++ name))
    in Hlast.
  rewrite Hsuffix in Hlast. change (lit "/") with [Path.slash] in Hlast.
  rewrite List.last_last in Hlast. discriminate Hlast.
Qed.

(** X22.  A key is not confined to the download directory.  The local path
    of an object is [localPath] joined with its key, and [join] resolves
    '..' segments: for a download directory of one segment, the object with
    key [../name] is written to [name], beside the download directory. *)
Theorem key_can_leave_local_path (env : Env) (this : S3Downloader)
  (name : jsstring) (chunks : list Buffer) (w : World) :
  is_entry_name (localPath this) = true ->
  is_entry_name name = true ->
  download_fault env this (lit "../" ++ name) = None ->
  s3_get env (getCommand this (lit "../" ++ name)) =
    Fulfilled (Readable chunks) ->
  filePathOf this (lit "../" ++ name) = name /\
  exists w',
    downloadFile env this (lit "../" ++ name) w = (Ok tt, w') /\
    w_files w' = <[ name := Bytes (List.concat chunks) ]> (w_files w).
Proof.
  intros Hlocal Hname Hok Hget.
  assert (Hpath : filePathOf this (lit "../" ++ name) = name).
  { apply join_parent_entry; assumption. }
  split; [exact Hpath|].
  destruct (downloadFile_ok env this (lit "../" ++ name) w Hok)
    as (w' & Hrun & Hfiles & _).
  exists w'. split; [exact Hrun|]. rewrite Hfiles.
  unfold save, fetched.
  rewrite (entry_name_not_directory_key (lit "../") name Hname), Hget, Hpath.
  reflexivity.
Qed.

Lemma key_can_leave_local_path_witness :
  filePathOf
    {| region := lit "us-east-1"; bucket := lit "cmdiy-archive"; prefix := [];
       localPath := lit "downloads"; maxKeys := 1000 |}
    (lit "../" ++ lit "notes.txt") = lit "notes.txt".
Proof.
  apply (key_can_leave_local_path small_bucket_env
           {| region := lit "us-east-1"; bucket := lit "cmdiy-archive";
              prefix := []; localPath := lit "downloads"; maxKeys := 1000 |}
           (lit "notes.txt") [lit "../notes.txt"; lit "!"] empty_world).
  - vm_compute. reflexivity.
  - vm_compute. reflexivity.
  - vm_compute. reflexivity.
  - vm_compute. reflexivity.
Defined.

(* ===================================================================== *)
(** ** The command line: how an action exits *)
(* ===================================================================== *)

(** How an action of the command line ends: with [process.exit(code)], or
    not within the fuel given to its loops. *)
Inductive Exit :=
| Exited (code : Z)
| Running.

(** [try { body; logger.info(done); process.exit(0) }
     catch (error) { logger.error(error, failed); process.exit(1) }].
    In the [catch] the error is itself the first argument of the logger. *)
Definition action (body : M unit) (done_ failed : jsstring)
  : World -> Exit * World :=
  fun w =>
    match body w with
    | (Ok _, w1) => (Exited 0, snd (logger_info done_ w1))
    | (Err e, w1) => (Exited 1, snd (logger Error_ [] (Some e) failed w1))
    | (OutOfFuel, w1) => (Running, w1)
    end.

(** The options of [generate-markdown], all of them required. *)
Record MarkdownOptions := {
  md_source : jsstring;
  md_output : jsstring;
  md_awsLocation : jsstring;
  md_prefix : jsstring;
}.

Definition directoryMakerOf (options : MarkdownOptions) : DirectoryMaker :=
  {| dm_prefix := md_prefix options;
     dm_awsLocation := md_awsLocation options;
     dm_outputBasePath := md_output options |}.

Definition generate_markdown (env : Env) (options : MarkdownOptions)
  : World -> Exit * World :=
  action
    (logger_info (lit "Starting markdown generation...") ;;
     let directoryMaker := directoryMakerOf options in
     createFilesFromDirectory env directoryMaker (md_source options))
    (lit "Markdown generation completed successfully")
    (lit "An error occurred during markdown generation").




Lemma first_fault_None env this outputDir (files : list jsstring) :
  first_fault env this outputDir files = None ->
  forall f, In f files -> fault_of env this outputDir f = None.
Proof.
  induction files as [|f0 files IH]; intros H f Hin; [destruct Hin|].
  cbn [first_fault] in H.
  destruct (fault_of env this outputDir f0) eqn:E; [discriminate H|].
  destruct Hin as [<- | Hin]; [exact E | exact (IH H f Hin)].
Qed.

(** X23.  The exit code of [generate-markdown].  The action always exits,
    with 0 or 1.  It exits with 0 exactly when the output directory could
    be created, the source directory could be listed, and the record of
    every accepted name could be written; skipped names do not count. *)
Theorem generate_markdown_exit_code (env : Env) (options : MarkdownOptions)
  (w : World) :
  let this := directoryMakerOf options in
  exists code w',
    generate_markdown env options w = (Exited code, w') /\
    (code = 0 \/ code = 1) /\
    (code = 0 <->
     fs_fault env (OpMkdir (outputDirOf env this)) = None /\
     readdir_error env (md_source options) = None /\
     forall entries filename,
       fs_tree env (md_source options) = Directory entries ->
       In filename (List.map fst entries) ->
       accepted filename = true ->
       fs_fault env
         (OpWriteFile (outputPathOf this (outputDirOf env this) filename)) =
       None).
Proof.
  intros this.
  unfold generate_markdown, action, bind. cbn [logger_info logger].
  fold this.
  set (w1 := set_log _ w).
  destruct (fs_fault env (OpMkdir (outputDirOf env this))) as [e|] eqn:Hmk.
  { rewrite (createFiles_no_directory env this _ e w1 Hmk).
    eexists 1, _. split; [reflexivity|]. split; [right; reflexivity|].
    split; [discriminate | intros [H _]; discriminate H]. }
  destruct (readdir_error env (md_source options)) as [e|] eqn:Hlist.
  { rewrite (createFiles_no_listing env this _ e w1 Hmk Hlist).
    eexists 1, _. split; [reflexivity|]. split; [right; reflexivity|].
    split; [discriminate | intros (_ & H & _); discriminate H]. }
  unfold readdir_error in Hlist.
  destruct (fs_tree env (md_source options)) as [|entries| | |] eqn:Htree;
    try discriminate Hlist.
  destruct (createFilesFromDirectory_run env this (md_source options) entries
              w1 Hmk Htree) as (w2 & Hrun & _).
  rewrite Hrun.
  destruct (first_fault env this (outputDirOf env this)
              (List.map fst entries)) as [e|] eqn:Hfault.
  - eexists 1, _. split; [reflexivity|]. split; [right; reflexivity|].
    split; [discriminate|]. intros (_ & _ & Hok). exfalso.
    rewrite first_fault_none in Hfault; [discriminate Hfault|].
    intros f Hin. unfold fault_of.
    destruct (accepted f) eqn:Eacc; [|reflexivity].
    exact (Hok entries f eq_refl Hin Eacc).
  - eexists 0, _. split; [reflexivity|]. split; [left; reflexivity|].
    split; [|reflexivity]. intros _. split; [reflexivity|].
    split; [reflexivity|].
    intros entries' f Hentries Hin Hacc. injection Hentries as <-.
    pose proof (first_fault_None _ _ _ _ Hfault f Hin) as Hf.
    unfold fault_of in Hf. rewrite Hacc in Hf. exact Hf.
Qed.



(* ===================================================================== *)
(** ** A rename that fails, and the log of a markdown run *)
(* ===================================================================== *)

(** X25.  A preview that could not be renamed.  When the converter has
    stored its file and the rename to the preview's name fails,
    [convertOne] still returns: the converter's file stays where the
    converter stored it, the preview's path is as it was, and the log has
    the entry of the successful conversion, the path the converter
    reported and the error entry of the file. *)
Theorem failed_rename_leaves_converter_file (env : Env)
  (this : ImagePreviewMaker) (file : jsstring) (image : Buffer) (e : Error)
  (w : World) :
  pdf2pic env (sourcePathOf this file) = Fulfilled image ->
  fs_fault env (OpRename (tempFilePathOf this file)
                  (outputFilePathOf this file)) = Some e ->
  storedFileOf this file <> outputFilePathOf this file ->
  exists w',
    convertOne env this file w = (Ok tt, w') /\
    w_files w' !! storedFileOf this file = Some (Bytes image) /\
    w_files w' !! outputFilePathOf this file =
      w_files w !! outputFilePathOf this file /\
    w_log w' =
      w_log w ++
      [convertingLine this file; convertedLine this file;
       entry Debug [] None (lit "Image saved at: " ++ storedPathOf this file);
       errorLine file e].
Proof.
  intros Hpdf Hrename Hne.
  exists (converted env this file w). split; [apply convertOne_run|].
  unfold converted, turnLog, turnFiles. rewrite Hpdf, Hrename.
  cbn [w_files w_log add_log set_log set_files].
  split; [apply lookup_insert_eq|]. split; [|reflexivity].
  apply lookup_insert_ne. exact Hne.
Qed.

(** The rename of the preview of 'a.pdf' fails. *)
Definition no_rename_env : Env :=
  {| cwd := lit "/repo";
     fs_tree := staging [(lit "a.pdf", File)];
     fs_readFile := fun p => Fulfilled p;
     fs_fault := fun op =>
       match op with
       | OpRename from _ => Some (SystemError (lit "EACCES") from)
       | _ => None
       end;
     pdf2pic := fun p => Fulfilled p;
     s3_put_fault := fun _ => None;
     s3_list := fun _ => Rejected (ServiceError (lit "NoSuchBucket"));
     s3_get := fun _ => Rejected (ServiceError (lit "NoSuchKey")) |}.

Lemma failed_rename_leaves_converter_file_witness :
  exists w',
    convertOne no_rename_env previewer (lit "a.pdf") empty_world = (Ok tt, w') /\
    w_files w' !! lit "out/a.1.jpeg" = Some (Bytes (lit "pdfs/a.pdf")) /\
    w_files w' !! lit "out/a.jpeg" = None /\
    In (entry Debug [] None (lit "Image saved at: ./out/a.1.jpeg")) (w_log w').
Proof.
  destruct (failed_rename_leaves_converter_file no_rename_env previewer
              (lit "a.pdf") (lit "pdfs/a.pdf")
              (SystemError (lit "EACCES") (lit "out/a.1.jpeg")) empty_world)
    as (w' & Hrun & Htemp & Hout & Hlog).
  - vm_compute. reflexivity.
  - vm_compute. reflexivity.
  - vm_compute. congruence.
  - exists w'. split; [exact Hrun|]. split; [exact Htemp|].
    split; [exact Hout|]. rewrite Hlog. cbn [w_log empty_world app].
    do 2 right. left. vm_compute. reflexivity.
Defined.

Section MarkdownLog.

Variable env : Env.
Variable this : DirectoryMaker.
Variable outputDir : jsstring.

(** The entry a file name leaves in the log when nothing fails. *)
Definition fileLine (filename : jsstring) : LogEntry :=
  if accepted filename
  then entry Info [] None
         (lit "Created file: " ++ outputPathOf this outputDir filename)
  else entry Debug [] None (lit "Skipping non-PDF file: " ++ filename).

Lemma processAll_log (files : list jsstring) :
  (forall f, In f files -> fault_of env this outputDir f = None) ->
  forall w,
    exists w',
      processAll env this outputDir files w =
        (Ok (List.map (fun _ => tt) files), w') /\
      w_log w' = w_log w ++ List.map fileLine files.
Proof.
  induction files as [|f files IH]; intros Hok w.
  - exists w. split; [reflexivity|]. simpl. rewrite app_nil_r. reflexivity.
  - assert (Hf : fault_of env this outputDir f = None).
    { apply Hok. left. reflexivity. }
    unfold processAll. cbn [List.map promise_all].
    unfold fault_of in Hf.
    destruct (accepted f) eqn:Eacc.
    + rewrite (processFile_written env this f outputDir w Eacc Hf).
      match goal with
      | |- context [promise_all _ ?w0] =>
          destruct (IH (fun f' Hf' => Hok f' (or_intror Hf')) w0)
            as (w' & Hrun & Hlog)
      end.
      unfold processAll in Hrun. rewrite Hrun.
      exists w'. split; [reflexivity|]. rewrite Hlog.
      cbn [w_log add_log set_log set_files List.map].
      replace (fileLine f)
        with (entry Info [] None
                (lit "Created file: " ++ outputPathOf this outputDir f))
        by (unfold fileLine; rewrite Eacc; reflexivity).
      rewrite <- app_assoc. reflexivity.
    + rewrite (processFile_skipped env this f outputDir w Eacc).
      match goal with
      | |- context [promise_all _ ?w0] =>
          destruct (IH (fun f' Hf' => Hok f' (or_intror Hf')) w0)
            as (w' & Hrun & Hlog)
      end.
      unfold processAll in Hrun. rewrite Hrun.
      exists w'. split; [reflexivity|]. rewrite Hlog.
      cbn [w_log add_log set_log List.map].
      replace (fileLine f)
        with (entry Debug [] None (lit "Skipping non-PDF file: " ++ f))
        by (unfold fileLine; rewrite Eacc; reflexivity).
      rewrite <- app_assoc. reflexivity.
Qed.

End MarkdownLog.

(** X26.  The log of a markdown run accounts for every entry.  When
    nothing fails, the log of [createFilesFromDirectory] has, for each name
    of the staging folder, the entry of its record or the entry of its
    being skipped; and the number in the closing entry is the number of all
    names, the skipped ones included. *)
Theorem markdown_log_accounts_for_every_entry (env : Env)
  (this : DirectoryMaker) (stagingFolder : jsstring)
  (entries : list (jsstring * node)) (w : World) :
  fs_fault env (OpMkdir (outputDirOf env this)) = None ->
  fs_tree env stagingFolder = Directory entries ->
  (forall f, In f (List.map fst entries) ->
             fault_of env this (outputDirOf env this) f = None) ->
  exists w' l,
    createFilesFromDirectory env this stagingFolder w = (Ok tt, w') /\
    w_log w' = l ++ [processedLine stagingFolder (length entries)] /\
    forall filename,
      In filename (List.map fst entries) ->
      In (if accepted filename
          then entry Info [] None
                 (lit "Created file: " ++
                  outputPathOf this (outputDirOf env this) filename)
          else entry Debug [] None
                 (lit "Skipping non-PDF file: " ++ filename))
        l.
Proof.
  intros Hmk Htree Hok.
  unfold createFilesFromDirectory, try_catch, bind, dm_ensureDirectoryExists,
    try_catch, bind, mkdir, readdir.
  fold (outputDirOf env this). rewrite Hmk, Htree.
  cbn [logger_debug logger ret].
  match goal with
  | |- context [promise_all _ ?w0] =>
      destruct (processAll_log env this (outputDirOf env this)
                  (List.map fst entries) Hok w0) as (w1 & Hrun & Hlog)
  end.
  unfold processAll in Hrun. rewrite Hrun. cbn [logger_info logger].
  eexists _, _. split; [reflexivity|]. split.
  - cbn [w_log set_log]. rewrite Hlog, length_map. reflexivity.
  - intros filename Hin. apply in_or_app. right.
    apply (in_map (fileLine this (outputDirOf env this))) in Hin. exact Hin.
Qed.

Lemma markdown_log_accounts_for_every_entry_witness :
  exists w' l,
    createFilesFromDirectory
      (calm_env (staging [(lit "ADK1152.pdf", File); (lit "notes.txt", File)])
         readable)
      mini (lit "./pdfs") empty_world = (Ok tt, w') /\
    w_log w' = l ++ [processedLine (lit "./pdfs") 2].
Proof.
  destruct (markdown_log_accounts_for_every_entry
              (calm_env (staging [(lit "ADK1152.pdf", File);
                                  (lit "notes.txt", File)]) readable)
              mini (lit "./pdfs")
              [(lit "ADK1152.pdf", File); (lit "notes.txt", File)] empty_world)
    as (w' & l & Hrun & Hlog & _).
  - reflexivity.
  - vm_compute. reflexivity.
  - intros f [<- | [<- | []]]; vm_compute; reflexivity.
  - exists w', l. split; assumption.
Defined.

(* ===================================================================== *)
(** ** The lines of a record, and names that share a record *)
(* ===================================================================== *)

(** The number of line feeds of a text. *)
Definition lineFeeds (s : jsstring) : nat := count_occ N.eq_dec s 10%N.

Lemma lineFeeds_app (a b : jsstring) :
  lineFeeds (a ++ b) = (lineFeeds a + lineFeeds b)%nat.
Proof. apply count_occ_app. Qed.

Lemma lineFeeds_no_whitespace (s : jsstring) :
  Forall (fun c => is_whitespace c = false) s -> lineFeeds s = 0%nat.
Proof.
  unfold lineFeeds. induction 1 as [|c s Hc _ IH]; [reflexivity|].
  cbn [count_occ]. destruct (N.eq_dec c 10%N) as [->|_]; [|exact IH].
  discriminate Hc.
Qed.

(** X27.  A record has eight lines unless its title has a line feed.  When
    the base URL and the prefix contain no whitespace, the text
    [generateMarkdownContent] builds from the metadata of a file has seven
    line feeds besides those of the title: the slug never has one, and in
    both URLs every whitespace of the file name, line feeds included, has
    become '+'. *)
Theorem record_line_feeds (this : DirectoryMaker) (filename : jsstring) :
  Forall (fun c => is_whitespace c = false) (dm_awsLocation this) ->
  Forall (fun c => is_whitespace c = false) (dm_prefix this) ->
  lineFeeds (generateMarkdownContent (extractMetadata this filename)) =
  (7 + lineFeeds (sanitizedTitle (extractMetadata this filename)))%nat.
Proof.
  intros Hbase Hprefix.
  assert (Hplus : Forall (fun c => is_whitespace c = false) (lit "+")).
  { apply no_whitespace_check. vm_compute. reflexivity. }
  assert (Hslug : lineFeeds (sanitizedFileName (extractMetadata this filename))
                  = 0%nat).
  { apply lineFeeds_no_whitespace.
    eapply List.Forall_impl; [|apply remove_non_slug_class].
    intros c. apply slug_unit_not_whitespace. }
  assert (Himage : lineFeeds (awsImage (extractMetadata this filename)) = 0%nat).
  { apply lineFeeds_no_whitespace.
    unfold extractMetadata. cbn [awsImage]. unfold replace_ws.
    apply List.Forall_app; split; [exact Hbase|].
    apply List.Forall_app; split;
      [apply no_whitespace_check; vm_compute; reflexivity|].
    apply List.Forall_app; split; [exact Hprefix|].
    apply List.Forall_app; split;
      [apply no_whitespace_check; vm_compute; reflexivity|].
    apply List.Forall_app; split;
      [apply replace_ws_from_no_whitespace; exact Hplus|].
    apply no_whitespace_check; vm_compute; reflexivity. }
  assert (Hdownload : lineFeeds (download (extractMetadata this filename))
                      = 0%nat).
  { apply lineFeeds_no_whitespace.
    unfold extractMetadata. cbn [download]. unfold replace_ws.
    apply List.Forall_app; split; [exact Hbase|].
    apply List.Forall_app; split;
      [apply no_whitespace_check; vm_compute; reflexivity|].
    apply List.Forall_app; split; [exact Hprefix|].
    apply List.Forall_app; split;
      [apply no_whitespace_check; vm_compute; reflexivity|].
    apply replace_ws_from_no_whitespace; exact Hplus. }
  rewrite generateMarkdownContent_layout. unfold markdownRecord.
  rewrite !lineFeeds_app, Hslug, Himage, Hdownload.
  change (lineFeeds nl) with 1%nat.
  change (lineFeeds (lit "---")) with 0%nat.
  change (lineFeeds (lit "    title: ")) with 0%nat.
  change (lineFeeds (lit "    slug: ")) with 0%nat.
  change (lineFeeds (lit "    description:")) with 0%nat.
  change (lineFeeds (lit "    code: ")) with 0%nat.
  change (lineFeeds (lit "    image: ")) with 0%nat.
  change (lineFeeds (lit "    download: ")) with 0%nat.
  lia.
Qed.

Lemma record_line_feeds_witness :
  lineFeeds (generateMarkdownContent (extractMetadata mini (lit "ADK 1152.pdf")))
  = (7 + lineFeeds (sanitizedTitle (extractMetadata mini (lit "ADK 1152.pdf"))))%nat.
Proof.
  apply (record_line_feeds mini (lit "ADK 1152.pdf")).
  - apply no_whitespace_check. vm_compute. reflexivity.
  - apply no_whitespace_check. vm_compute. reflexivity.
Defined.

Section SharedRecords.

Variable env : Env.
Variable this : DirectoryMaker.
Variable outputDir : jsstring.

Lemma written_app (l1 l2 : list jsstring) (m : gmap jsstring FileData) :
  written env this outputDir (l1 ++ l2) m =
  written env this outputDir l2 (written env this outputDir l1 m).
Proof.
  revert m. induction l1 as [|x l1 IH]; intros m; [reflexivity|].
  cbn [app written]. apply IH.
Qed.

(** When no record fails, the file at the record path of an accepted name
    is the record of a listed, accepted name with that path. *)
Lemma written_record (files : list jsstring) :
  (forall f, In f files -> fault_of env this outputDir f = None) ->
  forall (m : gmap jsstring FileData) (f : jsstring),
    In f files -> accepted f = true ->
    exists g,
      In g files /\ accepted g = true /\
      outputPathOf this outputDir g = outputPathOf this outputDir f /\
      written env this outputDir files m !! outputPathOf this outputDir f =
        Some (Text (markdownRecord (extractMetadata this g))).
Proof.
  induction files as [|x files IH] using rev_ind; intros Hok m f Hin Hacc.
  { destruct Hin. }
  rewrite written_app. cbn [written].
  assert (Hok' : forall f', In f' files ->
                            fault_of env this outputDir f' = None).
  { intros f' Hf'. apply Hok, in_or_app. left. exact Hf'. }
  assert (Hx : fault_of env this outputDir x = None).
  { apply Hok, in_or_app. right. left. reflexivity. }
  rewrite Hx.
  destruct (accepted x) eqn:Ex.
  - destruct (decide (outputPathOf this outputDir x =
                      outputPathOf this outputDir f)) as [Heq|Hne].
    + exists x. rewrite <- Heq, lookup_insert_eq.
      repeat split; auto. apply in_or_app. right. left. reflexivity.
    + rewrite lookup_insert_ne by exact Hne.
      apply in_app_or in Hin. destruct Hin as [Hin | [-> | []]]; [|congruence].
      destruct (IH Hok' m f Hin Hacc) as (g & Hg & Hgacc & Hpath & Hlook).
      exists g. repeat split; auto. apply in_or_app. left. exact Hg.
  - apply in_app_or in Hin. destruct Hin as [Hin | [-> | []]]; [|congruence].
    destruct (IH Hok' m f Hin Hacc) as (g & Hg & Hgacc & Hpath & Hlook).
    exists g. repeat split; auto. apply in_or_app. left. exact Hg.
Qed.

End SharedRecords.

Lemma slug_ignores_extension (this : DirectoryMaker) (stem ext1 ext2 : jsstring) :
  ~ In Path.dot ext1 -> ~ In Path.dot ext2 ->
  sanitizedFileName (extractMetadata this (stem ++ Path.dot :: ext1)) =
  sanitizedFileName (extractMetadata this (stem ++ Path.dot :: ext2)).
Proof.
  intros H1 H2. unfold extractMetadata. cbn [sanitizedFileName].
  rewrite !substring_lastIndexOf
    by (apply in_or_app; right; left; reflexivity).
  unfold spec_stripExtension.
  rewrite (beforeLast_app _ _ _ H1), (beforeLast_app _ _ _ H2). reflexivity.
Qed.

(** X28.  Names that share a record.  The slug, hence the path of the
    record, depends only on the text before the last dot: 'x.pdf' and
    'x.PDF' have the same record path.  When a staging folder lists two
    accepted names with the same stem and nothing fails,
    [createFilesFromDirectory] completes and there is a file at their
    common path: the two names have one record file between them.  Which
    of the records it holds is not stated: the two are written at the same
    time. *)
Theorem names_with_one_stem_share_a_record (env : Env) (this : DirectoryMaker)
  (stagingFolder : jsstring) (entries : list (jsstring * node))
  (stem ext1 ext2 : jsstring) (w : World) :
  ~ In Path.dot ext1 -> ~ In Path.dot ext2 ->
  fs_fault env (OpMkdir (outputDirOf env this)) = None ->
  fs_tree env stagingFolder = Directory entries ->
  (forall f, In f (List.map fst entries) ->
             fault_of env this (outputDirOf env this) f = None) ->
  In (stem ++ Path.dot :: ext1) (List.map fst entries) ->
  In (stem ++ Path.dot :: ext2) (List.map fst entries) ->
  accepted (stem ++ Path.dot :: ext1) = true ->
  outputPathOf this (outputDirOf env this) (stem ++ Path.dot :: ext1) =
    outputPathOf this (outputDirOf env this) (stem ++ Path.dot :: ext2) /\
  exists w',
    createFilesFromDirectory env this stagingFolder w = (Ok tt, w') /\
    is_Some
      (w_files w' !!
         outputPathOf this (outputDirOf env this) (stem ++ Path.dot :: ext2)).
Proof.
  intros H1 H2 Hmk Htree Hok Hin1 Hin2 Hacc.
  assert (Hsame :
            outputPathOf this (outputDirOf env this) (stem ++ Path.dot :: ext1) =
            outputPathOf this (outputDirOf env this) (stem ++ Path.dot :: ext2)).
  { unfold outputPathOf.
    rewrite (slug_ignores_extension this stem ext1 ext2 H1 H2). reflexivity. }
  split; [exact Hsame|].
  destruct (createFilesFromDirectory_run env this stagingFolder entries w
              Hmk Htree) as (w' & Hrun & Hfiles & _).
  rewrite (first_fault_none _ _ _ _ Hok) in Hrun.
  destruct (written_record env this (outputDirOf env this)
              (List.map fst entries) Hok (w_files w)
              (stem ++ Path.dot :: ext1) Hin1 Hacc)
    as (g & _ & _ & _ & Hlook).
  exists w'. split; [exact Hrun|].
  rewrite <- Hsame, Hfiles, Hlook. eexists. reflexivity.
Qed.

Lemma names_with_one_stem_share_a_record_witness :
  outputPathOf mini
    (outputDirOf
       (calm_env (staging [(lit "x.pdf", File); (lit "x.PDF", File)]) readable)
       mini)
    (lit "x" ++ Path.dot :: lit "pdf") =
  outputPathOf mini
    (outputDirOf
       (calm_env (staging [(lit "x.pdf", File); (lit "x.PDF", File)]) readable)
       mini)
    (lit "x" ++ Path.dot :: lit "PDF").
Proof.
  apply (names_with_one_stem_share_a_record
           (calm_env (staging [(lit "x.pdf", File); (lit "x.PDF", File)])
              readable)
           mini (lit "./pdfs") [(lit "x.pdf", File); (lit "x.PDF", File)]
           (lit "x") (lit "pdf") (lit "PDF") empty_world).
  - vm_compute. intros [H|[H|[H|[]]]]; discriminate H.
  - vm_compute. intros [H|[H|[H|[]]]]; discriminate H.
  - reflexivity.
  - vm_compute. reflexivity.
  - intros f [<- | [<- | []]]; vm_compute; reflexivity.
  - left. vm_compute. reflexivity.
  - right. left. vm_compute. reflexivity.
  - vm_compute. reflexivity.
Defined.
